(** * willsmith/simulator.py: the game and MDP drivers

    A shallow embedding of [run_games], [_run_game], [_advance_by_action],
    [run_mdp] and [_run_trial].  The drivers only talk to duck-typed
    collaborators (a game or MDP, and agents), so the collaborators are
    interfaces (type classes) and the drivers are programs of a small
    state-and-exception monad over a store of objects.  Every method call a
    driver makes is appended to a call trace and every logging call to an
    output list, so that statements about "which calls are made, in which
    order, with which arguments" are statements about lists.

    The methods of the collaborators are functions of the interfaces: they
    are taken to return.  What is stated about a run is therefore about the
    statements of the drivers themselves: the configuration test, the
    subscript [agents[...]], the loops and the final [input(...)]. *)

From Stdlib Require Import PrimFloat Ascii.
From stdpp Require Import base numbers list gmap strings.

Local Open Scope Z_scope.
#[local] Set Warnings "-clear-no-such-hyp".

(** ** Objects, exceptions and the driver monad *)

(** Python objects are referred to by reference. *)
Abbreviation loc := nat.

(** The exceptions a driver run can end with.  [RuntimeError] is raised by
    [run_games] itself, [IndexError] by the subscript [agents[...]],
    [EOFError] by [input(...)] when the standard input is at its end;
    [NoObject] marks a reference that is not in the store, which no run
    that starts from references to existing objects reaches. *)
Inductive exn :=
| RuntimeError (msg : string)
| IndexError
| EOFError
| NoObject.

(** A run either returns, raises, or is still inside a [while] loop when the
    iteration bound given to the model is used up. *)
Inductive outcome (S X : Type) :=
| Returned (x : X) (s : S)
| Raised (e : exn) (s : S)
| Unfinished.
Arguments Returned {S X} x s.
Arguments Raised {S X} e s.
Arguments Unfinished {S X}.

Definition prog (S X : Type) : Type := S → outcome S X.

Definition ret {S X} (x : X) : prog S X := λ s, Returned x s.

Definition bind {S X Y} (c : prog S X) (k : X → prog S Y) : prog S Y := λ s,
  match c s with
  | Returned x s' => k x s'
  | Raised e s' => Raised e s'
  | Unfinished => Unfinished
  end.

Definition raise {S X} (e : exn) : prog S X := λ s, Raised e s.

Definition unfinished {S X} : prog S X := λ _, Unfinished.

(** A relation between the state before and the state after that every
    completed run of a program establishes. *)
Definition keeps {S X} (R : relation S) (c : prog S X) : Prop :=
  ∀ s x s', c s = Returned x s' → R s s'.

(** The state a run ends in; [s] if it did not end. *)
Definition state_after {S X} (o : outcome S X) (s : S) : S :=
  match o with
  | Returned _ s' | Raised _ s' => s'
  | Unfinished => s
  end.

Notation "x <- c ;; k" := (bind c (λ x, k))
  (at level 100, c at next level, right associativity, only parsing).
Notation "c ;;; k" := (bind c (λ _, k))
  (at level 100, right associativity, only parsing).

(** [for x in xs: body(x)] *)
Fixpoint foreach {S X} (body : X → prog S unit) (xs : list X) : prog S unit :=
  match xs with
  | [] => ret tt
  | x :: xs' => body x ;;; foreach body xs'
  end.

(** [range(n)] *)
Definition range (n : Z) : list Z := Z.of_nat <$> seq 0 (Z.to_nat n).

(** [xs[i]] for a Python list and a Python integer: an index from [0] to
    [len(xs) - 1] counts from the front, an index from [-len(xs)] to [-1]
    counts from the end, and any other index is out of range
    ([IndexError]). *)
Definition getitem {X} (xs : list X) (i : Z) : option X :=
  let n := Z.of_nat (length xs) in
  let j := if bool_decide (i < 0) then n + i else i in
  if bool_decide (0 ≤ j < n) then xs !! Z.to_nat j else None.

(** How a program ends whose last statement is [input(...)], when [lines]
    was left to read on the standard input before the run and [s'] is the
    state after the prompt: it returns if there is a line to read and ends
    with [EOFError] if the input is at its end. *)
Definition after_input {S} (lines : list string) (s' : S) : outcome S unit :=
  match lines with
  | [] => Raised EOFError s'
  | _ :: _ => Returned tt s'
  end.

(** Logging: [getLogger(__name__).info(template.format(args...))]. *)
Inductive level := INFO | DEBUG.

(** Modelled from the spec: the [copy()] method of the Game and MDP classes,
    which are not among the sources.  The spec's data model makes it "a
    deep-copy operation that produces an independent snapshot frozen at call
    time": a new object, at a reference not in use, whose content is the
    content of the copied object at the time of the call. *)
Definition copy_object {V} (objs : gmap loc V) (l : loc)
    : option (loc * gmap loc V) :=
  match objs !! l with
  | Some v => let l' := fresh (dom objs) in Some (l', <[l' := v]> objs)
  | None => None
  end.

Definition newline : string := String "010"%char EmptyString.

(** ** Game mode: [run_games], [_run_game], [_advance_by_action] *)

Module GameMode.

(** The Game interface the driver uses.  [G] is the content of a game
    object.  Observers are read off the content; [reset] and [take_action]
    mutate the object.  [NUM_PLAYERS] is the number of players, compared
    with [len(agents)]; [current_agent_id] is the index of the player to
    move, a Python integer that is used as a subscript of [agents] and
    compared with the [agent_id] of every agent. *)
Class Game (Action WinId G : Type) := {
  NUM_PLAYERS : nat;
  current_agent_id : G → Z;
  game_reset : G → G;
  is_terminal : G → bool;
  game_take_action : Action → G → G;
  get_winning_id : G → WinId;
}.
Arguments NUM_PLAYERS {Action WinId} G {_}.

(** The Agent interface.  [search] is handed a game snapshot and a time
    budget and returns an action; every method may change the agent. *)
Class Agent (Action Time G A : Type) := {
  agent_id : A → Z;
  agent_reset : A → A;
  search : G → Time → A → Action * A;
  agent_take_action : Action → bool → A → A;
}.

(** A method call made by the driver, with the receiver, the arguments, what
    the callee sees through a reference argument, and the result. *)
Inductive call (Action Time WinId G : Type) :=
| GameReset
| AgentReset (agent : loc)
| IsTerminal (result : bool)
| Copy (snapshot : loc) (content : G)
| Search (agent snapshot : loc) (seen : G) (time_allowed : Time)
    (result : Action)
| GameTakeAction (action : Action)
| AgentTakeAction (agent : loc) (action : Action) (own : bool)
| GetWinningId (result : WinId).
Arguments GameReset {Action Time WinId G}.
Arguments AgentReset {Action Time WinId G} agent.
Arguments IsTerminal {Action Time WinId G} result.
Arguments Copy {Action Time WinId G} snapshot content.
Arguments Search {Action Time WinId G} agent snapshot seen time_allowed result.
Arguments GameTakeAction {Action Time WinId G} action.
Arguments AgentTakeAction {Action Time WinId G} agent action own.
Arguments GetWinningId {Action Time WinId G} result.

(** The values formatted into a log message. *)
Inductive arg (Action WinId G A : Type) :=
| AInt (z : Z)
| AAgent (a : A)
| AAction (action : Action)
| AWinner (w : WinId)
| AGame (g : G).
Arguments AInt {Action WinId G A} z.
Arguments AAgent {Action WinId G A} a.
Arguments AAction {Action WinId G A} action.
Arguments AWinner {Action WinId G A} w.
Arguments AGame {Action WinId G A} g.

Inductive output (Action WinId G A : Type) :=
| Log (lvl : level) (template : string) (args : list (arg Action WinId G A))
| Input (prompt : string).
Arguments Log {Action WinId G A} lvl template args.
Arguments Input {Action WinId G A} prompt.

(** The store of game objects (the live game and its snapshots), the store
    of agent objects, what the run has done so far, and the lines that are
    left to read on the standard input. *)
Record world (Action Time WinId G A : Type) := World {
  games : gmap loc G;
  agent_objs : gmap loc A;
  calls : list (call Action Time WinId G);
  outputs : list (output Action WinId G A);
  stdin : list string;
}.
Arguments World {Action Time WinId G A} games agent_objs calls outputs stdin.
Arguments games {Action Time WinId G A} w.
Arguments agent_objs {Action Time WinId G A} w.
Arguments calls {Action Time WinId G A} w.
Arguments outputs {Action Time WinId G A} w.
Arguments stdin {Action Time WinId G A} w.

Section driver.
Context {Action Time WinId G A : Type}.
Context `{!Game Action WinId G, !Agent Action Time G A}.

Local Abbreviation world := (world Action Time WinId G A).
Local Abbreviation call := (call Action Time WinId G).
Local Abbreviation output := (output Action WinId G A).

Definition set_games (gs : gmap loc G) (s : world) : world :=
  World gs (agent_objs s) (calls s) (outputs s) (stdin s).
Definition set_agent_objs (os : gmap loc A) (s : world) : world :=
  World (games s) os (calls s) (outputs s) (stdin s).
Definition add_call (c : call) (s : world) : world :=
  World (games s) (agent_objs s) (calls s ++ [c]) (outputs s) (stdin s).
Definition add_output (o : output) (s : world) : world :=
  World (games s) (agent_objs s) (calls s) (outputs s ++ [o]) (stdin s).
Definition set_stdin (lines : list string) (s : world) : world :=
  World (games s) (agent_objs s) (calls s) (outputs s) lines.

(** [getLogger(__name__).info(...)] and [.debug(...)] *)
Definition log (lvl : level) (template : string)
    (args : list (arg Action WinId G A)) : prog world unit :=
  λ s, Returned tt (add_output (Log lvl template args) s).

(** [input(prompt)]: the prompt is written, then a line is read; at the
    end of the input there is none and [EOFError] is raised. *)
Definition input (prompt : string) : prog world string := λ s,
  let s' := set_stdin (tail (stdin s)) (add_output (Input prompt) s) in
  match stdin s with
  | line :: _ => Returned line s'
  | [] => Raised EOFError s'
  end.

(** Reading an attribute of the game, with no call made. *)
Definition game_attr {X} (game : loc) (f : G → X) : prog world X := λ s,
  match games s !! game with
  | Some v => Returned (f v) s
  | None => Raised NoObject s
  end.

Definition agent_attr {X} (agent : loc) (f : A → X) : prog world X := λ s,
  match agent_objs s !! agent with
  | Some a => Returned (f a) s
  | None => Raised NoObject s
  end.

(** [game.reset()] *)
Definition call_game_reset (game : loc) : prog world unit := λ s,
  match games s !! game with
  | Some v =>
      Returned tt
        (add_call GameReset (set_games (<[game := game_reset v]> (games s)) s))
  | None => Raised NoObject s
  end.

(** [game.is_terminal()] *)
Definition call_is_terminal (game : loc) : prog world bool := λ s,
  match games s !! game with
  | Some v => Returned (is_terminal v) (add_call (IsTerminal (is_terminal v)) s)
  | None => Raised NoObject s
  end.

(** [game.copy()] *)
Definition call_copy (game : loc) : prog world loc := λ s,
  match copy_object (games s) game, games s !! game with
  | Some (l, gs), Some v => Returned l (add_call (Copy l v) (set_games gs s))
  | _, _ => Raised NoObject s
  end.

(** [game.take_action(action)] *)
Definition call_game_take_action (game : loc) (action : Action)
    : prog world unit := λ s,
  match games s !! game with
  | Some v =>
      Returned tt
        (add_call (GameTakeAction action)
           (set_games (<[game := game_take_action action v]> (games s)) s))
  | None => Raised NoObject s
  end.

(** [game.get_winning_id()] *)
Definition call_get_winning_id (game : loc) : prog world WinId := λ s,
  match games s !! game with
  | Some v =>
      Returned (get_winning_id v) (add_call (GetWinningId (get_winning_id v)) s)
  | None => Raised NoObject s
  end.

(** [agent.reset()] *)
Definition call_agent_reset (agent : loc) : prog world unit := λ s,
  match agent_objs s !! agent with
  | Some a =>
      Returned tt
        (add_call (AgentReset agent)
           (set_agent_objs (<[agent := agent_reset a]> (agent_objs s)) s))
  | None => Raised NoObject s
  end.

(** [agent.search(snapshot, time_allowed)] *)
Definition call_search (agent snapshot : loc) (time_allowed : Time)
    : prog world Action := λ s,
  match agent_objs s !! agent, games s !! snapshot with
  | Some a, Some v =>
      let '(action, a') := search v time_allowed a in
      Returned action
        (add_call (Search agent snapshot v time_allowed action)
           (set_agent_objs (<[agent := a']> (agent_objs s)) s))
  | _, _ => Raised NoObject s
  end.

(** [agent.take_action(action, own)] *)
Definition call_agent_take_action (agent : loc) (action : Action)
    (own : bool) : prog world unit := λ s,
  match agent_objs s !! agent with
  | Some a =>
      Returned tt
        (add_call (AgentTakeAction agent action own)
           (set_agent_objs
              (<[agent := agent_take_action action own a]> (agent_objs s)) s))
  | None => Raised NoObject s
  end.

(** [agents[i]]: an index out of range raises [IndexError]. *)
Definition subscript (agents : list loc) (i : Z) : prog world loc :=
  match getitem agents i with
  | Some agent => ret agent
  | None => raise IndexError
  end.

(** "Update the game and agents with the given action." *)
Definition _advance_by_action (game : loc) (agents : list loc)
    (action : Action) : prog world unit :=
  c <- game_attr game current_agent_id ;;
  log DEBUG "Agent {} action {}" [AInt c; AAction action] ;;;
  agent_id_for_action <- game_attr game current_agent_id ;;
  call_game_take_action game action ;;;
  foreach (λ agent,
    aid <- agent_attr agent agent_id ;;
    call_agent_take_action agent action
      (bool_decide (aid = agent_id_for_action))) agents.

(** The body of the [while] loop of [_run_game]. *)
Definition game_turn (game : loc) (agents : list loc) (time_allowed : Time)
    : prog world unit :=
  c <- game_attr game current_agent_id ;;
  current_agent <- subscript agents c ;;
  snapshot <- call_copy game ;;
  action <- call_search current_agent snapshot time_allowed ;;
  a <- agent_attr current_agent id ;;
  log DEBUG "Agent {} {}" [AInt (agent_id a); AAgent a] ;;;
  _advance_by_action game agents action.

(** [while not game.is_terminal(): ...], for at most [fuel] tests of the
    condition. *)
Fixpoint game_loop (fuel : nat) (game : loc) (agents : list loc)
    (time_allowed : Time) : prog world unit :=
  match fuel with
  | O => unfinished
  | S fuel' =>
      t <- call_is_terminal game ;;
      if t then ret tt
      else
        game_turn game agents time_allowed ;;;
        game_loop fuel' game agents time_allowed
  end.

(** "Reset the agents and game to their initial state, then progresses
    through each agent's turn prompting them for actions until a terminal
    state of the game is reached." *)
Definition _run_game (fuel : nat) (game : loc) (agents : list loc)
    (time_allowed : Time) : prog world unit :=
  call_game_reset game ;;;
  foreach (λ agent,
    call_agent_reset agent ;;;
    a <- agent_attr agent id ;;
    log DEBUG "Agent {} start {}" [AInt (agent_id a); AAgent a]) agents ;;;
  game_loop fuel game agents time_allowed ;;;
  w <- call_get_winning_id game ;;
  log INFO "Winning agent is {}" [AWinner w] ;;;
  v <- game_attr game id ;;
  log DEBUG ("Final state" +:+ newline +:+ "{}") [AGame v].

(** "Play the provided agents through the game num_games times."  [fuel]
    bounds the tests of the loop condition in each game. *)
Definition run_games (fuel : nat) (game : loc) (agents : list loc)
    (time_allowed : Time) (num_games : Z) : prog world unit :=
  if bool_decide (length agents ≠ NUM_PLAYERS G) then
    raise (RuntimeError "Incorrect number of agents for game type.")
  else
    foreach (λ i,
      log INFO "Game {}/{}" [AInt (i + 1); AInt num_games] ;;;
      _run_game fuel game agents time_allowed) (range num_games) ;;;
    log INFO "Games complete" [] ;;;
    input (newline +:+ "Press enter key to end.") ;;;
    ret tt.
(** *** Reading a call trace *)

(** The state transitions applied to the game: the actions of the
    [game.take_action] calls, in order. *)
Definition transitions (cs : list call) : list Action :=
  omap (λ c, match c with GameTakeAction action => Some action | _ => None end) cs.

(** The agent queries: which agent searched and the action it produced. *)
Definition searches (cs : list call) : list (loc * Action) :=
  omap (λ c, match c with
             | Search agent _ _ _ action => Some (agent, action)
             | _ => None
             end) cs.

(** The [take_action] notifications delivered to one agent object. *)
Definition notifications (agent : loc) (cs : list call)
    : list (Action * bool) :=
  omap (λ c, match c with
             | AgentTakeAction agent' action own =>
                 if decide (agent' = agent) then Some (action, own) else None
             | _ => None
             end) cs.

(** The winner ids reported in the log. *)
Definition winners (os : list output) : list WinId :=
  omap (λ o, match o with
             | Log INFO _ [AWinner w] => Some w
             | _ => None
             end) os.

(** The [agent_id] attribute of an agent object, if the object exists. *)
Definition id_of (s : world) (agent : loc) : option Z :=
  agent_id <$> agent_objs s !! agent.

(** One pass through the loop of [_run_game]: the content of the game
    before the transition, the agent that searched, the snapshot it was
    given, the action it returned and the flags the agents were notified
    with, in list order. *)
Record turn := Turn {
  before : G;
  acting : loc;
  snapshot : loc;
  action : Action;
  flags : list bool;
}.

Definition turn_calls (agents : list loc) (time_allowed : Time) (tn : turn)
    : list call :=
  [Copy (snapshot tn) (before tn);
   Search (acting tn) (snapshot tn) (before tn) time_allowed (action tn);
   GameTakeAction (action tn)] ++
  zip_with (λ agent own, AgentTakeAction agent (action tn) own)
    agents (flags tn).

(** The turns start from content [v] of the game: each turn starts, not
    terminal, where the previous one ended. *)
Fixpoint plays (v : G) (turns : list turn) : Prop :=
  match turns with
  | [] => True
  | tn :: turns' =>
      before tn = v ∧ is_terminal v = false ∧
      plays (game_take_action (action tn) v) turns'
  end.

(** The content of the game after the turns. *)
Definition outcome_of (v : G) (turns : list turn) : G :=
  foldl (λ v tn, game_take_action (action tn) v) v turns.

(** The flag [_advance_by_action] computes for an agent whose [agent_id]
    is given by [ids], when the game's [current_agent_id] was [c] before
    the transition. *)
Definition own_flag (ids : loc → option Z) (c : Z) (agent : loc) : bool :=
  bool_decide (ids agent = Some c).

(** The calls of a whole episode with the given turns. *)
Definition episode_calls (agents : list loc) (time_allowed : Time)
    (turns : list turn) (w : WinId) : list call :=
  [GameReset] ++ (AgentReset <$> agents) ++
  flat_map (λ tn, IsTerminal false :: turn_calls agents time_allowed tn) turns ++
  [IsTerminal true; GetWinningId w].

(** The acting agent of a turn is [agents[game.current_agent_id]], and
    every agent in the list is notified. *)
Definition turn_ok (agents : list loc) (tn : turn) : Prop :=
  getitem agents (current_agent_id (before tn)) = Some (acting tn) ∧
  length (flags tn) = length agents.

(** The flags of a turn are [agent.agent_id == agent_id_for_action]. *)
Definition flags_by_id (ids : loc → option Z) (agents : list loc)
    (tn : turn) : Prop :=
  flags tn = own_flag ids (current_agent_id (before tn)) <$> agents.

(** An agent's [agent_id] is not changed by the agent's methods. *)
Class StableId : Prop := {
  reset_id a : agent_id (agent_reset a) = agent_id a;
  search_id v t a : agent_id (search v t a).2 = agent_id a;
  take_action_id act own a :
    agent_id (agent_take_action act own a) = agent_id a;
}.

(** Every snapshot handed out so far is an object of its own and still
    has the content it was created with. *)
Definition frozen (game : loc) (s : world) : Prop :=
  ∀ l v, Copy l v ∈ calls s → l ≠ game ∧ games s !! l = Some v.

(** The episodes of a run of [run_games], each with its turns and the
    winner it reports, when the game object held [v] before the run: every
    episode starts from the reset of what the episode before left, plays
    until the game is terminal and reports the winner of that final
    content. *)
Fixpoint episodes (v : G) (eps : list (list turn * WinId)) : Prop :=
  match eps with
  | [] => True
  | ep :: eps' =>
      plays (game_reset v) ep.1 ∧
      is_terminal (outcome_of (game_reset v) ep.1) = true ∧
      ep.2 = get_winning_id (outcome_of (game_reset v) ep.1) ∧
      episodes (outcome_of (game_reset v) ep.1) eps'
  end.

(** What is left of the output when the logger drops the DEBUG messages:
    the INFO messages and the prompts of [input]. *)
Definition shown_at_info (os : list output) : list output :=
  omap (λ o, match o with Log DEBUG _ _ => None | _ => Some o end) os.

(** The two INFO lines of a game: its number out of [num_games] and its
    winner. *)
Definition game_lines (num_games : Z) (i : Z) (w : WinId) : list output :=
  [Log INFO "Game {}/{}" [AInt (i + 1); AInt num_games];
   Log INFO "Winning agent is {}" [AWinner w]].

(** The agent object a call is made on. *)
Definition receiver (c : call) : option loc :=
  match c with
  | AgentReset agent | Search agent _ _ _ _ | AgentTakeAction agent _ _ =>
      Some agent
  | _ => None
  end.

(** The references the driver is given lead to objects. *)
Definition present (game : loc) (agents : list loc) (s : world) : Prop :=
  is_Some (games s !! game) ∧
  ∀ agent, agent ∈ agents → is_Some (agent_objs s !! agent).

(** Nothing has been read from the standard input. *)
Definition unread (s s' : world) : Prop := stdin s' = stdin s.

(** Nothing has been added to the output that shows at level INFO. *)
Definition quiet (s s' : world) : Prop :=
  shown_at_info (outputs s') = shown_at_info (outputs s).

(** The agent objects that are not in the list are as they were. *)
Definition kept (agents : list loc) (s s' : world) : Prop :=
  ∀ a, a ∉ agents → agent_objs s' !! a = agent_objs s !! a.
End driver.

End GameMode.

(** ** MDP mode: [run_mdp], [_run_trial] *)

Module MDPMode.

(** The MDP interface the driver uses; [M] is the content of an MDP object. *)
Class MDP (Action Reward M : Type) := {
  mdp_reset : M → M;
  is_terminal : M → bool;
  step : Action → M → (Reward * bool) * M;
  total_reward : M → Reward;
  timesteps : M → Z;
}.

(** The learning agent's interface.  [update] is handed the pre-transition
    snapshot and the live MDP. *)
Class Agent (Action Reward Weights M A : Type) := {
  get_next_action : M → A → Action * A;
  update : M → M → Reward → Action → bool → A → A;
  weights : A → Weights;
}.

Inductive call (Action Reward M : Type) :=
| Reset
| IsTerminal (result : bool)
| Copy (snapshot : loc) (content : M)
| GetNextAction (agent snapshot : loc) (seen : M) (result : Action)
| Step (action : Action) (reward : Reward) (terminal : bool)
| Update (agent prev_state : loc) (seen_prev : M) (mdp : loc) (seen_mdp : M)
    (reward : Reward) (action : Action) (terminal : bool).
Arguments Reset {Action Reward M}.
Arguments IsTerminal {Action Reward M} result.
Arguments Copy {Action Reward M} snapshot content.
Arguments GetNextAction {Action Reward M} agent snapshot seen result.
Arguments Step {Action Reward M} action reward terminal.
Arguments Update {Action Reward M} agent prev_state seen_prev mdp seen_mdp
  reward action terminal.

Inductive arg (Reward Weights : Type) :=
| AInt (z : Z)
| AReward (r : Reward)
| AWeights (w : Weights).
Arguments AInt {Reward Weights} z.
Arguments AReward {Reward Weights} r.
Arguments AWeights {Reward Weights} w.

Inductive output (Reward Weights : Type) :=
| Log (lvl : level) (template : string) (args : list (arg Reward Weights))
| Input (prompt : string).
Arguments Log {Reward Weights} lvl template args.
Arguments Input {Reward Weights} prompt.

(** The store of MDP objects (the live MDP and its snapshots), the store of
    agent objects, what the run has done so far, and the lines that are
    left to read on the standard input. *)
Record world (Action Reward Weights M A : Type) := World {
  mdps : gmap loc M;
  agent_objs : gmap loc A;
  calls : list (call Action Reward M);
  outputs : list (output Reward Weights);
  stdin : list string;
}.
Arguments World {Action Reward Weights M A} mdps agent_objs calls outputs
  stdin.
Arguments mdps {Action Reward Weights M A} w.
Arguments agent_objs {Action Reward Weights M A} w.
Arguments calls {Action Reward Weights M A} w.
Arguments outputs {Action Reward Weights M A} w.
Arguments stdin {Action Reward Weights M A} w.

Section driver.
Context {Action Reward Weights M A : Type}.
Context `{!MDP Action Reward M, !Agent Action Reward Weights M A}.

Local Abbreviation world := (world Action Reward Weights M A).
Local Abbreviation call := (call Action Reward M).
Local Abbreviation output := (output Reward Weights).

Definition set_mdps (ms : gmap loc M) (s : world) : world :=
  World ms (agent_objs s) (calls s) (outputs s) (stdin s).
Definition set_agent_objs (os : gmap loc A) (s : world) : world :=
  World (mdps s) os (calls s) (outputs s) (stdin s).
Definition add_call (c : call) (s : world) : world :=
  World (mdps s) (agent_objs s) (calls s ++ [c]) (outputs s) (stdin s).
Definition add_output (o : output) (s : world) : world :=
  World (mdps s) (agent_objs s) (calls s) (outputs s ++ [o]) (stdin s).
Definition set_stdin (lines : list string) (s : world) : world :=
  World (mdps s) (agent_objs s) (calls s) (outputs s) lines.

Definition log (lvl : level) (template : string)
    (args : list (arg Reward Weights)) : prog world unit :=
  λ s, Returned tt (add_output (Log lvl template args) s).

(** [input(prompt)]: the prompt is written, then a line is read; at the
    end of the input there is none and [EOFError] is raised. *)
Definition input (prompt : string) : prog world string := λ s,
  let s' := set_stdin (tail (stdin s)) (add_output (Input prompt) s) in
  match stdin s with
  | line :: _ => Returned line s'
  | [] => Raised EOFError s'
  end.

(** Reading an attribute of the MDP, with no call made. *)
Definition mdp_attr {X} (mdp : loc) (f : M → X) : prog world X := λ s,
  match mdps s !! mdp with
  | Some m => Returned (f m) s
  | None => Raised NoObject s
  end.

Definition agent_attr {X} (agent : loc) (f : A → X) : prog world X := λ s,
  match agent_objs s !! agent with
  | Some a => Returned (f a) s
  | None => Raised NoObject s
  end.

(** [mdp.reset()] *)
Definition call_reset (mdp : loc) : prog world unit := λ s,
  match mdps s !! mdp with
  | Some m =>
      Returned tt (add_call Reset (set_mdps (<[mdp := mdp_reset m]> (mdps s)) s))
  | None => Raised NoObject s
  end.

(** [mdp.is_terminal()] *)
Definition call_is_terminal (mdp : loc) : prog world bool := λ s,
  match mdps s !! mdp with
  | Some m => Returned (is_terminal m) (add_call (IsTerminal (is_terminal m)) s)
  | None => Raised NoObject s
  end.

(** [mdp.copy()] *)
Definition call_copy (mdp : loc) : prog world loc := λ s,
  match copy_object (mdps s) mdp, mdps s !! mdp with
  | Some (l, ms), Some m => Returned l (add_call (Copy l m) (set_mdps ms s))
  | _, _ => Raised NoObject s
  end.

(** [mdp.step(action)] *)
Definition call_step (mdp : loc) (action : Action)
    : prog world (Reward * bool) := λ s,
  match mdps s !! mdp with
  | Some m =>
      let '(reward, terminal, m') := step action m in
      Returned (reward, terminal)
        (add_call (Step action reward terminal)
           (set_mdps (<[mdp := m']> (mdps s)) s))
  | None => Raised NoObject s
  end.

(** [agent.get_next_action(snapshot)] *)
Definition call_get_next_action (agent snapshot : loc)
    : prog world Action := λ s,
  match agent_objs s !! agent, mdps s !! snapshot with
  | Some a, Some m =>
      let '(action, a') := get_next_action m a in
      Returned action
        (add_call (GetNextAction agent snapshot m action)
           (set_agent_objs (<[agent := a']> (agent_objs s)) s))
  | _, _ => Raised NoObject s
  end.

(** [agent.update(prev_state, mdp, reward, action, terminal)] *)
Definition call_update (agent prev_state mdp : loc) (reward : Reward)
    (action : Action) (terminal : bool) : prog world unit := λ s,
  match agent_objs s !! agent, mdps s !! prev_state, mdps s !! mdp with
  | Some a, Some p, Some m =>
      Returned tt
        (add_call (Update agent prev_state p mdp m reward action terminal)
           (set_agent_objs
              (<[agent := update p m reward action terminal a]> (agent_objs s))
              s))
  | _, _, _ => Raised NoObject s
  end.

(** The body of the [while] loop of [_run_trial]. *)
Definition trial_step (mdp agent : loc) : prog world unit :=
  snapshot <- call_copy mdp ;;
  action <- call_get_next_action agent snapshot ;;
  prev_state <- call_copy mdp ;;
  rt <- call_step mdp action ;;
  call_update agent prev_state mdp rt.1 action rt.2.

(** [while not mdp.is_terminal(): ...], for at most [fuel] tests of the
    condition. *)
Fixpoint trial_loop (fuel : nat) (mdp agent : loc) : prog world unit :=
  match fuel with
  | O => unfinished
  | S fuel' =>
      t <- call_is_terminal mdp ;;
      if t then ret tt else trial_step mdp agent ;;; trial_loop fuel' mdp agent
  end.

(** "Reset the MDP to its initial state, then continually prompt the agent
    for actions until the MDP reaches a terminal state."  The local
    [prev_state = None] before the loop is never read. *)
Definition _run_trial (fuel : nat) (mdp agent : loc) : prog world Z :=
  call_reset mdp ;;;
  trial_loop fuel mdp agent ;;;
  mdp_attr mdp timesteps.

(** "Run the agent through num_trials number of trials of the given MDP."
    [fuel] bounds the tests of the loop condition in each trial. *)
Definition run_mdp (fuel : nat) (mdp agent : loc) (num_trials : Z)
    : prog world unit :=
  foreach (λ i,
    log INFO "Trial {}/{}" [AInt (i + 1); AInt num_trials] ;;;
    num_steps <- _run_trial fuel mdp agent ;;
    r <- mdp_attr mdp total_reward ;;
    t <- mdp_attr mdp timesteps ;;
    log DEBUG "reward:{}; timesteps:{}" [AReward r; AInt t])
    (range num_trials) ;;;
  w <- agent_attr agent weights ;;
  log DEBUG "Final agent weights: {}" [AWeights w] ;;;
  log INFO "Trials complete." [] ;;;
  input (newline +:+ "Press enter key to end.") ;;;
  ret tt.

(** *** Reading a call trace *)

(** The [step] calls: the reward and terminal flag returned and the action
    given. *)
Definition steps (cs : list call) : list (Reward * Action * bool) :=
  omap (λ c, match c with
             | Step action reward terminal => Some (reward, action, terminal)
             | _ => None
             end) cs.

(** The [update] calls: the reward, action and terminal flag passed. *)
Definition updates (cs : list call) : list (Reward * Action * bool) :=
  omap (λ c, match c with
             | Update _ _ _ _ _ reward action terminal =>
                 Some (reward, action, terminal)
             | _ => None
             end) cs.

(** One pass through the loop of [_run_trial]: the content of the MDP
    before the step, the two snapshots, the action the agent chose, what
    the step returned and the content of the MDP after it. *)
Record iteration := Iteration {
  pre : M;
  first_copy : loc;
  second_copy : loc;
  chosen : Action;
  reward : Reward;
  terminal : bool;
  post : M;
}.

Definition iteration_calls (mdp agent : loc) (it : iteration) : list call :=
  [IsTerminal false;
   Copy (first_copy it) (pre it);
   GetNextAction agent (first_copy it) (pre it) (chosen it);
   Copy (second_copy it) (pre it);
   Step (chosen it) (reward it) (terminal it);
   Update agent (second_copy it) (pre it) mdp (post it)
     (reward it) (chosen it) (terminal it)].

(** The iterations start from content [m] of the MDP: each starts, not
    terminal, where the previous one ended, steps the MDP once, and its
    two snapshots are objects of their own. *)
Fixpoint runs (mdp : loc) (m : M) (its : list iteration) : Prop :=
  match its with
  | [] => True
  | it :: its' =>
      pre it = m ∧ is_terminal m = false ∧
      step (chosen it) m = (reward it, terminal it, post it) ∧
      first_copy it ≠ second_copy it ∧
      first_copy it ≠ mdp ∧ second_copy it ≠ mdp ∧
      runs mdp (post it) its'
  end.

(** The content of the MDP after the iterations. *)
Definition end_of (m : M) (its : list iteration) : M :=
  foldl (λ _ it, post it) m its.

Definition trial_calls (mdp agent : loc) (its : list iteration) : list call :=
  [Reset] ++ flat_map (iteration_calls mdp agent) its ++ [IsTerminal true].

(** Every snapshot handed out so far is an object of its own and still
    has the content it was created with. *)
Definition frozen (mdp : loc) (s : world) : Prop :=
  ∀ l m, Copy l m ∈ calls s → l ≠ mdp ∧ mdps s !! l = Some m.

(** What one pass of the loop makes of the agent: [get_next_action] on the
    content before the step, then [update] with what the step gave. *)
Definition taught (a : A) (it : iteration) : A :=
  update (pre it) (post it) (reward it) (chosen it) (terminal it)
    (get_next_action (pre it) a).2.

(** The agent after the iterations. *)
Definition learn (a : A) (its : list iteration) : A := foldl taught a its.

(** The action of every iteration is the one the agent, as the iterations
    before left it, answers on the content before the step. *)
Fixpoint chooses (a : A) (its : list iteration) : Prop :=
  match its with
  | [] => True
  | it :: its' =>
      chosen it = (get_next_action (pre it) a).1 ∧ chooses (taught a it) its'
  end.

(** The trials of a run of [run_mdp], each with its iterations, when the
    MDP object held [m] before the run: every trial starts from the reset
    of what the trial before left and runs until the MDP is terminal. *)
Fixpoint trials (mdp : loc) (m : M) (tr : list (list iteration)) : Prop :=
  match tr with
  | [] => True
  | its :: tr' =>
      runs mdp (mdp_reset m) its ∧
      is_terminal (end_of (mdp_reset m) its) = true ∧
      trials mdp (end_of (mdp_reset m) its) tr'
  end.

(** The content of the MDP at the end of each trial. *)
Fixpoint ends (m : M) (tr : list (list iteration)) : list M :=
  match tr with
  | [] => []
  | its :: tr' =>
      end_of (mdp_reset m) its :: ends (end_of (mdp_reset m) its) tr'
  end.

(** The two log lines of a trial: its number out of [num_trials], and the
    counters of the MDP as the trial left it. *)
Definition trial_lines (num_trials : Z) (i : Z) (mf : M) : list output :=
  [Log INFO "Trial {}/{}" [AInt (i + 1); AInt num_trials];
   Log DEBUG "reward:{}; timesteps:{}"
     [AReward (total_reward mf); AInt (timesteps mf)]].

(** The references the driver is given lead to objects. *)
Definition present (mdp agent : loc) (s : world) : Prop :=
  is_Some (mdps s !! mdp) ∧ is_Some (agent_objs s !! agent).

(** Nothing has been read from the standard input. *)
Definition unread (s s' : world) : Prop := stdin s' = stdin s.
End driver.

(** What an MDP is about, apart from its counters: the task's own state and
    dynamics, and how rewards are added up. *)
Class Task (Action Reward T : Type) := {
  task_reset : T → T;
  task_is_terminal : T → bool;
  task_step : Action → T → (Reward * bool) * T;
  reward_zero : Reward;
  reward_add : Reward → Reward → Reward;
}.

(** Modelled from the spec: the content of an object of the MDP class, which
    is not among the sources.  The spec's data model has the MDP expose
    "cumulative reward and elapsed timestep count" as readable counters,
    next to the state of the task. *)
Record counted (Reward T : Type) := Counted {
  task : T;
  reward_sum : Reward;
  step_count : Z;
}.
Arguments Counted {Reward T} task reward_sum step_count.
Arguments task {Reward T} c.
Arguments reward_sum {Reward T} c.
Arguments step_count {Reward T} c.

(** Modelled from the spec: the methods of the MDP class, which is not among
    the sources.  [reset] discards the previous episode, counters included;
    [step] advances the task, adds the reward to [total_reward] and one to
    [timesteps]: the counters are the cumulative reward and the number of
    steps since the last reset. *)
#[export] Instance counted_MDP `{!Task Action Reward T}
    : MDP Action Reward (counted Reward T) := {|
  mdp_reset m := Counted (task_reset (task m)) reward_zero 0;
  is_terminal m := task_is_terminal (task m);
  step action m :=
    let '(reward, terminal, t') := task_step action (task m) in
    (reward, terminal,
     Counted t' (reward_add (reward_sum m) reward) (step_count m + 1));
  total_reward := reward_sum;
  timesteps := step_count;
|}.

End MDPMode.

(** ** Stub collaborators

    Deterministic stand-ins for a game, its agents, an MDP task and a
    learning agent, on which the drivers can be run. *)

Module Stub.

(** A game that counts the moves applied to it: the players alternate, the
    game is over after [limit] moves and seat [winner] is declared the
    winner. *)
Record counting_game := CountingGame { moves : nat }.

Definition counting_Game (players limit : nat) (winner : Z)
    : GameMode.Game nat Z counting_game := {|
  GameMode.NUM_PLAYERS := players;
  GameMode.current_agent_id g := Z.of_nat (moves g `mod` players);
  GameMode.game_reset _ := CountingGame 0;
  GameMode.is_terminal g := bool_decide (limit ≤ moves g)%nat;
  GameMode.game_take_action _ g := CountingGame (S (moves g));
  GameMode.get_winning_id _ := winner;
|}.

(** An agent that keeps the notifications it was given, newest first, and
    answers a search with the number of moves it sees in the snapshot. *)
Record recorder := Recorder {
  seat : Z;
  heard : list (nat * bool);
}.

#[export] Instance recorder_Agent
    : GameMode.Agent nat Z counting_game recorder := {|
  GameMode.agent_id := seat;
  GameMode.agent_reset a := Recorder (seat a) [];
  GameMode.search g _ a := (moves g, a);
  GameMode.agent_take_action action own a :=
    Recorder (seat a) ((action, own) :: heard a);
|}.

(** The game of the scenario: two players, over after three moves, won by
    seat 1; a game that is over as soon as it is reset; and a game that is
    over after one move. *)
Definition three_moves : GameMode.Game nat Z counting_game :=
  counting_Game 2 3 1.
Definition over_at_once : GameMode.Game nat Z counting_game :=
  counting_Game 2 0 1.
Definition one_move : GameMode.Game nat Z counting_game :=
  counting_Game 2 1 0.

(** A game for two players, over after one move, that names the player to
    move by counting from the end: its [current_agent_id] is [-1]. *)
Definition from_the_end : GameMode.Game nat Z counting_game := {|
  GameMode.NUM_PLAYERS := 2;
  GameMode.current_agent_id _ := -1;
  GameMode.game_reset _ := CountingGame 0;
  GameMode.is_terminal g := bool_decide (1 ≤ moves g)%nat;
  GameMode.game_take_action _ g := CountingGame (S (moves g));
  GameMode.get_winning_id _ := 1;
|}.

(** The game is object 0, the agents are objects of their own store, and
    one empty line is left to read on the standard input: the enter key. *)
Definition game_world (agents : list recorder)
    : GameMode.world nat Z Z counting_game recorder :=
  GameMode.World {[ 0%nat := CountingGame 7 ]}
    (list_to_map (zip (seq 0 (length agents)) agents)) [] [] [EmptyString].

(** An MDP task that pays reward [1.0] for every step and is over after
    [limit] steps; its state is the number of steps made. *)
Definition trajectory_Task (limit : nat) : MDPMode.Task nat float nat := {|
  MDPMode.task_reset _ := 0%nat;
  MDPMode.task_is_terminal t := bool_decide (limit ≤ t)%nat;
  MDPMode.task_step _ t := (1%float, bool_decide (limit ≤ S t)%nat, S t);
  MDPMode.reward_zero := 0%float;
  MDPMode.reward_add := PrimFloat.add;
|}.

(** A learning agent that keeps what it was updated with, newest first,
    answers with the number of updates it has had, and has that number as
    its weights. *)
Record learner := Learner { lessons : list (float * nat * bool) }.

#[export] Instance learner_Agent
    : MDPMode.Agent nat float nat (MDPMode.counted float nat) learner := {|
  MDPMode.get_next_action _ a := (length (lessons a), a);
  MDPMode.update _ _ reward action terminal a :=
    Learner ((reward, action, terminal) :: lessons a);
  MDPMode.weights a := length (lessons a);
|}.

Definition five_steps : MDPMode.Task nat float nat := trajectory_Task 5.
Definition no_steps : MDPMode.Task nat float nat := trajectory_Task 0.

(** The MDP is object 0 of its store, left by an earlier trial after nine
    steps, and the agent object 0 of the agents' store; one empty line is
    left to read on the standard input: the enter key. *)
Definition mdp_world
    : MDPMode.world nat float nat (MDPMode.counted float nat) learner :=
  MDPMode.World {[ 0%nat := MDPMode.Counted 3%nat 7%float 9 ]}
    {[ 0%nat := Learner [] ]} [] [] [EmptyString].

(** A game for two players that is never over, and an MDP task that is
    never terminal. *)
Definition endless : GameMode.Game nat Z counting_game := {|
  GameMode.NUM_PLAYERS := 2;
  GameMode.current_agent_id g := Z.of_nat (moves g `mod` 2);
  GameMode.game_reset _ := CountingGame 0;
  GameMode.is_terminal _ := false;
  GameMode.game_take_action _ g := CountingGame (S (moves g));
  GameMode.get_winning_id _ := 0;
|}.

Definition endless_Task : MDPMode.Task nat float nat := {|
  MDPMode.task_reset _ := 0%nat;
  MDPMode.task_is_terminal _ := false;
  MDPMode.task_step _ t := (1%float, false, S t);
  MDPMode.reward_zero := 0%float;
  MDPMode.reward_add := PrimFloat.add;
|}.

End Stub.


(** * Properties *)

(** ** The driver monad *)

Section monad_facts.
Context {S : Type}.

Lemma bind_Returned {X Y} (c : prog S X) (k : X → prog S Y) s y s2 :
  bind c k s = Returned y s2 ↔
  ∃ x s1, c s = Returned x s1 ∧ k x s1 = Returned y s2.
Proof.
  unfold bind. split.
  - destruct (c s) as [x s1| |]; try discriminate. eauto.
  - intros (x & s1 & -> & Hk). exact Hk.
Qed.

Lemma bind_eval {X Y} (c : prog S X) (k : X → prog S Y) s x s1 :
  c s = Returned x s1 → bind c k s = k x s1.
Proof. unfold bind. by intros ->. Qed.

(** A relation between the state before and after that every pass of a
    [for] loop establishes holds across the loop, if it is reflexive and
    transitive. *)
Lemma foreach_Returned {X} (R : relation S) `{!PreOrder R}
    (body : X → prog S unit) xs s s' :
  (∀ x s1 s2, x ∈ xs → body x s1 = Returned tt s2 → R s1 s2) →
  foreach body xs s = Returned tt s' → R s s'.
Proof.
  revert s. induction xs as [|x xs IH]; simpl; intros s Hbody Hrun.
  - injection Hrun as ->. reflexivity.
  - apply bind_Returned in Hrun as ([] & s1 & Hx & Hrest).
    transitivity s1.
    + eapply Hbody; [left|done].
    + apply IH; [|done]. intros y ? ? Hy. apply Hbody. by right.
Qed.

(** A [for] loop returns when every pass returns and keeps an invariant
    that lets the next pass return. *)
Lemma foreach_progress {X} (I : S → Prop) (body : X → prog S unit) xs s :
  I s →
  (∀ x s1, x ∈ xs → I s1 → ∃ s2, body x s1 = Returned tt s2 ∧ I s2) →
  ∃ s', foreach body xs s = Returned tt s' ∧ I s'.
Proof.
  revert s. induction xs as [|x xs IH]; simpl; intros s Hs Hbody.
  - by exists s.
  - destruct (Hbody x s) as (s1 & Hx & Hs1); [left|done|].
    destruct (IH s1) as (s' & Hrest & Hs'); [done| |].
    { intros y ? Hy. apply Hbody. by right. }
    exists s'. split; [|done]. by rewrite (bind_eval _ _ _ _ _ Hx).
Qed.
End monad_facts.

(** ** How a run can end *)

Section monad_ends.
Context {S : Type}.

Lemma bind_Raised {X Y} (c : prog S X) (k : X → prog S Y) s e s' :
  bind c k s = Raised e s' ↔
  c s = Raised e s' ∨ ∃ x s1, c s = Returned x s1 ∧ k x s1 = Raised e s'.
Proof.
  unfold bind. split.
  - destruct (c s) as [x s1|e1 s1|]; naive_solver.
  - intros [->|(x & s1 & -> & Hk)]; done.
Qed.

Lemma bind_Unfinished {X Y} (c : prog S X) (k : X → prog S Y) s :
  c s = Unfinished → bind c k s = Unfinished.
Proof. unfold bind. by intros ->. Qed.

End monad_ends.

Lemma range_nonpositive n : n ≤ 0 → range n = [].
Proof. intros Hn. unfold range. by replace (Z.to_nat n) with 0%nat by lia. Qed.

Lemma range_length n : length (range n) = Z.to_nat n.
Proof. unfold range. by rewrite length_fmap, length_seq. Qed.

Section monad_keeps.
Context {S : Type} (R : relation S) `{!PreOrder R}.

Lemma keeps_ret {X} (x : X) : keeps R (ret x).
Proof. intros s y s' [= _ <-]. reflexivity. Qed.

Lemma keeps_bind_with {X Y} (Q : X → Prop) (c : prog S X)
    (k : X → prog S Y) :
  (∀ s x s1, c s = Returned x s1 → Q x ∧ R s s1) →
  (∀ x, Q x → keeps R (k x)) → keeps R (bind c k).
Proof.
  intros Hc Hk s y s' (x & s1 & Hx & Hy)%bind_Returned.
  destruct (Hc _ _ _ Hx) as [Hq Hr]. transitivity s1; [done|].
  by eapply Hk.
Qed.

Lemma keeps_bind {X Y} (c : prog S X) (k : X → prog S Y) :
  keeps R c → (∀ x, keeps R (k x)) → keeps R (bind c k).
Proof.
  intros Hc Hk. apply (keeps_bind_with (λ _, True)); [|by intros].
  intros s x s1 Hx. split; [done|]. by eapply Hc.
Qed.

Lemma keeps_foreach {X} (body : X → prog S unit) xs :
  (∀ x, x ∈ xs → keeps R (body x)) → keeps R (foreach body xs).
Proof.
  intros Hbody s [] s' Hrun. eapply foreach_Returned; [done| |exact Hrun].
  intros x s1 s2 Hx Hx'. by eapply Hbody.
Qed.
End monad_keeps.

(** ** Subscripts *)

Lemma getitem_elem_of {X} (xs : list X) i x : getitem xs i = Some x → x ∈ xs.
Proof.
  unfold getitem. case_bool_decide; [|done].
  intros Hx. apply list_elem_of_lookup. eauto.
Qed.

Lemma getitem_nonneg {X} (xs : list X) i :
  0 ≤ i → getitem xs i = xs !! Z.to_nat i.
Proof.
  intros Hi. unfold getitem. rewrite (bool_decide_false (i < 0)) by lia.
  case_bool_decide; [done|]. symmetry. apply lookup_ge_None. lia.
Qed.

Lemma getitem_is_Some {X} (xs : list X) i :
  is_Some (getitem xs i) ↔
  - Z.of_nat (length xs) ≤ i < Z.of_nat (length xs).
Proof.
  unfold getitem. case_bool_decide; case_bool_decide;
    rewrite ?lookup_lt_is_Some; try (split; [intros []%is_Some_None|]); lia.
Qed.

Lemma getitem_None {X} (xs : list X) i :
  getitem xs i = None ↔
  Z.of_nat (length xs) ≤ i ∨ i < - Z.of_nat (length xs).
Proof.
  rewrite eq_None_not_Some, getitem_is_Some. lia.
Qed.

(** ** Game mode *)

Section game_facts.
Import GameMode.
Context {Action Time WinId G A : Type}.
Context `{!Game Action WinId G, !Agent Action Time G A}.

Local Abbreviation world := (world Action Time WinId G A).
Implicit Types (s : world) (game agent : loc) (agents : list loc).

(** *** What a completed call has done *)

Lemma fresh_not_in {V} (objs : gmap loc V) l :
  is_Some (objs !! l) → fresh (dom objs) ≠ l ∧ objs !! fresh (dom objs) = None.
Proof.
  intros Hl. split.
  - intros Heq. apply elem_of_dom in Hl. rewrite <- Heq in Hl.
    by apply is_fresh in Hl.
  - apply not_elem_of_dom, is_fresh.
Qed.

Lemma log_Returned lvl template args s s' :
  log lvl template args s = Returned tt s' ↔
  s' = add_output (Log lvl template args) s.
Proof. unfold log. naive_solver. Qed.

Lemma input_Returned prompt s line s' :
  input prompt s = Returned line s' ↔
  (∃ rest, stdin s = line :: rest) ∧
  s' = set_stdin (tail (stdin s)) (add_output (Input prompt) s).
Proof. unfold input. destruct (stdin s); naive_solver. Qed.

Lemma game_attr_Returned {X} game (f : G → X) s x s' :
  game_attr game f s = Returned x s' ↔
  ∃ v, games s !! game = Some v ∧ x = f v ∧ s' = s.
Proof. unfold game_attr. destruct (games s !! game); naive_solver. Qed.

Lemma agent_attr_Returned {X} agent (f : A → X) s x s' :
  agent_attr agent f s = Returned x s' ↔
  ∃ a, agent_objs s !! agent = Some a ∧ x = f a ∧ s' = s.
Proof. unfold agent_attr. destruct (agent_objs s !! agent); naive_solver. Qed.

Lemma call_game_reset_Returned game s s' :
  call_game_reset game s = Returned tt s' ↔
  ∃ v, games s !! game = Some v ∧
    s' = add_call GameReset (set_games (<[game := game_reset v]> (games s)) s).
Proof.
  unfold call_game_reset. destruct (games s !! game); naive_solver.
Qed.

Lemma call_is_terminal_Returned game s x s' :
  call_is_terminal game s = Returned x s' ↔
  ∃ v, games s !! game = Some v ∧ x = is_terminal v ∧
    s' = add_call (IsTerminal x) s.
Proof. unfold call_is_terminal. destruct (games s !! game); naive_solver. Qed.

Lemma call_copy_Returned game s l s' :
  call_copy game s = Returned l s' ↔
  ∃ v, games s !! game = Some v ∧ l = fresh (dom (games s)) ∧
    s' = add_call (Copy l v) (set_games (<[l := v]> (games s)) s).
Proof.
  unfold call_copy, copy_object.
  destruct (games s !! game); naive_solver.
Qed.

Lemma call_game_take_action_Returned game action s s' :
  call_game_take_action game action s = Returned tt s' ↔
  ∃ v, games s !! game = Some v ∧
    s' = add_call (GameTakeAction action)
           (set_games (<[game := game_take_action action v]> (games s)) s).
Proof.
  unfold call_game_take_action. destruct (games s !! game); naive_solver.
Qed.

Lemma call_get_winning_id_Returned game s w s' :
  call_get_winning_id game s = Returned w s' ↔
  ∃ v, games s !! game = Some v ∧ w = get_winning_id v ∧
    s' = add_call (GetWinningId w) s.
Proof.
  unfold call_get_winning_id. destruct (games s !! game); naive_solver.
Qed.

Lemma call_agent_reset_Returned agent s s' :
  call_agent_reset agent s = Returned tt s' ↔
  ∃ a, agent_objs s !! agent = Some a ∧
    s' = add_call (AgentReset agent)
           (set_agent_objs (<[agent := agent_reset a]> (agent_objs s)) s).
Proof.
  unfold call_agent_reset. destruct (agent_objs s !! agent); naive_solver.
Qed.

Lemma call_search_Returned agent snap time_allowed s action s' :
  call_search agent snap time_allowed s = Returned action s' ↔
  ∃ a v, agent_objs s !! agent = Some a ∧ games s !! snap = Some v ∧
    action = (search v time_allowed a).1 ∧
    s' = add_call (Search agent snap v time_allowed action)
           (set_agent_objs
              (<[agent := (search v time_allowed a).2]> (agent_objs s)) s).
Proof.
  unfold call_search.
  destruct (agent_objs s !! agent) as [a|]; [|naive_solver].
  destruct (games s !! snap) as [v|]; [|naive_solver].
  destruct (search v time_allowed a) as [act a'] eqn:Hs.
  split.
  - intros [= <- <-]. exists a, v. by rewrite Hs.
  - intros (? & ? & [= <-] & [= <-] & -> & ->). by rewrite Hs.
Qed.

Lemma call_agent_take_action_Returned agent action own s s' :
  call_agent_take_action agent action own s = Returned tt s' ↔
  ∃ a, agent_objs s !! agent = Some a ∧
    s' = add_call (AgentTakeAction agent action own)
           (set_agent_objs
              (<[agent := agent_take_action action own a]> (agent_objs s)) s).
Proof.
  unfold call_agent_take_action.
  destruct (agent_objs s !! agent); naive_solver.
Qed.

Lemma subscript_Returned agents i s agent s' :
  subscript agents i s = Returned agent s' ↔
  getitem agents i = Some agent ∧ s' = s.
Proof.
  unfold subscript. destruct (getitem agents i); unfold ret, raise;
    naive_solver.
Qed.

Ltac inv_run H :=
  cbv beta in H;
  lazymatch type of H with
  | bind _ _ _ = Returned _ _ =>
      let x := fresh "x" in
      let s := fresh "s" in
      let H1 := fresh "Hrun" in
      let H2 := fresh "Hrun" in
      apply bind_Returned in H as (x & s & H1 & H2);
      lazymatch type of x with unit => destruct x | _ => idtac end;
      inv_run H1; inv_run H2
  | ret _ _ = Returned _ _ => unfold ret in H; simplify_eq
  | log _ _ _ _ = Returned _ _ => apply log_Returned in H; subst
  | input _ _ = Returned _ _ =>
      apply input_Returned in H as [[? ?] ?]; subst
  | game_attr _ _ _ = Returned _ _ =>
      apply game_attr_Returned in H as (? & ? & ? & ?); subst
  | agent_attr _ _ _ = Returned _ _ =>
      apply agent_attr_Returned in H as (? & ? & ? & ?); subst
  | call_game_reset _ _ = Returned _ _ =>
      apply call_game_reset_Returned in H as (? & ? & ?); subst
  | call_is_terminal _ _ = Returned _ _ =>
      apply call_is_terminal_Returned in H as (? & ? & ? & ?); subst
  | call_copy _ _ = Returned _ _ =>
      apply call_copy_Returned in H as (? & ? & ? & ?); subst
  | call_game_take_action _ _ _ = Returned _ _ =>
      apply call_game_take_action_Returned in H as (? & ? & ?); subst
  | call_get_winning_id _ _ = Returned _ _ =>
      apply call_get_winning_id_Returned in H as (? & ? & ? & ?); subst
  | call_agent_reset _ _ = Returned _ _ =>
      apply call_agent_reset_Returned in H as (? & ? & ?); subst
  | call_search _ _ _ _ = Returned _ _ =>
      apply call_search_Returned in H as (? & ? & ? & ? & ? & ?); subst
  | call_agent_take_action _ _ _ _ = Returned _ _ =>
      apply call_agent_take_action_Returned in H as (? & ? & ?); subst
  | subscript _ _ _ = Returned _ _ =>
      apply subscript_Returned in H as (? & ?); subst
  | _ => idtac
  end.

(** *** The notification loop of [_advance_by_action] *)

Lemma id_of_insert s agent a a' agent' :
  agent_objs s !! agent = Some a → agent_id a' = agent_id a →
  agent_id <$> <[agent := a']> (agent_objs s) !! agent' = id_of s agent'.
Proof.
  intros Ha Hid. unfold id_of.
  destruct (decide (agent = agent')) as [<-|Hne].
  - rewrite lookup_insert_eq, Ha. simpl. by rewrite Hid.
  - by rewrite lookup_insert_ne.
Qed.

Lemma notify_Returned action c agents s s' :
  foreach (λ agent,
    aid <- agent_attr agent agent_id ;;
    call_agent_take_action agent action (bool_decide (aid = c))) agents s
  = Returned tt s' →
  games s' = games s ∧ outputs s' = outputs s ∧
  dom (agent_objs s') = dom (agent_objs s) ∧
  (∀ agent, agent ∈ agents → is_Some (agent_objs s !! agent)) ∧
  ∃ flags, length flags = length agents ∧
    calls s' = calls s ++
      zip_with (λ agent own, AgentTakeAction agent action own) agents flags ∧
    (StableId →
       (∀ agent, id_of s' agent = id_of s agent) ∧
       flags = own_flag (id_of s) c <$> agents).
Proof.
  revert s. induction agents as [|agent agents IH]; simpl; intros s Hrun.
  - inv_run Hrun. repeat split; [by intros ? ?%elem_of_nil|].
    exists []. by rewrite app_nil_r.
  - inv_run Hrun. simplify_eq.
    lazymatch goal with
    | Ha : agent_objs s !! agent = Some ?x, Hrest : foreach _ _ ?s1 = _ |- _ =>
        set (s_mid := s1) in *;
        apply IH in Hrest as (Hg & Ho & Hd & Hin & flags & Hlen & Hc & Hst);
        rename x into a, Ha into Hagent
    end.
    assert (∀ agent', agent_objs s_mid !! agent' =
      <[agent := agent_take_action action (bool_decide (agent_id a = c)) a]>
        (agent_objs s) !! agent') as Hmid by done.
    simpl in Hg, Ho, Hd, Hc. split_and!; [done|done| | |].
    + rewrite Hd, dom_insert_L. apply elem_of_dom_2 in Hagent. set_solver.
    + intros agent' [->|Hin']%elem_of_cons; [by eexists|].
      destruct (Hin _ Hin') as [a' Ha']. rewrite Hmid in Ha'.
      destruct (decide (agent = agent')) as [<-|Hne]; [by eexists|].
      by rewrite lookup_insert_ne in Ha'.
    + exists (bool_decide (agent_id a = c) :: flags). simpl.
      split; [by rewrite Hlen|]. split; [by rewrite Hc, <- app_assoc|].
      intros Hstable. destruct (Hst Hstable) as [Hid ->].
      assert (∀ agent', id_of s_mid agent' = id_of s agent') as Hpre.
      { intros agent'. unfold id_of at 1. rewrite Hmid.
        apply (id_of_insert s agent a); [done|apply take_action_id]. }
      split; [intros agent'; by rewrite Hid, Hpre|].
      f_equal.
      * unfold own_flag, id_of. rewrite Hagent. simpl.
        apply bool_decide_ext. naive_solver.
      * apply list_fmap_ext. intros _ agent' _. unfold own_flag.
        by rewrite Hpre.
Qed.

Lemma notify_progress action c agents s :
  (∀ agent, agent ∈ agents → is_Some (agent_objs s !! agent)) →
  ∃ s', foreach (λ agent,
    aid <- agent_attr agent agent_id ;;
    call_agent_take_action agent action (bool_decide (aid = c))) agents s
  = Returned tt s'.
Proof.
  intros Hin.
  match goal with |- ∃ s', @?run s' => cut (∃ s', run s' ∧
    ∀ agent, agent ∈ agents → is_Some (agent_objs s' !! agent)) end;
    [naive_solver|].
  apply (foreach_progress
    (λ s1 : world, ∀ agent, agent ∈ agents → is_Some (agent_objs s1 !! agent)));
    [exact Hin|].
  intros agent s1 Hagent Hs1. destruct (Hs1 _ Hagent) as [a Ha].
  eexists. split.
  - apply bind_Returned. eexists _, _. split.
    + apply agent_attr_Returned. eauto.
    + apply call_agent_take_action_Returned. eauto.
  - simpl. intros agent' Hagent'.
    destruct (decide (agent = agent')) as [<-|Hne].
    + rewrite lookup_insert_eq. by eexists.
    + rewrite lookup_insert_ne by done. by apply Hs1.
Qed.

(** *** The reset loop of [_run_game] *)

Lemma winners_app (os1 os2 : list (output Action WinId G A)) :
  winners (os1 ++ os2) = winners os1 ++ winners os2.
Proof. apply omap_app. Qed.

Lemma reset_agents_Returned agents s s' :
  foreach (λ agent,
    call_agent_reset agent ;;;
    a <- agent_attr agent id ;;
    log DEBUG "Agent {} start {}" [AInt (agent_id a); AAgent a]) agents s
  = Returned tt s' →
  games s' = games s ∧ winners (outputs s') = winners (outputs s) ∧
  dom (agent_objs s') = dom (agent_objs s) ∧
  (∀ agent, agent ∈ agents → is_Some (agent_objs s !! agent)) ∧
  calls s' = calls s ++ (AgentReset <$> agents) ∧
  (StableId → ∀ agent, id_of s' agent = id_of s agent).
Proof.
  revert s. induction agents as [|agent agents IH]; simpl; intros s Hrun.
  - inv_run Hrun. repeat split; [by intros ? ?%elem_of_nil|].
    by rewrite app_nil_r.
  - inv_run Hrun. simplify_eq.
    lazymatch goal with
    | Ha : agent_objs s !! agent = Some ?x, Hrest : foreach _ _ ?s1 = _ |- _ =>
        set (s_mid := s1) in *;
        apply IH in Hrest as (Hg & Ho & Hd & Hin & Hc & Hst);
        rename x into a, Ha into Hagent
    end.
    assert (∀ agent', agent_objs s_mid !! agent' =
      <[agent := agent_reset a]> (agent_objs s) !! agent') as Hmid by done.
    simpl in Hg, Ho, Hd, Hc. split_and!; [done| | | | |].
    + rewrite Ho, winners_app. simpl. by rewrite app_nil_r.
    + rewrite Hd, dom_insert_L. apply elem_of_dom_2 in Hagent. set_solver.
    + intros agent' [->|Hin']%elem_of_cons; [by eexists|].
      destruct (Hin _ Hin') as [a' Ha']. rewrite Hmid in Ha'.
      destruct (decide (agent = agent')) as [<-|Hne]; [by eexists|].
      by rewrite lookup_insert_ne in Ha'.
    + by rewrite Hc, <- app_assoc.
    + intros Hstable agent'. rewrite (Hst Hstable).
      unfold id_of at 1. rewrite Hmid.
      apply (id_of_insert s agent a); [done|apply reset_id].
Qed.

Lemma reset_agents_progress agents s :
  (∀ agent, agent ∈ agents → is_Some (agent_objs s !! agent)) →
  ∃ s', foreach (λ agent,
    call_agent_reset agent ;;;
    a <- agent_attr agent id ;;
    log DEBUG "Agent {} start {}" [AInt (agent_id a); AAgent a]) agents s
  = Returned tt s'.
Proof.
  intros Hin.
  match goal with |- ∃ s', @?run s' => cut (∃ s', run s' ∧
    ∀ agent, agent ∈ agents → is_Some (agent_objs s' !! agent)) end;
    [naive_solver|].
  apply (foreach_progress
    (λ s1 : world, ∀ agent, agent ∈ agents → is_Some (agent_objs s1 !! agent)));
    [exact Hin|].
  intros agent s1 Hagent Hs1. destruct (Hs1 _ Hagent) as [a Ha].
  eexists. split.
  - apply bind_Returned. eexists tt, _. split.
    + apply call_agent_reset_Returned. eauto.
    + apply bind_Returned. eexists _, _. split.
      * apply agent_attr_Returned. eexists. split; [|done].
        simpl. apply lookup_insert_eq.
      * by apply log_Returned.
  - simpl. intros agent' Hagent'.
    destruct (decide (agent = agent')) as [<-|Hne].
    + rewrite lookup_insert_eq. by eexists.
    + rewrite lookup_insert_ne by done. by apply Hs1.
Qed.

(** *** One turn *)

Lemma game_turn_Returned game agents time_allowed s s' :
  game_turn game agents time_allowed s = Returned tt s' →
  ∃ tn,
    games s !! game = Some (before tn) ∧
    getitem agents (current_agent_id (before tn)) = Some (acting tn) ∧
    snapshot tn = fresh (dom (games s)) ∧
    length (flags tn) = length agents ∧
    (∃ a, agent_objs s !! acting tn = Some a ∧
       action tn = (search (before tn) time_allowed a).1) ∧
    calls s' = calls s ++ turn_calls agents time_allowed tn ∧
    games s' = <[game := game_take_action (action tn) (before tn)]>
                 (<[snapshot tn := before tn]> (games s)) ∧
    winners (outputs s') = winners (outputs s) ∧
    dom (agent_objs s') = dom (agent_objs s) ∧
    (∀ agent, agent ∈ agents → is_Some (agent_objs s !! agent)) ∧
    (StableId →
       (∀ agent, id_of s' agent = id_of s agent) ∧
       flags tn = own_flag (id_of s) (current_agent_id (before tn)) <$> agents).
Proof.
  unfold game_turn, _advance_by_action. intros Hrun. inv_run Hrun.
  lazymatch goal with
  | Hn : foreach _ _ _ = _ |- _ =>
      apply notify_Returned in Hn as (Hg & Ho & Hd & Hin & flags & Hlen & Hc & Hst)
  end.
  unfold id_of in Hst.
  unfold add_call, add_output, set_games, set_agent_objs in *; simpl in *.
  destruct (fresh_not_in (games s) game) as [Hne Hnone]; [by eexists|].
  repeat match goal with
  | H : context [<[fresh _ := _]> _ !! fresh _] |- _ =>
      rewrite lookup_insert_eq in H
  | H : context [<[fresh _ := _]> _ !! game] |- _ =>
      rewrite lookup_insert_ne in H by done
  | H : context [<[?p := _]> _ !! ?p] |- _ => rewrite lookup_insert_eq in H
  end.
  simplify_eq.
  lazymatch goal with
  | Hv : games s !! game = Some ?v, Hp : getitem agents _ = Some ?p,
    Ha : agent_objs s !! ?p = Some ?a |- _ =>
      exists (Turn v p (fresh (dom (games s))) (search v time_allowed a).1 flags);
      rename v into v0, p into p0, a into a0
  end.
  simpl. split_and!; try done.
  - by exists a0.
  - rewrite Hc. unfold turn_calls. simpl. by rewrite <- !app_assoc.
  - rewrite Ho, !winners_app. simpl. by rewrite !app_nil_r.
  - rewrite Hd, dom_insert_L.
    assert (p0 ∈ dom (agent_objs s)) by by eapply elem_of_dom_2. set_solver.
  - intros agent Hagent. destruct (Hin _ Hagent) as [a' Ha'].
    destruct (decide (p0 = agent)) as [<-|Hnp]; [by eexists|].
    by rewrite lookup_insert_ne in Ha'.
  - intros Hstable. destruct (Hst Hstable) as [Hid ->].
    assert (∀ agent, agent_id <$>
      <[p0 := (search v0 time_allowed a0).2]> (agent_objs s) !! agent
      = id_of s agent) as Hpre.
    { intros agent. apply (id_of_insert s p0 a0); [done|apply search_id]. }
    split.
    + intros agent. unfold id_of at 1. by rewrite Hid, Hpre.
    + apply list_fmap_ext. intros _ agent _. unfold own_flag.
      by rewrite Hpre.
Qed.

Lemma game_turn_progress game agents time_allowed s v p :
  games s !! game = Some v →
  getitem agents (current_agent_id v) = Some p →
  (∀ agent, agent ∈ agents → is_Some (agent_objs s !! agent)) →
  ∃ s', game_turn game agents time_allowed s = Returned tt s'.
Proof.
  intros Hv Hp Hin.
  destruct (Hin p) as [a Ha]; [by eapply getitem_elem_of|].
  destruct (fresh_not_in (games s) game) as [Hne _]; [by eexists|].
  unfold game_turn, _advance_by_action.
  erewrite bind_eval by (apply game_attr_Returned; eauto).
  erewrite bind_eval by (by apply subscript_Returned).
  erewrite bind_eval by (apply call_copy_Returned; eauto).
  erewrite bind_eval.
  2:{ apply call_search_Returned. eexists a, v. split_and!; try done.
      simpl. apply lookup_insert_eq. }
  erewrite bind_eval.
  2:{ apply agent_attr_Returned. eexists. split_and!; try done.
      simpl. apply lookup_insert_eq. }
  erewrite bind_eval by (by apply log_Returned).
  erewrite bind_eval.
  2:{ apply game_attr_Returned. exists v. split_and!; try done.
      simpl. by rewrite lookup_insert_ne. }
  erewrite bind_eval by (by apply log_Returned).
  erewrite bind_eval.
  2:{ apply game_attr_Returned. exists v. split_and!; try done.
      simpl. by rewrite lookup_insert_ne. }
  erewrite bind_eval.
  2:{ apply call_game_take_action_Returned. exists v. split_and!; try done.
      simpl. by rewrite lookup_insert_ne. }
  apply notify_progress. simpl. intros agent Hagent.
  destruct (decide (p = agent)) as [<-|Hnp].
  - rewrite lookup_insert_eq. by eexists.
  - rewrite lookup_insert_ne by done. by apply Hin.
Qed.

(** *** The loop of [_run_game] *)

Lemma game_loop_Returned fuel game agents time_allowed s s' :
  game_loop fuel game agents time_allowed s = Returned tt s' →
  ∃ v turns,
    games s !! game = Some v ∧
    plays v turns ∧
    games s' !! game = Some (outcome_of v turns) ∧
    is_terminal (outcome_of v turns) = true ∧
    Forall (turn_ok agents) turns ∧
    calls s' = calls s ++
      flat_map (λ tn, IsTerminal false :: turn_calls agents time_allowed tn)
        turns ++ [IsTerminal true] ∧
    winners (outputs s') = winners (outputs s) ∧
    dom (agent_objs s') = dom (agent_objs s) ∧
    (StableId →
       (∀ agent, id_of s' agent = id_of s agent) ∧
       Forall (flags_by_id (id_of s) agents) turns).
Proof.
  revert s. induction fuel as [|fuel IH]; simpl; intros s Hrun; [done|].
  inv_run Hrun.
  lazymatch goal with
  | Hv : games s !! game = Some ?v0 |- _ => rename v0 into v
  end.
  destruct (is_terminal v) eqn:Hterm.
  - inv_run Hrun1. exists v, []. simpl. by split_and!.
  - inv_run Hrun1.
    lazymatch goal with
    | Ht : game_turn _ _ _ _ = _, Hl : game_loop _ _ _ _ _ = _ |- _ =>
        apply game_turn_Returned in Ht
          as (tn & Hb & Hact & Hsnap & Hlen & _ & Hc & Hg & Ho & Hd & _ & Hst);
        apply IH in Hl
          as (v1 & turns & Hv1 & Hplays & Hg' & Hterm' & Hok & Hc' & Ho' & Hd'
              & Hst')
    end.
    change (id_of (add_call (IsTerminal false) s)) with (id_of s) in Hst.
    simpl in Hb, Hsnap, Hc, Hg, Ho, Hd.
    rewrite Hg, lookup_insert_eq in Hv1.
    simplify_eq. exists (before tn), (tn :: turns). simpl.
    split_and!; try done.
    + by constructor.
    + rewrite Hc', Hc. by rewrite <- !app_assoc.
    + congruence.
    + congruence.
    + intros Hstable. destruct (Hst Hstable) as [Hid Hflags].
      destruct (Hst' Hstable) as [Hid' Hflags'].
      split; [intros agent; by rewrite Hid', Hid|].
      constructor; [done|].
      eapply Forall_impl; [exact Hflags'|]. intros tn'. unfold flags_by_id.
      intros ->. apply list_fmap_ext. intros _ agent _. unfold own_flag.
      by rewrite Hid.
Qed.

Lemma present_dom (objs objs' : gmap loc A) agents :
  dom objs' = dom objs →
  (∀ agent, agent ∈ agents → is_Some (objs !! agent)) →
  ∀ agent, agent ∈ agents → is_Some (objs' !! agent).
Proof.
  intros Hd Hin agent Hagent. apply elem_of_dom. rewrite Hd.
  apply elem_of_dom. by apply Hin.
Qed.

(** The loop returns when the game comes closer to its end with every
    action and always names an agent of the list: [remaining] bounds the
    number of turns left. *)
Lemma game_loop_progress (remaining : G → nat) game agents time_allowed :
  (∀ v action, is_terminal v = false →
     (remaining (game_take_action action v) < remaining v)%nat) →
  (∀ v, is_terminal v = false →
     is_Some (getitem agents (current_agent_id v))) →
  ∀ fuel s v,
    games s !! game = Some v →
    (∀ agent, agent ∈ agents → is_Some (agent_objs s !! agent)) →
    (remaining v < fuel)%nat →
    ∃ s', game_loop fuel game agents time_allowed s = Returned tt s'.
Proof.
  intros Hdecr Hseat. induction fuel as [|fuel IH]; intros s v Hv Hin Hfuel;
    [lia|].
  simpl. erewrite bind_eval by (apply call_is_terminal_Returned; eauto).
  destruct (is_terminal v) eqn:Hterm; [by eexists|].
  destruct (Hseat v Hterm) as [p Hp].
  destruct (game_turn_progress game agents time_allowed
    (add_call (IsTerminal false) s) v p) as [s1 Hs1]; [done..|].
  erewrite bind_eval by exact Hs1.
  apply game_turn_Returned in Hs1
    as (tn & Hb & _ & _ & _ & _ & _ & Hg & _ & Hd & _ & _).
  simpl in Hb, Hd. simplify_eq.
  apply (IH s1 (game_take_action (action tn) (before tn))).
  - rewrite Hg. apply lookup_insert_eq.
  - by eapply present_dom.
  - specialize (Hdecr (before tn) (action tn) Hterm). lia.
Qed.

(** *** One episode *)

Lemma run_game_Returned fuel game agents time_allowed s s' :
  _run_game fuel game agents time_allowed s = Returned tt s' →
  ∃ v0 turns,
    games s !! game = Some v0 ∧
    plays (game_reset v0) turns ∧
    games s' !! game = Some (outcome_of (game_reset v0) turns) ∧
    is_terminal (outcome_of (game_reset v0) turns) = true ∧
    Forall (turn_ok agents) turns ∧
    calls s' = calls s ++
      episode_calls agents time_allowed turns
        (get_winning_id (outcome_of (game_reset v0) turns)) ∧
    winners (outputs s') =
      winners (outputs s) ++ [get_winning_id (outcome_of (game_reset v0) turns)] ∧
    dom (agent_objs s') = dom (agent_objs s) ∧
    (∀ agent, agent ∈ agents → is_Some (agent_objs s !! agent)) ∧
    (StableId →
       (∀ agent, id_of s' agent = id_of s agent) ∧
       Forall (flags_by_id (id_of s) agents) turns).
Proof.
  unfold _run_game. intros Hrun. inv_run Hrun.
  lazymatch goal with
  | Hr : foreach _ _ _ = _, Hl : game_loop _ _ _ _ _ = _ |- _ =>
      apply reset_agents_Returned in Hr as (Hg & Ho & Hd & Hin & Hc & Hst);
      apply game_loop_Returned in Hl
        as (v1 & turns & Hv1 & Hplays & Hg' & Hterm & Hok & Hc' & Ho' & Hd'
            & Hst')
  end.
  lazymatch goal with
  | Hv : games s !! game = Some ?v |- _ => rename v into v0
  end.
  lazymatch type of Hst with
  | _ → ∀ agent, _ = id_of ?s1 agent => change (id_of s1) with (id_of s) in Hst
  end.
  simpl in Hg, Ho, Hd, Hin, Hc.
  rewrite Hg, lookup_insert_eq in Hv1. simpl in *. simplify_eq.
  exists v0, turns. split_and!; try done.
  - rewrite Hc', Hc. unfold episode_calls. by rewrite <- !app_assoc.
  - rewrite !winners_app, Ho', Ho. simpl. by rewrite app_nil_r.
  - congruence.
  - intros Hstable. destruct (Hst' Hstable) as [Hid' Hflags'].
    specialize (Hst Hstable).
    split; [intros agent; by rewrite <- Hst, <- Hid'|].
    eapply Forall_impl; [exact Hflags'|]. intros tn'. unfold flags_by_id.
    intros ->. apply list_fmap_ext. intros _ agent _. unfold own_flag.
    by rewrite Hst.
Qed.

Lemma run_game_progress_from_loop fuel game agents time_allowed s v0 :
  games s !! game = Some v0 →
  (∀ agent, agent ∈ agents → is_Some (agent_objs s !! agent)) →
  (∀ s1, games s1 !! game = Some (game_reset v0) →
     (∀ agent, agent ∈ agents → is_Some (agent_objs s1 !! agent)) →
     ∃ s2, game_loop fuel game agents time_allowed s1 = Returned tt s2) →
  ∃ s', _run_game fuel game agents time_allowed s = Returned tt s'.
Proof.
  intros Hv Hin Hloop. unfold _run_game.
  erewrite bind_eval by (apply call_game_reset_Returned; eauto).
  edestruct (reset_agents_progress agents) as [s1 Hs1]; last first.
  { erewrite bind_eval by exact Hs1.
    apply reset_agents_Returned in Hs1 as (Hg & _ & Hd & Hin1 & _ & _).
    simpl in Hg, Hd, Hin1.
    destruct (Hloop s1) as [s2 Hs2].
    { rewrite Hg. apply lookup_insert_eq. }
    { by eapply present_dom. }
    erewrite bind_eval by exact Hs2.
    apply game_loop_Returned in Hs2 as (v & turns & _ & _ & Hg2 & _).
    erewrite bind_eval by (apply call_get_winning_id_Returned; eauto).
    erewrite bind_eval by (by apply log_Returned).
    erewrite bind_eval by (apply game_attr_Returned; eauto).
    eexists. by apply log_Returned. }
  simpl. exact Hin.
Qed.

Lemma run_game_progress (remaining : G → nat) fuel game agents time_allowed
    s v0 :
  (∀ v action, is_terminal v = false →
     (remaining (game_take_action action v) < remaining v)%nat) →
  (∀ v, is_terminal v = false →
     is_Some (getitem agents (current_agent_id v))) →
  games s !! game = Some v0 →
  (∀ agent, agent ∈ agents → is_Some (agent_objs s !! agent)) →
  (remaining (game_reset v0) < fuel)%nat →
  ∃ s', _run_game fuel game agents time_allowed s = Returned tt s'.
Proof.
  intros Hdecr Hseat Hv Hin Hfuel.
  eapply run_game_progress_from_loop; [done..|].
  intros s1 Hv1 Hin1. by eapply game_loop_progress.
Qed.

(** *** Snapshots stay as they were made *)

Lemma frozen_step game s s' new :
  calls s' = calls s ++ new →
  (∀ l v, l ≠ game → games s !! l = Some v → games s' !! l = Some v) →
  (∀ l v, Copy l v ∈ new → l ≠ game ∧ games s' !! l = Some v) →
  frozen game s → frozen game s'.
Proof.
  intros Hc Hkeep Hnew Hfrozen l v. rewrite Hc.
  intros [Hold|Hin]%elem_of_app; [|by apply Hnew].
  destruct (Hfrozen _ _ Hold). split; [done|]. by apply Hkeep.
Qed.

Lemma game_turn_frozen game agents time_allowed s s' :
  game_turn game agents time_allowed s = Returned tt s' →
  frozen game s → frozen game s'.
Proof.
  intros (tn & Hb & _ & Hsnap & _ & _ & Hc & Hg & _)%game_turn_Returned.
  destruct (fresh_not_in (games s) game) as [Hne Hnone]; [by eexists|].
  rewrite <- Hsnap in Hne, Hnone.
  apply (frozen_step _ _ _ _ Hc).
  - intros l v Hl Hv. rewrite Hg, lookup_insert_ne by done.
    rewrite lookup_insert_ne; [done|]. intros <-. congruence.
  - unfold turn_calls. intros l v [Hin|Hin]%elem_of_app.
    + repeat (apply elem_of_cons in Hin as [Hin|Hin]; [simplify_eq|]).
      * rewrite Hg, lookup_insert_ne by done. split; [done|].
        apply lookup_insert_eq.
      * by apply elem_of_nil in Hin.
    + apply elem_of_lookup_zip_with in Hin as (? & ? & ? & ? & _). done.
Qed.

Lemma game_loop_frozen fuel game agents time_allowed s s' :
  game_loop fuel game agents time_allowed s = Returned tt s' →
  frozen game s → frozen game s'.
Proof.
  revert s. induction fuel as [|fuel IH]; simpl; intros s Hrun Hfrozen;
    [done|].
  inv_run Hrun.
  lazymatch type of Hrun1 with
  | (if ?b then _ else _) _ = _ => destruct b
  end; inv_run Hrun1.
  - apply (frozen_step game s _ [IsTerminal true]); try done.
    intros l v [?|?%elem_of_nil]%elem_of_cons; done.
  - eapply IH; [done|]. eapply game_turn_frozen; [done|].
    apply (frozen_step game s _ [IsTerminal false]); try done.
    intros l v [?|?%elem_of_nil]%elem_of_cons; done.
Qed.

Lemma run_game_frozen fuel game agents time_allowed s s' :
  _run_game fuel game agents time_allowed s = Returned tt s' →
  frozen game s → frozen game s'.
Proof.
  unfold _run_game. intros Hrun Hfrozen. inv_run Hrun.
  lazymatch goal with
  | Hr : foreach _ _ ?s1 = Returned _ ?s2,
    Hl : game_loop _ _ _ _ _ = Returned _ ?s3 |- _ =>
      apply reset_agents_Returned in Hr as (Hg & _ & _ & _ & Hc & _);
      apply game_loop_frozen in Hl;
      [eapply (frozen_step game s3 _ [GetWinningId _]); try done|
       apply (frozen_step game s1 _ (AgentReset <$> agents)); try done;
       [congruence| |
        apply (frozen_step game s _ [GameReset]); try done]]
  end.
  - intros l v [?|?%elem_of_nil]%elem_of_cons; done.
  - by intros l v (? & ? & _)%list_elem_of_fmap.
  - intros l v Hl Hv. simpl. by rewrite lookup_insert_ne.
  - intros l v [?|?%elem_of_nil]%elem_of_cons; done.
Qed.

Local Instance frozen_preserved_preorder game :
  PreOrder (λ s1 s2 : world, frozen game s1 → frozen game s2).
Proof.
  split; [by intros ?|]. intros s1 s2 s3 H12 H23 ?. by apply H23, H12.
Qed.

Lemma run_games_frozen fuel game agents time_allowed num_games s s' :
  run_games fuel game agents time_allowed num_games s = Returned tt s' →
  frozen game s → frozen game s'.
Proof.
  unfold run_games. case_bool_decide; [done|]. intros Hrun. inv_run Hrun.
  lazymatch goal with
  | Hr : foreach _ _ _ = Returned _ ?s0 |- _ =>
      assert (frozen game s → frozen game s0) as Hkeep;
      [eapply (foreach_Returned
         (λ s1 s2 : world, frozen game s1 → frozen game s2)); [|exact Hr]|]
  end.
  - intros i s1 s2 _ Hbody Hfrozen. inv_run Hbody.
    by eapply run_game_frozen.
  - intros Hfrozen. exact (Hkeep Hfrozen).
Qed.

(** *** Reading the calls of an episode *)

Local Abbreviation call := (GameMode.call Action Time WinId G).
Local Abbreviation turn := (GameMode.turn (Action := Action) (G := G)).
Local Abbreviation turn_calls := (GameMode.turn_calls (WinId := WinId)).
Implicit Types (time_allowed : Time) (tn : turn) (turns : list turn).
Implicit Types (w : WinId).

Lemma transitions_app (cs1 cs2 : list call) :
  transitions (cs1 ++ cs2) = transitions cs1 ++ transitions cs2.
Proof. apply omap_app. Qed.

Lemma searches_app (cs1 cs2 : list call) :
  searches (cs1 ++ cs2) = searches cs1 ++ searches cs2.
Proof. apply omap_app. Qed.

Lemma notifications_app agent (cs1 cs2 : list call) :
  notifications agent (cs1 ++ cs2) =
  notifications agent cs1 ++ notifications agent cs2.
Proof. apply omap_app. Qed.

Lemma transitions_notify (action : Action) agents flags :
  transitions (Time := Time) (WinId := WinId) (G := G)
    (zip_with (λ agent own, AgentTakeAction agent action own) agents flags)
  = [].
Proof.
  revert flags. induction agents as [|agent agents IH]; intros [|own flags];
    simpl; auto.
Qed.

Lemma searches_notify (action : Action) agents flags :
  searches (Time := Time) (WinId := WinId) (G := G)
    (zip_with (λ agent own, AgentTakeAction agent action own) agents flags)
  = [].
Proof.
  revert flags. induction agents as [|agent agents IH]; intros [|own flags];
    simpl; auto.
Qed.

Lemma notifications_resets agent agents :
  notifications (Action := Action) (Time := Time) (WinId := WinId) (G := G)
    agent (AgentReset <$> agents) = [].
Proof. induction agents; simpl; auto. Qed.

Lemma transitions_resets agents :
  transitions (Action := Action) (Time := Time) (WinId := WinId) (G := G)
    (AgentReset <$> agents) = [].
Proof. induction agents; simpl; auto. Qed.

Lemma searches_resets agents :
  searches (Action := Action) (Time := Time) (WinId := WinId) (G := G)
    (AgentReset <$> agents) = [].
Proof. induction agents; simpl; auto. Qed.

Lemma notifications_absent (action : Action) agent agents flags :
  agent ∉ agents →
  notifications (Time := Time) (WinId := WinId) (G := G) agent
    (zip_with (λ agent' own, AgentTakeAction agent' action own) agents flags)
  = [].
Proof.
  revert flags. induction agents as [|agent' agents IH]; intros [|own flags];
    simpl; auto.
  intros Hnotin. apply not_elem_of_cons in Hnotin as [Hne Hnotin].
  unfold notifications in *. simpl. rewrite decide_False by done. by apply IH.
Qed.

(** In one turn an agent that occurs once in the list is notified once,
    with the flag at its position. *)
Lemma notifications_present (action : Action) agent agents flags i own :
  NoDup agents → agents !! i = Some agent → flags !! i = Some own →
  notifications (Time := Time) (WinId := WinId) (G := G) agent
    (zip_with (λ agent' own, AgentTakeAction agent' action own) agents flags)
  = [(action, own)].
Proof.
  revert flags i.
  induction agents as [|agent' agents IH]; intros [|own' flags] i;
    intros Hnodup Hi Hown; try done.
  apply NoDup_cons in Hnodup as [Hnotin Hnodup].
  destruct i as [|i]; simpl in Hi, Hown; simplify_eq.
  - unfold notifications. simpl. rewrite decide_True by done.
    f_equal. by apply notifications_absent.
  - assert (agent' ≠ agent).
    { intros ->. apply Hnotin. apply list_elem_of_lookup. eauto. }
    unfold notifications in *. simpl. rewrite decide_False by done.
    by eapply IH.
Qed.

Lemma transitions_turns agents time_allowed (turns : list turn) :
  transitions
    (flat_map (λ tn, IsTerminal false :: turn_calls agents time_allowed tn)
       turns)
  = action <$> turns.
Proof.
  induction turns as [|tn turns IH]; [done|]. simpl.
  unfold transitions in *. simpl. f_equal.
  rewrite omap_app. fold (transitions
    (zip_with (λ agent own, AgentTakeAction (Time := Time) (WinId := WinId)
       (G := G) agent (action tn) own) agents (flags tn))).
  by rewrite transitions_notify.
Qed.

Lemma searches_turns agents time_allowed (turns : list turn) :
  searches
    (flat_map (λ tn, IsTerminal false :: turn_calls agents time_allowed tn)
       turns)
  = (λ tn, (acting tn, action tn)) <$> turns.
Proof.
  induction turns as [|tn turns IH]; [done|]. simpl.
  unfold searches in *. simpl. f_equal.
  rewrite omap_app. fold (searches
    (zip_with (λ agent own, AgentTakeAction (Time := Time) (WinId := WinId)
       (G := G) agent (action tn) own) agents (flags tn))).
  by rewrite searches_notify.
Qed.

Lemma notifications_turns agent agents time_allowed (turns : list turn)
    (own : turn → bool) :
  Forall (λ tn,
    notifications agent
      (zip_with (λ agent' own, AgentTakeAction (Time := Time) (WinId := WinId)
         (G := G) agent' (action tn) own) agents (flags tn))
    = [(action tn, own tn)]) turns →
  notifications agent
    (flat_map (λ tn, IsTerminal false :: turn_calls agents time_allowed tn)
       turns)
  = (λ tn, (action tn, own tn)) <$> turns.
Proof.
  induction 1 as [|tn turns Htn _ IH]; [done|]. simpl.
  unfold notifications in *. simpl. rewrite omap_app, Htn. simpl.
  by rewrite IH.
Qed.

Lemma transitions_episode agents time_allowed turns w :
  transitions (episode_calls agents time_allowed turns w) = action <$> turns.
Proof.
  unfold episode_calls. rewrite !transitions_app, transitions_resets,
    transitions_turns. simpl. by rewrite app_nil_r.
Qed.

Lemma searches_episode agents time_allowed turns w :
  searches (episode_calls agents time_allowed turns w)
  = (λ tn, (acting tn, action tn)) <$> turns.
Proof.
  unfold episode_calls. rewrite !searches_app, searches_resets,
    searches_turns. simpl. by rewrite app_nil_r.
Qed.

Lemma notifications_episode agent agents time_allowed turns w own :
  Forall (λ tn,
    notifications agent
      (zip_with (λ agent' own, AgentTakeAction (Time := Time) (WinId := WinId)
         (G := G) agent' (action tn) own) agents (flags tn))
    = [(action tn, own tn)]) turns →
  notifications agent (episode_calls agents time_allowed turns w)
  = (λ tn, (action tn, own tn)) <$> turns.
Proof.
  intros Hturns. unfold episode_calls.
  rewrite !notifications_app, notifications_resets,
    (notifications_turns _ _ _ _ own Hturns). simpl. by rewrite app_nil_r.
Qed.

(** In one turn an agent that occurs once in the list is notified with the
    flag computed from its [agent_id]. *)
Lemma notifications_by_id agent agents time_allowed turns w ids :
  NoDup agents → agent ∈ agents →
  Forall (flags_by_id ids agents) turns →
  notifications agent (episode_calls agents time_allowed turns w)
  = (λ tn, (action tn, own_flag ids (current_agent_id (before tn)) agent))
      <$> turns.
Proof.
  intros Hnodup [i Hi]%list_elem_of_lookup Hflags.
  apply notifications_episode.
  eapply Forall_impl; [exact Hflags|]. intros tn Htn.
  apply (notifications_present _ _ _ _ i); [done..|].
  unfold flags_by_id in Htn. by rewrite Htn, list_lookup_fmap, Hi.
Qed.

Lemma notifications_count agent agents time_allowed turns w :
  NoDup agents → agent ∈ agents →
  Forall (turn_ok agents) turns →
  length (notifications agent (episode_calls agents time_allowed turns w))
  = length turns.
Proof.
  intros Hnodup [i Hi]%list_elem_of_lookup Hok.
  rewrite (notifications_episode _ _ _ _ _
    (λ tn, default false (flags tn !! i))); [by rewrite length_fmap|].
  eapply Forall_impl; [exact Hok|]. intros tn [_ Hlen].
  apply (notifications_present _ _ _ _ i); [done..|].
  destruct (lookup_lt_is_Some_2 (flags tn) i) as [own Hown].
  { rewrite Hlen. by eapply lookup_lt_Some. }
  by rewrite Hown.
Qed.

(** The notifications of a turn to the agent that searched all carry the
    flag computed from that agent's [agent_id]. *)
Lemma searcher_flag agents time_allowed ids tn own :
  flags_by_id ids agents tn →
  AgentTakeAction (acting tn) (action tn) own
    ∈ turn_calls agents time_allowed tn →
  own = own_flag ids (current_agent_id (before tn)) (acting tn).
Proof.
  unfold flags_by_id, GameMode.turn_calls. intros Hflags Hin.
  apply elem_of_app in Hin as [Hin|Hin].
  { repeat (apply elem_of_cons in Hin as [Hin|Hin]; [done|]).
    by apply elem_of_nil in Hin. }
  apply elem_of_lookup_zip_with in Hin as (i & agent & own' & Heq & Hi & Hown).
  injection Heq as <- <-.
  rewrite Hflags, list_lookup_fmap, Hi in Hown. by injection Hown.
Qed.

Lemma plays_not_terminal v turns tn :
  plays v turns → tn ∈ turns → is_terminal (before tn) = false.
Proof.
  revert v. induction turns as [|tn' turns IH]; intros v Hplays Hin;
    [by apply elem_of_nil in Hin|].
  destruct Hplays as (Hb & Hnot & Hplays).
  apply elem_of_cons in Hin as [->|Hin]; [congruence|]. by eapply IH.
Qed.

(** *** The standard input *)

Local Abbreviation unread :=
  (GameMode.unread (Action := Action) (Time := Time) (WinId := WinId)
     (G := G) (A := A)).

Local Instance unread_preorder : PreOrder unread.
Proof.
  split; [by intros ?|]. unfold GameMode.unread.
  intros s1 s2 s3 H12 H23. congruence.
Qed.

Ltac unread_call :=
  let x := fresh "x" in
  let H := fresh in
  intros ? x ? H;
  try (lazymatch type of x with unit => destruct x end);
  inv_run H; unfold GameMode.unread; done.

(** [_run_game] reads nothing from the standard input. *)
Lemma run_game_unread fuel game agents time_allowed :
  keeps unread (_run_game fuel game agents time_allowed).
Proof.
  assert (keeps unread (game_loop fuel game agents time_allowed)) as Hloop.
  { induction fuel as [|fuel IH]; simpl; [done|].
    apply keeps_bind; [apply _|unread_call|].
    intros [|]; [apply keeps_ret; apply _|].
    apply keeps_bind; [apply _| |by intros _].
    unfold game_turn, _advance_by_action.
    repeat first
      [ apply keeps_bind; [apply _| |intros ?]
      | apply keeps_foreach; [apply _|intros ? _]
      | unread_call ]. }
  unfold _run_game.
  repeat first
    [ exact Hloop
    | apply keeps_bind; [apply _| |intros ?]
    | apply keeps_foreach; [apply _|intros ? _]
    | unread_call ].
Qed.

(** The last statement of [run_games]. *)
Lemma enter_key prompt s :
  (input prompt ;;; ret tt) s
  = after_input (stdin s)
      (set_stdin (tail (stdin s)) (add_output (Input prompt) s)).
Proof. unfold bind, input, after_input. by destruct (stdin s). Qed.
End game_facts.

(** ** Claims about the game driver *)

Section game_claims.
Import GameMode.
Context {Action Time WinId G A : Type}.
Context `{!Game Action WinId G, !Agent Action Time G A}.

Local Abbreviation world := (world Action Time WinId G A).
Local Abbreviation turn := (GameMode.turn (Action := Action) (G := G)).
Implicit Types (s : world) (game agent : loc) (agents : list loc).
Implicit Types (time_allowed : Time) (tn : turn) (turns : list turn).

(** C1: with [len(agents) != game.NUM_PLAYERS], [run_games] raises the
    configuration error at once; the world it leaves is the world it was
    given, so no method of the game or of an agent has been called and
    nothing has been logged. *)
Theorem run_games_rejects_wrong_agent_count
    fuel game agents time_allowed num_games s :
  length agents ≠ NUM_PLAYERS G →
  run_games fuel game agents time_allowed num_games s
  = Raised (RuntimeError "Incorrect number of agents for game type.") s.
Proof. intros Hne. unfold run_games. by rewrite bool_decide_true. Qed.

Lemma ids_by_position_NoDup agents s :
  (∀ i agent, agents !! i = Some agent → id_of s agent = Some (Z.of_nat i)) →
  NoDup agents.
Proof.
  intros Hids. apply NoDup_alt. intros i j agent Hi Hj.
  apply Hids in Hi, Hj. rewrite Hi in Hj. injection Hj. lia.
Qed.

(** With [agent_id] equal to the position in the list and an index that is
    not negative, the flag computed from the ids singles out the agent at
    [agents[c]]. *)
Lemma own_flag_position agents s c agent acting :
  (∀ i agent, agents !! i = Some agent → id_of s agent = Some (Z.of_nat i)) →
  0 ≤ c → getitem agents c = Some acting → agent ∈ agents →
  own_flag (id_of s) c agent = bool_decide (agent = acting).
Proof.
  intros Hids Hc Hacting [i Hi]%list_elem_of_lookup.
  rewrite getitem_nonneg in Hacting by done.
  unfold own_flag. rewrite (Hids _ _ Hi). apply bool_decide_ext. split.
  - intros [= <-]. rewrite Nat2Z.id in Hacting. congruence.
  - intros ->. f_equal.
    pose proof (ids_by_position_NoDup _ _ Hids) as Hnodup.
    rewrite (NoDup_lookup _ _ _ _ Hnodup Hi Hacting). lia.
Qed.

(** C2, amended: in a completed episode on a list that holds no agent
    twice, every transition comes from one search by an agent of the list
    and every agent is notified once per state transition, whatever the
    [agent_id]s are.  The flag an agent gets is true exactly when it is
    the agent whose search produced the action if, in addition, every
    agent's [agent_id] is its position in [agents] and stays so, and the
    [current_agent_id] of a game that is not over is never negative. *)
Theorem own_flag_marks_acting_agent
    fuel game agents time_allowed s s' :
  NoDup agents →
  _run_game fuel game agents time_allowed s = Returned tt s' →
  ∃ new, calls s' = calls s ++ new ∧
    (searches new).*2 = transitions new ∧
    Forall (λ search, search.1 ∈ agents) (searches new) ∧
    (∀ agent, agent ∈ agents →
       length (notifications agent new) = length (transitions new)) ∧
    (StableId →
     (∀ i agent, agents !! i = Some agent →
        id_of s agent = Some (Z.of_nat i)) →
     (∀ v : G, is_terminal v = false → 0 ≤ current_agent_id v) →
     ∀ agent, agent ∈ agents →
       notifications agent new
       = (λ search, (search.2, bool_decide (agent = search.1)))
           <$> searches new).
Proof.
  intros Hnodup Hrun.
  apply run_game_Returned in Hrun
    as (v0 & turns & _ & Hplays & _ & _ & Hok & Hc & _ & _ & _ & Hst).
  eexists. split; [exact Hc|].
  rewrite searches_episode, transitions_episode. split_and!.
  - rewrite <- list_fmap_compose. by apply list_fmap_ext.
  - apply Forall_fmap. eapply Forall_impl; [exact Hok|].
    intros tn [Hacting _]. simpl. by eapply getitem_elem_of.
  - intros agent Hagent.
    by rewrite notifications_count, length_fmap.
  - intros Hstable Hids Hnonneg agent Hagent.
    destruct (Hst Hstable) as [_ Hflags].
    rewrite (notifications_by_id _ _ _ _ _ (id_of s)) by done.
    rewrite <- list_fmap_compose. apply Forall_fmap_ext.
    rewrite Forall_forall in Hok. apply Forall_forall. intros tn Htn.
    destruct (Hok _ Htn) as [Hacting _]. simpl. f_equal.
    apply (own_flag_position agents); try done.
    apply Hnonneg. by eapply plays_not_terminal.
Qed.

(** C8, amended: in a completed episode every turn has
    [agents[current_agent_id]] search (a Python subscript, on the game as
    it is before the transition) and notifies the agents, in list order,
    with the flags [agent.agent_id == current_agent_id] for that same
    pre-transition id.  So in a transition the flag handed to the agent
    that searched is true exactly when that agent's own [agent_id] is the
    [current_agent_id] of the transition.  That is so in every transition
    when every agent's [agent_id] is its position in [agents] and no
    transition has a negative [current_agent_id]. *)
Theorem acting_by_position_flag_by_id
    fuel game agents time_allowed s s' :
  StableId →
  _run_game fuel game agents time_allowed s = Returned tt s' →
  ∃ v0 turns w,
    games s !! game = Some v0 ∧ plays (game_reset v0) turns ∧
    calls s' = calls s ++ episode_calls agents time_allowed turns w ∧
    Forall (λ tn,
      getitem agents (current_agent_id (before tn)) = Some (acting tn) ∧
      flags tn = own_flag (id_of s) (current_agent_id (before tn)) <$> agents ∧
      ∀ own,
        AgentTakeAction (acting tn) (action tn) own
          ∈ turn_calls (WinId := WinId) agents time_allowed tn →
        (own = true ↔
         id_of s (acting tn) = Some (current_agent_id (before tn))))
      turns ∧
    ((∀ i agent, agents !! i = Some agent →
        id_of s agent = Some (Z.of_nat i)) →
     Forall (λ tn, 0 ≤ current_agent_id (before tn)) turns →
     Forall (λ tn, ∀ own,
       AgentTakeAction (acting tn) (action tn) own
         ∈ turn_calls (WinId := WinId) agents time_allowed tn →
       own = true) turns).
Proof.
  intros Hstable Hrun.
  apply run_game_Returned in Hrun
    as (v0 & turns & Hv0 & Hplays & _ & _ & Hok & Hc & _ & _ & _ & Hst).
  destruct (Hst Hstable) as [_ Hflags].
  rewrite Forall_forall in Hok, Hflags.
  exists v0, turns. eexists. split_and!; [done..| |].
  - apply Forall_forall. intros tn Htn.
    split_and!; [apply (Hok _ Htn)|apply (Hflags _ Htn)|].
    intros own Hin.
    rewrite (searcher_flag _ _ _ _ _ (Hflags _ Htn) Hin).
    unfold own_flag. apply bool_decide_eq_true.
  - intros Hids Hnonneg. rewrite Forall_forall in Hnonneg.
    apply Forall_forall. intros tn Htn own Hin.
    rewrite (searcher_flag _ _ _ _ _ (Hflags _ Htn) Hin).
    destruct (Hok _ Htn) as [Hacting _].
    rewrite (own_flag_position agents s _ _ (acting tn)); try done.
    + by apply bool_decide_eq_true.
    + by apply Hnonneg.
    + by eapply getitem_elem_of.
Qed.

Lemma plays_length (moves : G → nat) (limit : nat) v turns :
  (∀ action v, moves (game_take_action action v) = S (moves v)) →
  (∀ v, is_terminal v = bool_decide (limit ≤ moves v)%nat) →
  plays v turns → is_terminal (outcome_of v turns) = true →
  (moves v ≤ limit)%nat →
  length turns = (limit - moves v)%nat.
Proof.
  intros Hmove Hterm. revert v.
  induction turns as [|tn turns IH]; simpl; intros v Hplays Hend Hle.
  - rewrite Hterm, bool_decide_eq_true in Hend. lia.
  - destruct Hplays as (_ & Hnot & Hplays).
    rewrite Hterm, bool_decide_eq_false in Hnot.
    rewrite (IH _ Hplays Hend); rewrite Hmove; lia.
Qed.

(** C6: a game for two players that is over after exactly three moves,
    played by two agents that keep their [agent_id].  [run_games] with
    [num_games = 1] gets to its last statement, given four tests of the
    loop condition (it returns when the enter key can be read, and ends
    with [EOFError] at the end of the input).  It has applied three actions
    to the game and has notified each of the two agents three times, once
    per action and with that action; the flag of a notification is the
    comparison of the agent's [agent_id] with the [current_agent_id] the
    game had before the action.  With [agent_id]s 0 and 1 for the first
    and the second agent, the flag is true for the agent that searched and
    false for the other one: the notifications come in pairs of own and
    not own.  One winner is logged, the one the game names in its final
    state. *)
Theorem three_move_game_run
    (moves : G → nat) fuel game a0 a1 time_allowed s v0 :
  StableId →
  NUM_PLAYERS G = 2%nat →
  (∀ v, moves (game_reset v) = 0%nat) →
  (∀ action v, moves (game_take_action action v) = S (moves v)) →
  (∀ v, is_terminal v = bool_decide (3 ≤ moves v)%nat) →
  (∀ v : G, 0 ≤ current_agent_id v < 2) →
  a0 ≠ a1 →
  games s !! game = Some v0 →
  is_Some (agent_objs s !! a0) → is_Some (agent_objs s !! a1) →
  (4 ≤ fuel)%nat →
  ∃ s' new vf turns,
    run_games fuel game [a0; a1] time_allowed 1 s
    = after_input (stdin s) s' ∧
    calls s' = calls s ++ new ∧
    length (transitions new) = 3%nat ∧
    length (notifications a0 new) = 3%nat ∧
    length (notifications a1 new) = 3%nat ∧
    games s' !! game = Some vf ∧ is_terminal vf = true ∧
    winners (outputs s') = winners (outputs s) ++ [get_winning_id vf] ∧
    plays (game_reset v0) turns ∧ length turns = 3%nat ∧
    transitions new = action <$> turns ∧
    searches new = (λ tn, (acting tn, action tn)) <$> turns ∧
    (∀ agent, agent ∈ [a0; a1] →
       notifications agent new
       = (λ tn, (action tn,
                 own_flag (id_of s) (current_agent_id (before tn)) agent))
           <$> turns) ∧
    (id_of s a0 = Some 0 → id_of s a1 = Some 1 →
     Forall (λ tn, acting tn = a0 ∨ acting tn = a1) turns ∧
     ∀ agent, agent ∈ [a0; a1] →
       notifications agent new
       = (λ tn, (action tn, bool_decide (agent = acting tn))) <$> turns).
Proof.
  intros Hstable Hplayers Hreset Hmove Hterm Hseat Hne Hv0 Ha0 Ha1 Hfuel.
  set (agents := [a0; a1]).
  assert (∀ agent, agent ∈ agents → is_Some (agent_objs s !! agent)) as Hin.
  { intros agent. unfold agents. rewrite !elem_of_cons, elem_of_nil.
    intros [->|[->|[]]]; done. }
  assert (NoDup agents) as Hnodup.
  { unfold agents. apply NoDup_cons. split; [|apply NoDup_singleton].
    rewrite list_elem_of_singleton. done. }
  destruct (run_game_progress (λ v, 3 - moves v)%nat fuel game agents
    time_allowed
    (add_output (Log INFO "Game {}/{}" [AInt (0 + 1); AInt 1]) s) v0)
    as [s1 Hs1]; [| |done|done| |].
  { intros v action Hv. rewrite Hterm, bool_decide_eq_false in Hv.
    rewrite Hmove. lia. }
  { intros v _. apply getitem_is_Some. unfold agents. simpl.
    specialize (Hseat v). lia. }
  { rewrite Hreset. lia. }
  pose proof (run_game_unread _ _ _ _ _ _ _ Hs1) as Hstdin.
  unfold GameMode.unread in Hstdin.
  change (stdin s1 = stdin s) in Hstdin.
  exists (set_stdin (tail (stdin s))
            (add_output (Input (newline +:+ "Press enter key to end."))
               (add_output (Log INFO "Games complete" []) s1))).
  pose proof Hs1 as Hshape.
  apply run_game_Returned in Hshape
    as (v0' & turns & Hv0' & Hplays & Hvf & Hend & Hok & Hc & Ho & _ & _
        & Hst).
  destruct (Hst Hstable) as [_ Hflags].
  change (id_of (add_output
    (Log INFO "Game {}/{}" [AInt (0 + 1); AInt 1]) s)) with (id_of s)
    in Hflags.
  simpl in Hv0', Hc, Ho. simplify_eq.
  assert (length turns = 3%nat) as Hlen.
  { rewrite (plays_length moves 3 (game_reset v0) turns); try done.
    - rewrite Hreset. lia.
    - rewrite Hreset. lia. }
  assert (∀ agent, agent ∈ agents →
    notifications agent
      (episode_calls agents time_allowed turns
         (get_winning_id (outcome_of (game_reset v0) turns)))
    = (λ tn, (action tn,
              own_flag (id_of s) (current_agent_id (before tn)) agent))
        <$> turns) as Hnotes.
  { intros agent Hagent. by apply notifications_by_id. }
  eexists _, (outcome_of (game_reset v0) turns), turns. split_and!.
  - unfold run_games. rewrite bool_decide_false by (simpl; lia).
    change (range 1) with [0]. simpl.
    erewrite bind_eval.
    2:{ erewrite bind_eval.
        2:{ erewrite bind_eval by (by apply log_Returned). exact Hs1. }
        reflexivity. }
    erewrite bind_eval by (by apply log_Returned).
    rewrite enter_key. simpl. by rewrite Hstdin.
  - exact Hc.
  - by rewrite transitions_episode, length_fmap.
  - rewrite Hnotes, length_fmap; [done|]. unfold agents. set_solver.
  - rewrite Hnotes, length_fmap; [done|]. unfold agents. set_solver.
  - exact Hvf.
  - exact Hend.
  - simpl. rewrite !winners_app, Ho, winners_app. simpl.
    by rewrite !app_nil_r.
  - exact Hplays.
  - exact Hlen.
  - apply transitions_episode.
  - apply searches_episode.
  - exact Hnotes.
  - intros Hid0 Hid1.
    assert (∀ i agent, agents !! i = Some agent →
      id_of s agent = Some (Z.of_nat i)) as Hids.
    { intros [|[|i]] agent; simpl; intros [= <-]; done. }
    rewrite Forall_forall in Hok. split.
    + apply Forall_forall. intros tn Htn.
      destruct (Hok _ Htn) as [Hacting%getitem_elem_of _].
      unfold agents in Hacting. set_solver.
    + intros agent Hagent. rewrite Hnotes by done.
      apply Forall_fmap_ext, Forall_forall. intros tn Htn.
      destruct (Hok _ Htn) as [Hacting _]. f_equal.
      apply (own_flag_position agents); try done. apply Hseat.
Qed.

Lemma run_game_terminal_at_reset fuel game agents time_allowed s v0 :
  games s !! game = Some v0 →
  is_terminal (game_reset v0) = true →
  (∀ agent, agent ∈ agents → is_Some (agent_objs s !! agent)) →
  ∃ s', _run_game (S fuel) game agents time_allowed s = Returned tt s' ∧
    calls s' = calls s ++
      [GameReset] ++ (AgentReset <$> agents) ++
      [IsTerminal true; GetWinningId (get_winning_id (game_reset v0))].
Proof.
  intros Hv0 Hterm Hin.
  destruct (run_game_progress_from_loop (S fuel) game agents time_allowed
    s v0) as [s' Hs']; [done..| |].
  { intros s1 Hv1 _. simpl.
    erewrite bind_eval by (apply call_is_terminal_Returned; eauto).
    rewrite Hterm. by eexists. }
  exists s'. split; [done|].
  apply run_game_Returned in Hs'
    as (v0' & turns & Hv0' & Hplays & _ & _ & _ & Hc & _).
  simplify_eq. destruct turns as [|tn turns]; [done|].
  destruct Hplays as (_ & Hnot & _). congruence.
Qed.
End game_claims.

(** ** MDP mode *)

Section mdp_facts.
Import MDPMode.
Context {Action Reward Weights M A : Type}.
Context `{!MDP Action Reward M, !Agent Action Reward Weights M A}.

Local Abbreviation world := (world Action Reward Weights M A).
Local Abbreviation call := (MDPMode.call Action Reward M).
Local Abbreviation iteration :=
  (MDPMode.iteration (Action := Action) (Reward := Reward) (M := M)).
Implicit Types (s : world) (mdp agent : loc) (it : iteration)
  (its : list iteration).

(** *** What a completed call has done *)

Lemma mdp_log_Returned lvl template args s s' :
  log lvl template args s = Returned tt s' ↔
  s' = add_output (Log lvl template args) s.
Proof. unfold log. naive_solver. Qed.

Lemma mdp_input_Returned prompt s line s' :
  input prompt s = Returned line s' ↔
  (∃ rest, stdin s = line :: rest) ∧
  s' = set_stdin (tail (stdin s)) (add_output (Input prompt) s).
Proof. unfold input. destruct (stdin s); naive_solver. Qed.

Lemma mdp_attr_Returned {X} mdp (f : M → X) s x s' :
  mdp_attr mdp f s = Returned x s' ↔
  ∃ m, mdps s !! mdp = Some m ∧ x = f m ∧ s' = s.
Proof. unfold mdp_attr. destruct (mdps s !! mdp); naive_solver. Qed.

Lemma learner_attr_Returned {X} agent (f : A → X) s x s' :
  agent_attr agent f s = Returned x s' ↔
  ∃ a, agent_objs s !! agent = Some a ∧ x = f a ∧ s' = s.
Proof. unfold agent_attr. destruct (agent_objs s !! agent); naive_solver. Qed.

Lemma call_reset_Returned mdp s s' :
  call_reset mdp s = Returned tt s' ↔
  ∃ m, mdps s !! mdp = Some m ∧
    s' = add_call Reset (set_mdps (<[mdp := mdp_reset m]> (mdps s)) s).
Proof. unfold call_reset. destruct (mdps s !! mdp); naive_solver. Qed.

Lemma mdp_is_terminal_Returned mdp s x s' :
  call_is_terminal mdp s = Returned x s' ↔
  ∃ m, mdps s !! mdp = Some m ∧ x = is_terminal m ∧
    s' = add_call (IsTerminal x) s.
Proof. unfold call_is_terminal. destruct (mdps s !! mdp); naive_solver. Qed.

Lemma mdp_copy_Returned mdp s l s' :
  call_copy mdp s = Returned l s' ↔
  ∃ m, mdps s !! mdp = Some m ∧ l = fresh (dom (mdps s)) ∧
    s' = add_call (Copy l m) (set_mdps (<[l := m]> (mdps s)) s).
Proof.
  unfold call_copy, copy_object. destruct (mdps s !! mdp); naive_solver.
Qed.

Lemma call_step_Returned mdp action s rt s' :
  call_step mdp action s = Returned rt s' ↔
  ∃ m, mdps s !! mdp = Some m ∧ rt = (step action m).1 ∧
    s' = add_call (Step action rt.1 rt.2)
           (set_mdps (<[mdp := (step action m).2]> (mdps s)) s).
Proof.
  unfold call_step. destruct (mdps s !! mdp) as [m|]; [|naive_solver].
  destruct (step action m) as [[r t] m'] eqn:Hstep. simpl. split.
  - intros [= <- <-]. exists m. by rewrite Hstep.
  - intros (? & [= <-] & -> & ->). by rewrite Hstep.
Qed.

Lemma call_get_next_action_Returned agent snap s action s' :
  call_get_next_action agent snap s = Returned action s' ↔
  ∃ a m, agent_objs s !! agent = Some a ∧ mdps s !! snap = Some m ∧
    action = (get_next_action m a).1 ∧
    s' = add_call (GetNextAction agent snap m action)
           (set_agent_objs
              (<[agent := (get_next_action m a).2]> (agent_objs s)) s).
Proof.
  unfold call_get_next_action.
  destruct (agent_objs s !! agent) as [a|]; [|naive_solver].
  destruct (mdps s !! snap) as [m|]; [|naive_solver].
  destruct (get_next_action m a) as [act a'] eqn:Hnext. simpl.
  split.
  - intros [= <- <-]. exists a, m. by rewrite Hnext.
  - intros (? & ? & [= <-] & [= <-] & -> & ->). by rewrite Hnext.
Qed.

Lemma call_update_Returned agent prev mdp reward action terminal s s' :
  call_update agent prev mdp reward action terminal s = Returned tt s' ↔
  ∃ a p m, agent_objs s !! agent = Some a ∧
    mdps s !! prev = Some p ∧ mdps s !! mdp = Some m ∧
    s' = add_call (Update agent prev p mdp m reward action terminal)
           (set_agent_objs
              (<[agent := update p m reward action terminal a]> (agent_objs s))
              s).
Proof.
  unfold call_update.
  destruct (agent_objs s !! agent); [|naive_solver].
  destruct (mdps s !! prev); [|naive_solver].
  destruct (mdps s !! mdp); naive_solver.
Qed.

Ltac inv_run H :=
  cbv beta in H;
  lazymatch type of H with
  | bind _ _ _ = Returned _ _ =>
      let x := fresh "x" in
      let s := fresh "s" in
      let H1 := fresh "Hrun" in
      let H2 := fresh "Hrun" in
      apply bind_Returned in H as (x & s & H1 & H2);
      lazymatch type of x with unit => destruct x | _ => idtac end;
      inv_run H1; inv_run H2
  | ret _ _ = Returned _ _ => unfold ret in H; simplify_eq
  | log _ _ _ _ = Returned _ _ => apply mdp_log_Returned in H; subst
  | input _ _ = Returned _ _ =>
      apply mdp_input_Returned in H as [[? ?] ?]; subst
  | mdp_attr _ _ _ = Returned _ _ =>
      apply mdp_attr_Returned in H as (? & ? & ? & ?); subst
  | agent_attr _ _ _ = Returned _ _ =>
      apply learner_attr_Returned in H as (? & ? & ? & ?); subst
  | _ => idtac
  end.

(** *** One iteration *)

Lemma mdp_copy_effect mdp s l s' :
  call_copy mdp s = Returned l s' →
  ∃ m, mdps s !! mdp = Some m ∧ l = fresh (dom (mdps s)) ∧
    mdps s' = <[l := m]> (mdps s) ∧ agent_objs s' = agent_objs s ∧
    calls s' = calls s ++ [Copy l m] ∧ outputs s' = outputs s.
Proof. intros (m & ? & ? & ->)%mdp_copy_Returned. by exists m. Qed.

Lemma call_get_next_action_effect agent snap s action s' :
  call_get_next_action agent snap s = Returned action s' →
  ∃ a m, agent_objs s !! agent = Some a ∧ mdps s !! snap = Some m ∧
    action = (get_next_action m a).1 ∧
    mdps s' = mdps s ∧
    agent_objs s' = <[agent := (get_next_action m a).2]> (agent_objs s) ∧
    calls s' = calls s ++ [GetNextAction agent snap m action] ∧
    outputs s' = outputs s.
Proof.
  intros (a & m & ? & ? & ? & ->)%call_get_next_action_Returned.
  by exists a, m.
Qed.

Lemma call_step_effect mdp action s rt s' :
  call_step mdp action s = Returned rt s' →
  ∃ m, mdps s !! mdp = Some m ∧ rt = (step action m).1 ∧
    mdps s' = <[mdp := (step action m).2]> (mdps s) ∧
    agent_objs s' = agent_objs s ∧
    calls s' = calls s ++ [Step action rt.1 rt.2] ∧ outputs s' = outputs s.
Proof. intros (m & ? & ? & ->)%call_step_Returned. by exists m. Qed.

Lemma call_update_effect agent prev mdp reward action terminal s s' :
  call_update agent prev mdp reward action terminal s = Returned tt s' →
  ∃ a p m, agent_objs s !! agent = Some a ∧
    mdps s !! prev = Some p ∧ mdps s !! mdp = Some m ∧
    mdps s' = mdps s ∧
    agent_objs s'
    = <[agent := update p m reward action terminal a]> (agent_objs s) ∧
    calls s' = calls s ++ [Update agent prev p mdp m reward action terminal] ∧
    outputs s' = outputs s.
Proof.
  intros (a & p & m & ? & ? & ? & ->)%call_update_Returned. by exists a, p, m.
Qed.

Lemma trial_step_Returned mdp agent s s' :
  trial_step mdp agent s = Returned tt s' →
  ∃ it a,
    mdps s !! mdp = Some (pre it) ∧
    agent_objs s !! agent = Some a ∧
    step (chosen it) (pre it) = (reward it, terminal it, post it) ∧
    chosen it = (get_next_action (pre it) a).1 ∧
    first_copy it = fresh (dom (mdps s)) ∧
    second_copy it = fresh (dom (<[first_copy it := pre it]> (mdps s))) ∧
    first_copy it ≠ second_copy it ∧
    first_copy it ≠ mdp ∧ second_copy it ≠ mdp ∧
    calls s' = calls s ++ tail (iteration_calls mdp agent it) ∧
    mdps s' = <[mdp := post it]>
                (<[second_copy it := pre it]>
                   (<[first_copy it := pre it]> (mdps s))) ∧
    outputs s' = outputs s ∧
    agent_objs s'
    = <[agent := update (pre it) (post it) (reward it) (chosen it)
                   (terminal it) (get_next_action (pre it) a).2]>
        (agent_objs s).
Proof.
  unfold trial_step. intros Hrun.
  apply bind_Returned in Hrun as (l1 & s1 & H1 & Hrun).
  apply mdp_copy_effect in H1 as (m & Hm & Hl1 & Hms1 & Ha1 & Hc1 & Ho1).
  apply bind_Returned in Hrun as (act & s2 & H2 & Hrun).
  apply call_get_next_action_effect in H2
    as (a & m1 & Ha & Hm1 & Hact & Hms2 & Ha2 & Hc2 & Ho2).
  apply bind_Returned in Hrun as (l2 & s3 & H3 & Hrun).
  apply mdp_copy_effect in H3 as (m2 & Hm2 & Hl2 & Hms3 & Ha3 & Hc3 & Ho3).
  apply bind_Returned in Hrun as (rt & s4 & H4 & Hrun).
  apply call_step_effect in H4 as (m3 & Hm3 & Hrt & Hms4 & Ha4 & Hc4 & Ho4).
  apply call_update_effect in Hrun
    as (a' & p & m4 & Ha' & Hp & Hm4 & Hms' & Hobjs' & Hc' & Ho').
  rewrite Hms2, Hms1 in *. rewrite Hms4, Hms3 in *.
  rewrite Ha4, Ha3, Ha2, Ha1 in *.
  assert (l1 ≠ mdp) as Hne1
    by (rewrite Hl1; apply (fresh_not_in (mdps s) mdp); by eexists).
  assert (l2 ≠ mdp) as Hne2.
  { rewrite Hl2. apply (fresh_not_in (<[l1 := m]> (mdps s)) mdp).
    rewrite lookup_insert_ne by assumption. by eexists. }
  assert (l2 ≠ l1) as Hne21.
  { rewrite Hl2. apply (fresh_not_in (<[l1 := m]> (mdps s)) l1).
    rewrite lookup_insert_eq. by eexists. }
  assert (mdp ≠ l2) as Hne2' by by apply not_eq_sym.
  rewrite lookup_insert_eq in Hm1, Hm4. rewrite lookup_insert_eq in Ha'.
  rewrite (lookup_insert_ne _ l1 mdp) in Hm2 by assumption.
  rewrite (lookup_insert_ne _ l2 mdp), (lookup_insert_ne _ l1 mdp) in Hm3
    by assumption.
  rewrite (lookup_insert_ne _ mdp l2), lookup_insert_eq in Hp by assumption.
  assert (m1 = m) by congruence. assert (m2 = m) by congruence.
  assert (m3 = m) by congruence. assert (p = m) by congruence.
  subst m1 m2 m3 p. clear Hm1 Hm2 Hm3 Hp.
  destruct (step act m) as [[r t] m'] eqn:Hstep.
  cbn [fst snd] in *. subst rt. cbn [fst snd] in *.
  injection Hm4 as <-. injection Ha' as <-.
  exists (Iteration m l1 l2 act r t m'), a.
  cbn [pre first_copy second_copy chosen reward terminal post
       iteration_calls tail].
  split_and!; try done; try congruence.
  - rewrite Hc', Hc4, Hc3, Hc2, Hc1. by rewrite <- !app_assoc.
  - rewrite Hobjs', insert_insert_eq. congruence.
Qed.

Lemma trial_step_progress mdp agent s m :
  mdps s !! mdp = Some m → is_Some (agent_objs s !! agent) →
  ∃ s', trial_step mdp agent s = Returned tt s'.
Proof.
  intros Hm [a Ha]. unfold trial_step.
  set (l1 := fresh (dom (mdps s))).
  set (l2 := fresh (dom (<[l1 := m]> (mdps s)))).
  assert (l1 ≠ mdp) as Hne1
    by (apply (fresh_not_in (mdps s) mdp); by eexists).
  assert (l2 ≠ mdp) as Hne2.
  { apply (fresh_not_in (<[l1 := m]> (mdps s)) mdp).
    rewrite lookup_insert_ne by assumption. by eexists. }
  erewrite bind_eval by (apply mdp_copy_Returned; eauto).
  erewrite bind_eval.
  2:{ apply call_get_next_action_Returned. exists a, m. split_and!; try done.
      apply lookup_insert_eq. }
  erewrite bind_eval.
  2:{ apply mdp_copy_Returned. exists m. split; [|done].
      cbn [mdps add_call set_mdps set_agent_objs].
      by rewrite lookup_insert_ne by assumption. }
  erewrite bind_eval.
  2:{ apply call_step_Returned. exists m. split; [|done].
      cbn [mdps add_call set_mdps set_agent_objs].
      by rewrite !lookup_insert_ne by assumption. }
  eexists. apply call_update_Returned. eexists _, m, _.
  split_and!; [| | |done].
  - cbn [agent_objs add_call set_mdps set_agent_objs]. apply lookup_insert_eq.
  - cbn [mdps add_call set_mdps set_agent_objs].
    rewrite lookup_insert_ne by by apply not_eq_sym. apply lookup_insert_eq.
  - cbn [mdps add_call set_mdps set_agent_objs]. apply lookup_insert_eq.
Qed.

(** *** The loop of [_run_trial] *)

Lemma trial_loop_Returned fuel mdp agent s s' :
  trial_loop fuel mdp agent s = Returned tt s' →
  ∃ m its,
    mdps s !! mdp = Some m ∧
    runs mdp m its ∧
    mdps s' !! mdp = Some (end_of m its) ∧
    is_terminal (end_of m its) = true ∧
    calls s' = calls s ++
      flat_map (iteration_calls mdp agent) its ++ [IsTerminal true] ∧
    outputs s' = outputs s ∧
    dom (agent_objs s') = dom (agent_objs s) ∧
    (its = [] → agent_objs s' = agent_objs s).
Proof.
  revert s. induction fuel as [|fuel IH]; simpl; intros s Hrun; [done|].
  apply bind_Returned in Hrun as (t & s1 & H1 & Hrun).
  apply mdp_is_terminal_Returned in H1 as (m & Hm & -> & ->).
  destruct (is_terminal m) eqn:Hterm.
  - inv_run Hrun. exists m, []. by split_and!.
  - apply bind_Returned in Hrun as ([] & s2 & Hstep & Hloop).
    apply trial_step_Returned in Hstep
      as (it & a & Hpre & Ha & Hstep & _ & _ & _ & Hne12 & Hne1 & Hne2 & Hc
          & Hms & Ho & Hobjs).
    apply IH in Hloop
      as (m' & its & Hm' & Hruns & Hend & Hfin & Hc' & Ho' & Hd' & _).
    cbn [mdps agent_objs calls outputs add_call] in Hpre, Ha, Hc, Hms, Ho, Hobjs.
    rewrite Hms, lookup_insert_eq in Hm'. simplify_eq.
    exists (pre it), (it :: its). cbn [runs end_of foldl flat_map].
    split_and!; try done.
    + rewrite Hc', Hc. unfold iteration_calls. cbn [tail].
      by rewrite <- !app_assoc.
    + congruence.
    + rewrite Hd', Hobjs, dom_insert_L. apply elem_of_dom_2 in Ha. set_solver.
Qed.

(** The loop returns when the MDP comes closer to its end with every
    step: [remaining] bounds the number of steps left. *)
Lemma trial_loop_progress (remaining : M → nat) mdp agent :
  (∀ m action, is_terminal m = false →
     (remaining (step action m).2 < remaining m)%nat) →
  ∀ fuel s m,
    mdps s !! mdp = Some m →
    is_Some (agent_objs s !! agent) →
    (remaining m < fuel)%nat →
    ∃ s', trial_loop fuel mdp agent s = Returned tt s'.
Proof.
  intros Hdecr. induction fuel as [|fuel IH]; intros s m Hm Hagent Hfuel;
    [lia|].
  simpl. erewrite bind_eval by (apply mdp_is_terminal_Returned; eauto).
  destruct (is_terminal m) eqn:Hterm; [by eexists|].
  destruct (trial_step_progress mdp agent (add_call (IsTerminal false) s) m)
    as [s1 Hs1]; [done..|].
  erewrite bind_eval by exact Hs1.
  apply trial_step_Returned in Hs1
    as (it & a & Hpre & _ & Hstep & _ & _ & _ & _ & _ & _ & _ & Hms & _ & Hobjs).
  cbn [mdps add_call] in Hpre. simplify_eq.
  apply (IH s1 (post it)).
  - rewrite Hms. apply lookup_insert_eq.
  - rewrite Hobjs, lookup_insert_eq. by eexists.
  - specialize (Hdecr (pre it) (chosen it) Hterm). rewrite Hstep in Hdecr.
    simpl in Hdecr. lia.
Qed.

(** *** One trial *)

Lemma run_trial_Returned fuel mdp agent s n s' :
  _run_trial fuel mdp agent s = Returned n s' →
  ∃ m0 its,
    mdps s !! mdp = Some m0 ∧
    runs mdp (mdp_reset m0) its ∧
    mdps s' !! mdp = Some (end_of (mdp_reset m0) its) ∧
    is_terminal (end_of (mdp_reset m0) its) = true ∧
    n = timesteps (end_of (mdp_reset m0) its) ∧
    calls s' = calls s ++ trial_calls mdp agent its ∧
    outputs s' = outputs s ∧
    dom (agent_objs s') = dom (agent_objs s) ∧
    (its = [] → agent_objs s' = agent_objs s).
Proof.
  unfold _run_trial. intros Hrun.
  apply bind_Returned in Hrun as ([] & s1 & H1 & Hrun).
  apply call_reset_Returned in H1 as (m0 & Hm0 & ->).
  apply bind_Returned in Hrun as ([] & s2 & Hloop & Hrun).
  apply mdp_attr_Returned in Hrun as (mf & Hmf & -> & ->).
  apply trial_loop_Returned in Hloop
    as (m & its & Hm & Hruns & Hend & Hfin & Hc & Ho & Hd & Hsame).
  cbn [mdps agent_objs calls outputs add_call set_mdps] in Hm, Hc, Ho, Hd, Hsame.
  rewrite lookup_insert_eq in Hm. simplify_eq.
  exists m0, its. split_and!; try done.
  rewrite Hc. unfold trial_calls. by rewrite <- !app_assoc.
Qed.

Lemma run_trial_progress (remaining : M → nat) fuel mdp agent s m0 :
  (∀ m action, is_terminal m = false →
     (remaining (step action m).2 < remaining m)%nat) →
  mdps s !! mdp = Some m0 →
  is_Some (agent_objs s !! agent) →
  (remaining (mdp_reset m0) < fuel)%nat →
  ∃ n s', _run_trial fuel mdp agent s = Returned n s'.
Proof.
  intros Hdecr Hm0 Hagent Hfuel. unfold _run_trial.
  erewrite bind_eval by (apply call_reset_Returned; eauto).
  destruct (trial_loop_progress remaining mdp agent Hdecr fuel
    (add_call Reset (set_mdps (<[mdp := mdp_reset m0]> (mdps s)) s))
    (mdp_reset m0)) as [s1 Hs1]; [|exact Hagent|exact Hfuel|].
  { cbn [mdps add_call set_mdps]. apply lookup_insert_eq. }
  erewrite bind_eval by exact Hs1.
  apply trial_loop_Returned in Hs1 as (m & its & _ & _ & Hend & _).
  eexists _, _. apply mdp_attr_Returned. eauto.
Qed.

(** *** Reading the calls of a trial *)

Lemma steps_trial mdp agent its :
  steps (trial_calls mdp agent its)
  = (λ it, (reward it, chosen it, terminal it)) <$> its.
Proof.
  unfold trial_calls, steps. rewrite !omap_app. simpl.
  rewrite app_nil_r. induction its as [|it its IH]; [done|].
  simpl. f_equal. exact IH.
Qed.

Lemma updates_trial mdp agent its :
  updates (trial_calls mdp agent its)
  = (λ it, (reward it, chosen it, terminal it)) <$> its.
Proof.
  unfold trial_calls, updates. rewrite !omap_app. simpl.
  rewrite app_nil_r. induction its as [|it its IH]; [done|].
  simpl. f_equal. exact IH.
Qed.

(** *** Snapshots stay as they were made *)

Lemma mdp_frozen_step mdp s s' new :
  calls s' = calls s ++ new →
  (∀ l m, l ≠ mdp → mdps s !! l = Some m → mdps s' !! l = Some m) →
  (∀ l m, Copy l m ∈ new → l ≠ mdp ∧ mdps s' !! l = Some m) →
  frozen mdp s → frozen mdp s'.
Proof.
  intros Hc Hkeep Hnew Hfrozen l m. rewrite Hc.
  intros [Hold|Hin]%elem_of_app; [|by apply Hnew].
  destruct (Hfrozen _ _ Hold). split; [done|]. by apply Hkeep.
Qed.

Lemma trial_step_frozen mdp agent s s' :
  trial_step mdp agent s = Returned tt s' → frozen mdp s → frozen mdp s'.
Proof.
  intros (it & a & Hpre & _ & _ & _ & Hl1 & Hl2 & Hne12 & Hne1 & Hne2 & Hc
          & Hms & _)%trial_step_Returned.
  assert (mdps s !! first_copy it = None) as Hnone1.
  { rewrite Hl1. apply (fresh_not_in (mdps s) mdp). by eexists. }
  assert (<[first_copy it := pre it]> (mdps s) !! second_copy it = None)
    as Hnone2.
  { rewrite Hl2.
    apply (fresh_not_in (<[first_copy it := pre it]> (mdps s)) mdp).
    rewrite lookup_insert_ne by assumption. by eexists. }
  apply (mdp_frozen_step _ _ _ _ Hc).
  - intros l m Hl Hm. rewrite Hms, lookup_insert_ne by by apply not_eq_sym.
    rewrite lookup_insert_ne.
    + rewrite lookup_insert_ne; [done|]. intros <-. congruence.
    + intros <-. rewrite lookup_insert_ne in Hnone2 by assumption.
      congruence.
  - unfold iteration_calls. cbn [tail]. intros l m Hin.
    repeat (apply elem_of_cons in Hin as [Hin|Hin]; [simplify_eq|]).
    + split; [done|]. rewrite Hms, lookup_insert_ne by by apply not_eq_sym.
      rewrite lookup_insert_ne by by apply not_eq_sym.
      apply lookup_insert_eq.
    + split; [done|]. rewrite Hms, lookup_insert_ne by by apply not_eq_sym.
      apply lookup_insert_eq.
    + by apply elem_of_nil in Hin.
Qed.

Lemma trial_loop_frozen fuel mdp agent s s' :
  trial_loop fuel mdp agent s = Returned tt s' → frozen mdp s → frozen mdp s'.
Proof.
  revert s. induction fuel as [|fuel IH]; simpl; intros s Hrun Hfrozen;
    [done|].
  apply bind_Returned in Hrun as (t & s1 & H1 & Hrun).
  apply mdp_is_terminal_Returned in H1 as (m & Hm & -> & ->).
  assert (frozen mdp (add_call (IsTerminal (is_terminal m)) s)) as Hfrozen1.
  { apply (mdp_frozen_step mdp s _ [IsTerminal (is_terminal m)]); try done.
    intros l v [?|?%elem_of_nil]%elem_of_cons; done. }
  destruct (is_terminal m).
  - by inv_run Hrun.
  - apply bind_Returned in Hrun as ([] & s2 & Hstep & Hloop).
    eapply IH; [done|]. by eapply trial_step_frozen.
Qed.

Lemma run_trial_frozen fuel mdp agent s n s' :
  _run_trial fuel mdp agent s = Returned n s' → frozen mdp s → frozen mdp s'.
Proof.
  unfold _run_trial. intros Hrun Hfrozen.
  apply bind_Returned in Hrun as ([] & s1 & H1 & Hrun).
  apply call_reset_Returned in H1 as (m0 & Hm0 & ->).
  apply bind_Returned in Hrun as ([] & s2 & Hloop & Hrun).
  apply mdp_attr_Returned in Hrun as (mf & Hmf & -> & ->).
  eapply trial_loop_frozen; [done|].
  apply (mdp_frozen_step mdp s _ [Reset]); try done.
  - intros l m Hl Hm. cbn [mdps add_call set_mdps].
    by rewrite lookup_insert_ne by by apply not_eq_sym.
  - intros l v [?|?%elem_of_nil]%elem_of_cons; done.
Qed.

Local Instance mdp_frozen_preserved_preorder mdp :
  PreOrder (λ s1 s2 : world, frozen mdp s1 → frozen mdp s2).
Proof.
  split; [by intros ?|]. intros s1 s2 s3 H12 H23 ?. by apply H23, H12.
Qed.

Lemma run_mdp_frozen fuel mdp agent num_trials s s' :
  run_mdp fuel mdp agent num_trials s = Returned tt s' →
  frozen mdp s → frozen mdp s'.
Proof.
  unfold run_mdp. intros Hrun.
  apply bind_Returned in Hrun as ([] & s1 & Hloop & Hrun).
  inv_run Hrun.
  assert (frozen mdp s → frozen mdp s1) as Hkeep.
  { eapply (foreach_Returned
      (λ s1 s2 : world, frozen mdp s1 → frozen mdp s2)); [|exact Hloop].
    intros i s2 s3 _ Hbody Hfrozen.
    apply bind_Returned in Hbody as ([] & s4 & Hlog & Hbody).
    apply mdp_log_Returned in Hlog as ->.
    apply bind_Returned in Hbody as (n & s5 & Htrial & Hbody).
    inv_run Hbody.
    exact (run_trial_frozen _ _ _ _ _ _ Htrial Hfrozen). }
  intros Hfrozen. exact (Hkeep Hfrozen).
Qed.

(** *** The standard input *)

(** [_run_trial] reads nothing from the standard input. *)
Lemma run_trial_unread fuel mdp agent s n s' :
  _run_trial fuel mdp agent s = Returned n s' → stdin s' = stdin s.
Proof.
  assert (∀ s s', trial_loop fuel mdp agent s = Returned tt s' →
    stdin s' = stdin s) as Hloop.
  { induction fuel as [|fuel IH]; simpl; intros s1 s2 Hrun; [done|].
    apply bind_Returned in Hrun as (t & s3 & H1 & Hrun).
    apply mdp_is_terminal_Returned in H1 as (m & Hm & -> & ->).
    destruct (is_terminal m); [by inv_run Hrun|].
    apply bind_Returned in Hrun as ([] & s4 & Hstep & Hrest).
    apply IH in Hrest as ->. unfold trial_step in Hstep.
    apply bind_Returned in Hstep as (l1 & s5 & H1 & Hstep).
    apply mdp_copy_Returned in H1 as (? & _ & _ & ->).
    apply bind_Returned in Hstep as (act & s6 & H2 & Hstep).
    apply call_get_next_action_Returned in H2 as (? & ? & _ & _ & _ & ->).
    apply bind_Returned in Hstep as (l2 & s7 & H3 & Hstep).
    apply mdp_copy_Returned in H3 as (? & _ & _ & ->).
    apply bind_Returned in Hstep as (rt & s8 & H4 & Hstep).
    apply call_step_Returned in H4 as (? & _ & _ & ->).
    by apply call_update_Returned in Hstep as (? & ? & ? & _ & _ & _ & ->). }
  unfold _run_trial. intros Hrun.
  apply bind_Returned in Hrun as ([] & s1 & H1 & Hrun).
  apply call_reset_Returned in H1 as (m0 & Hm0 & ->).
  apply bind_Returned in Hrun as ([] & s2 & Hrun & Hattr).
  apply mdp_attr_Returned in Hattr as (mf & Hmf & -> & ->).
  by apply Hloop in Hrun as ->.
Qed.

(** The last statement of [run_mdp]. *)
Lemma mdp_enter_key prompt s :
  (input prompt ;;; ret tt) s
  = after_input (stdin s)
      (set_stdin (tail (stdin s)) (add_output (Input prompt) s)).
Proof. unfold bind, input, after_input. by destruct (stdin s). Qed.
End mdp_facts.

(** ** Claims about the MDP driver *)

Section mdp_claims.
Import MDPMode.
Context {Action Reward Weights M A : Type}.
Context `{!MDP Action Reward M, !Agent Action Reward Weights M A}.

Local Abbreviation world := (world Action Reward Weights M A).
Local Abbreviation iteration :=
  (MDPMode.iteration (Action := Action) (Reward := Reward) (M := M)).
Implicit Types (s : world) (mdp agent : loc) (it : iteration)
  (its : list iteration).

Lemma runs_elem mdp m its it :
  runs mdp m its → it ∈ its →
  is_terminal (pre it) = false ∧
  step (chosen it) (pre it) = (reward it, terminal it, post it) ∧
  first_copy it ≠ second_copy it ∧
  first_copy it ≠ mdp ∧ second_copy it ≠ mdp.
Proof.
  revert m. induction its as [|it' its IH]; intros m Hruns Hin;
    [by apply elem_of_nil in Hin|].
  destruct Hruns as (<- & ? & ? & ? & ? & ? & Hruns).
  apply elem_of_cons in Hin as [->|Hin]; [done|]. by eapply IH.
Qed.

(** C4: in a completed trial every [update] call comes right after the
    [copy] that made its [prev_state] and the [step] made in between, in
    that order; what [update] sees in [prev_state] is the content the step
    was applied to, and what it sees in the live MDP is the result of that
    one step. *)
Theorem update_sees_step_before_and_after fuel mdp agent s n s' :
  _run_trial fuel mdp agent s = Returned n s' →
  ∃ new, calls s' = calls s ++ new ∧
    ∀ learner prev seen_prev live seen_live r action t,
      Update learner prev seen_prev live seen_live r action t ∈ new →
      learner = agent ∧ live = mdp ∧ prev ≠ mdp ∧
      step action seen_prev = (r, t, seen_live) ∧
      ∃ earlier later,
        new = earlier ++
          [Copy prev seen_prev; Step action r t;
           Update learner prev seen_prev live seen_live r action t] ++ later.
Proof.
  intros (m0 & its & _ & Hruns & _ & _ & _ & Hc & _)%run_trial_Returned.
  exists (trial_calls mdp agent its). split; [done|].
  intros learner prev seen_prev live seen_live r action t Hin.
  unfold trial_calls in Hin.
  apply elem_of_app in Hin as [Hin|Hin];
    [by apply list_elem_of_singleton in Hin|].
  apply elem_of_app in Hin as [Hin|Hin];
    [|by apply list_elem_of_singleton in Hin].
  apply list_elem_of_In, in_flat_map in Hin as (it & Hit & Hin).
  apply list_elem_of_In in Hit, Hin.
  destruct (runs_elem _ _ _ _ Hruns Hit) as (_ & Hstep & _ & _ & Hne2).
  apply list_elem_of_split in Hit as (its1 & its2 & ->).
  unfold iteration_calls in Hin.
  repeat (apply elem_of_cons in Hin as [Hin|Hin]; [simplify_eq|]);
    [|by apply elem_of_nil in Hin].
  injection Hin as -> -> -> -> -> -> -> ->.
  split_and!; try done.
  exists ([Reset] ++ flat_map (iteration_calls mdp agent) its1 ++
    [IsTerminal false; Copy (first_copy it) (pre it);
     GetNextAction agent (first_copy it) (pre it) (chosen it)]),
    (flat_map (iteration_calls mdp agent) its2 ++ [IsTerminal true]).
  unfold trial_calls. rewrite flat_map_app. simpl.
  rewrite <- !app_assoc. simpl. done.
Qed.

(** C10: a completed trial is a reset, then for every pass of the loop the
    calls [is_terminal], [copy], [get_next_action] on that first copy, a
    second [copy], [step], and [update] on the second copy and the live
    MDP, then the last [is_terminal].  The two copies of a pass are
    different objects, neither is the live MDP, both hold the content the
    MDP had right before the step, and both still hold it when the trial
    is over. *)
Theorem trial_copies_twice_per_step fuel mdp agent s n s' :
  frozen mdp s →
  _run_trial fuel mdp agent s = Returned n s' →
  ∃ m0 its,
    mdps s !! mdp = Some m0 ∧
    runs mdp (mdp_reset m0) its ∧
    calls s' = calls s ++ trial_calls mdp agent its ∧
    ∀ it, it ∈ its →
      mdps s' !! first_copy it = Some (pre it) ∧
      mdps s' !! second_copy it = Some (pre it).
Proof.
  intros Hfrozen Hrun.
  pose proof (run_trial_frozen _ _ _ _ _ _ Hrun Hfrozen) as Hfrozen'.
  apply run_trial_Returned in Hrun
    as (m0 & its & Hm0 & Hruns & _ & _ & _ & Hc & _).
  exists m0, its. split_and!; try done.
  intros it Hit.
  assert (∀ c, c ∈ iteration_calls mdp agent it → c ∈ calls s') as Hin.
  { intros c Hc'. rewrite Hc. unfold trial_calls.
    apply elem_of_app. right. apply elem_of_app. right.
    apply elem_of_app. left.
    apply list_elem_of_In, in_flat_map. exists it.
    by rewrite <- !list_elem_of_In. }
  split; eapply Hfrozen', Hin; unfold iteration_calls; set_solver.
Qed.
End mdp_claims.

(** ** Claims about the MDP driver that depend on the MDP's counters *)

Section counted_claims.
Import MDPMode.
Context {Action Reward Weights T A : Type}.
Context `{!Task Action Reward T}.
Context `{!Agent Action Reward Weights (counted Reward T) A}.

Local Abbreviation world :=
  (world Action Reward Weights (counted Reward T) A).
Local Abbreviation iteration :=
  (MDPMode.iteration (Action := Action) (Reward := Reward)
     (M := counted Reward T)).
Implicit Types (s : world) (mdp agent : loc) (it : iteration)
  (its : list iteration) (m : counted Reward T).

Lemma counted_step action m r t m' :
  step action m = (r, t, m') →
  r = (task_step action (task m)).1.1 ∧
  t = (task_step action (task m)).1.2 ∧
  m' = Counted (task_step action (task m)).2
         (reward_add (reward_sum m) r) (step_count m + 1).
Proof.
  simpl. destruct (task_step action (task m)) as [[r0 t0] t'].
  by intros [= <- <- <-].
Qed.

Lemma runs_counted mdp m its :
  runs mdp m its →
  step_count (end_of m its) = step_count m + Z.of_nat (length its) ∧
  reward_sum (end_of m its)
  = foldl reward_add (reward_sum m) (reward <$> its).
Proof.
  revert m. induction its as [|it its IH]; intros m Hruns.
  - simpl. split; [lia|done].
  - destruct Hruns as (_ & _ & Hstep & _ & _ & _ & Hruns).
    apply counted_step in Hstep as (_ & _ & Hpost).
    destruct (IH _ Hruns) as [Hcount Hsum].
    change (end_of m (it :: its)) with (end_of (post it) its).
    rewrite Hcount, Hsum, Hpost. cbn [step_count reward_sum length].
    split; [lia|done].
Qed.

(** C3: for an MDP that keeps [timesteps] as the number of steps since the
    last reset, a completed trial returns the number of [step] calls it
    made, which is also what [mdp.timesteps] reads afterwards; and the
    [update] calls are, one for one and in order, the [step] calls, with
    the same reward, action and terminal flag. *)
Theorem timesteps_counts_steps fuel mdp agent s n s' :
  _run_trial fuel mdp agent s = Returned n s' →
  ∃ new mf,
    calls s' = calls s ++ new ∧
    n = Z.of_nat (length (steps new)) ∧
    mdps s' !! mdp = Some mf ∧ timesteps mf = n ∧
    updates new = steps new.
Proof.
  intros (m0 & its & _ & Hruns & Hmf & _ & -> & Hc & _)%run_trial_Returned.
  exists (trial_calls mdp agent its), (end_of (mdp_reset m0) its).
  rewrite steps_trial, updates_trial, length_fmap.
  destruct (runs_counted _ _ _ Hruns) as [Hcount _].
  by split_and!.
Qed.
End counted_claims.

Section float_rewards.
Import MDPMode.
Context {Action Weights T A : Type}.
Context `{!Task Action float T}.
Context `{!Agent Action float Weights (counted float T) A}.

Local Abbreviation world := (world Action float Weights (counted float T) A).
Local Abbreviation iteration :=
  (MDPMode.iteration (Action := Action) (Reward := float)
     (M := counted float T)).
Implicit Types (s : world) (mdp agent : loc) (it : iteration)
  (its : list iteration) (m : counted float T).

Lemma runs_trajectory (elapsed : T → nat) (limit : nat) mdp m its :
  (∀ action t,
     (task_step action t).1.1 = 1%float ∧
     elapsed (task_step action t).2 = S (elapsed t)) →
  (∀ t, task_is_terminal t = bool_decide (limit ≤ elapsed t)%nat) →
  runs mdp m its → is_terminal (end_of m its) = true →
  (elapsed (task m) ≤ limit)%nat →
  reward <$> its = replicate (limit - elapsed (task m)) 1%float.
Proof.
  intros Hstep Hterm. revert m.
  induction its as [|it its IH]; intros m Hruns Hend Hle.
  - simpl in Hend. rewrite Hterm, bool_decide_eq_true in Hend.
    by replace (limit - elapsed (task m))%nat with 0%nat by lia.
  - destruct Hruns as (_ & Hnot & Hit & _ & _ & _ & Hruns).
    simpl in Hnot. rewrite Hterm, bool_decide_eq_false in Hnot.
    apply counted_step in Hit as (Hr & _ & Hpost).
    destruct (Hstep (chosen it) (task m)) as [Hone Hnext].
    change (end_of m (it :: its)) with (end_of (post it) its) in Hend.
    specialize (IH _ Hruns Hend). rewrite Hpost in IH. cbn [task] in IH.
    rewrite Hnext in IH.
    replace (limit - elapsed (task m))%nat
      with (S (limit - S (elapsed (task m)))) by lia.
    cbn [fmap list_fmap replicate]. rewrite Hr, Hone. f_equal.
    apply IH. lia.
Qed.

(** C7: an MDP task that ends after exactly five steps and pays reward
    [1.0] for every step, with the counters of the MDP class kept in
    floating point from [0.0].  [run_mdp] with [num_trials = 1] gets to
    its last statement, given six tests of the loop condition: it returns
    when the enter key can be read, and ends with [EOFError] at the end of
    the input.  The trial has made five steps and the log reports
    [reward:5.0; timesteps:5], which is what the MDP's counters hold. *)
Theorem five_step_trial_run (elapsed : T → nat) fuel mdp agent s m0 a0 :
  reward_zero = 0%float → reward_add = PrimFloat.add →
  (∀ t, elapsed (task_reset t) = 0%nat) →
  (∀ action t,
     (task_step action t).1.1 = 1%float ∧
     elapsed (task_step action t).2 = S (elapsed t)) →
  (∀ t, task_is_terminal t = bool_decide (5 ≤ elapsed t)%nat) →
  mdps s !! mdp = Some m0 →
  agent_objs s !! agent = Some a0 →
  (6 ≤ fuel)%nat →
  ∃ s' new mf af,
    run_mdp fuel mdp agent 1 s = after_input (stdin s) s' ∧
    agent_objs s' !! agent = Some af ∧
    calls s' = calls s ++ new ∧ length (steps new) = 5%nat ∧
    mdps s' !! mdp = Some mf ∧
    timesteps mf = 5 ∧ total_reward mf = 5%float ∧
    outputs s' = outputs s ++
      [Log INFO "Trial {}/{}" [AInt 1; AInt 1];
       Log DEBUG "reward:{}; timesteps:{}" [AReward 5%float; AInt 5];
       Log DEBUG "Final agent weights: {}" [AWeights (weights af)];
       Log INFO "Trials complete." [];
       Input (newline +:+ "Press enter key to end.")].
Proof.
  intros Hzero Hadd Hreset Hstep Hterm Hm0 Ha0 Hfuel.
  destruct (run_trial_progress (λ m, 5 - elapsed (task m))%nat fuel mdp agent
    (add_output (Log INFO "Trial {}/{}" [AInt (0 + 1); AInt 1]) s) m0)
    as (n & s1 & Hs1); [|done|by eexists| |].
  { intros m action Hnot. simpl in Hnot.
    rewrite Hterm, bool_decide_eq_false in Hnot.
    destruct (step action m) as [[r t] m'] eqn:Hm'.
    apply counted_step in Hm' as (_ & _ & ->).
    destruct (Hstep action (task m)) as [_ Hnext]. cbn [snd task].
    rewrite Hnext. lia. }
  { simpl. rewrite Hreset. lia. }
  pose proof Hs1 as Hshape.
  apply run_trial_Returned in Hshape
    as (m0' & its & Hm0' & Hruns & Hmf & Hend & Hn & Hc & Ho & Hd & _).
  cbn [mdps agent_objs calls outputs add_output] in Hm0', Hc, Ho, Hd.
  simplify_eq.
  assert (is_Some (agent_objs s1 !! agent)) as [af Haf].
  { apply elem_of_dom. rewrite Hd. by eapply elem_of_dom_2. }
  destruct (runs_counted _ _ _ Hruns) as [Hcount Hsum].
  pose proof (runs_trajectory elapsed 5 _ _ _ Hstep Hterm Hruns Hend)
    as Hrewards.
  cbn [mdp_reset counted_MDP task] in Hrewards.
  rewrite Hreset in Hrewards. specialize (Hrewards ltac:(lia)).
  assert (length its = 5%nat) as Hlen.
  { rewrite <- (length_fmap reward), Hrewards. by rewrite length_replicate. }
  change (reward_sum (mdp_reset m0)) with (reward_zero (Task := Task0)) in Hsum.
  change (step_count (mdp_reset m0)) with 0 in Hcount.
  rewrite Hrewards, Hzero, Hadd in Hsum. rewrite Hlen in Hcount.
  change (reward_sum (end_of (mdp_reset m0) its) = 5%float) in Hsum.
  change (step_count (end_of (mdp_reset m0) its) = 5) in Hcount.
  pose proof (run_trial_unread _ _ _ _ _ _ Hs1) as Hstdin.
  change (stdin s1 = stdin s) in Hstdin.
  exists (set_stdin (tail (stdin s))
    (add_output (Input (newline +:+ "Press enter key to end."))
      (add_output (Log INFO "Trials complete." [])
        (add_output (Log DEBUG "Final agent weights: {}"
          [AWeights (weights af)])
          (add_output (Log DEBUG "reward:{}; timesteps:{}"
            [AReward 5%float; AInt 5]) s1))))),
    (trial_calls mdp agent its), (end_of (mdp_reset m0) its), af.
  split_and!.
  - unfold run_mdp. change (range 1) with [0]. cbn [foreach].
    erewrite bind_eval.
    2:{ erewrite bind_eval.
        2:{ erewrite bind_eval by (by apply mdp_log_Returned).
            erewrite bind_eval by exact Hs1.
            erewrite bind_eval by (apply mdp_attr_Returned; eauto).
            erewrite bind_eval by (apply mdp_attr_Returned; eauto).
            apply mdp_log_Returned. reflexivity. }
        reflexivity. }
    erewrite bind_eval by (apply learner_attr_Returned; eauto).
    erewrite bind_eval by (by apply mdp_log_Returned).
    erewrite bind_eval by (by apply mdp_log_Returned).
    rewrite mdp_enter_key. cbn [total_reward timesteps counted_MDP].
    cbn [stdin add_output]. rewrite Hsum, Hcount, Hstdin. reflexivity.
  - exact Haf.
  - exact Hc.
  - by rewrite steps_trial, length_fmap.
  - exact Hmf.
  - exact Hcount.
  - cbn [total_reward counted_MDP]. rewrite Hsum. reflexivity.
  - cbn [outputs add_output set_stdin]. rewrite Ho.
    by rewrite <- !app_assoc.
Qed.
End float_rewards.

(** ** Claims about both drivers *)

Section both_drivers.
Context {Action Time WinId G A : Type}.
Context {Game0 : GameMode.Game Action WinId G}.
Context {Agent0 : GameMode.Agent Action Time G A}.
Context {Action' Reward Weights M A' : Type}.
Context {MDP0 : MDPMode.MDP Action' Reward M}.
Context {Learner0 : MDPMode.Agent Action' Reward Weights M A'}.

Local Abbreviation game_world := (GameMode.world Action Time WinId G A).
Local Abbreviation mdp_world := (MDPMode.world Action' Reward Weights M A').

Lemma run_trial_terminal_at_reset fuel mdp agent (s : mdp_world) m0 :
  MDPMode.mdps s !! mdp = Some m0 →
  MDPMode.is_terminal (MDPMode.mdp_reset m0) = true →
  ∃ s',
    MDPMode._run_trial (S fuel) mdp agent s
    = Returned (MDPMode.timesteps (MDPMode.mdp_reset m0)) s' ∧
    MDPMode.calls s' = MDPMode.calls s ++
      [MDPMode.Reset; MDPMode.IsTerminal true] ∧
    MDPMode.agent_objs s' = MDPMode.agent_objs s.
Proof.
  intros Hm0 Hterm. unfold MDPMode._run_trial.
  erewrite bind_eval by (apply call_reset_Returned; eauto).
  erewrite bind_eval.
  2:{ cbn [MDPMode.trial_loop]. erewrite bind_eval.
      2:{ apply mdp_is_terminal_Returned. exists (MDPMode.mdp_reset m0).
          split; [|done]. apply lookup_insert_eq. }
      reflexivity. }
  eexists. split.
  - apply mdp_attr_Returned. eexists. split; [|done]. apply lookup_insert_eq.
  - simpl. by rewrite <- app_assoc.
Qed.

(** C9: when the environment is terminal right after its reset, the
    episode makes no transition and asks no agent.  A game episode resets
    the game and the agents, tests [is_terminal] once and reads
    [get_winning_id]: no [copy], [search] or [take_action].  An MDP trial
    resets the MDP and tests [is_terminal] once: no [copy],
    [get_next_action], [step] or [update], the agents are as they were, and
    the trial returns [timesteps] as the reset left it. *)
Theorem terminal_after_reset_runs_nothing fuel :
  (∀ game agents time_allowed (s : game_world) v0,
     GameMode.games s !! game = Some v0 →
     GameMode.is_terminal (GameMode.game_reset v0) = true →
     (∀ agent, agent ∈ agents → is_Some (GameMode.agent_objs s !! agent)) →
     ∃ s',
       GameMode._run_game (S fuel) game agents time_allowed s
       = Returned tt s' ∧
       GameMode.calls s' = GameMode.calls s ++
         [GameMode.GameReset] ++ (GameMode.AgentReset <$> agents) ++
         [GameMode.IsTerminal true;
          GameMode.GetWinningId
            (GameMode.get_winning_id (GameMode.game_reset v0))]) ∧
  (∀ mdp agent (s : mdp_world) m0,
     MDPMode.mdps s !! mdp = Some m0 →
     MDPMode.is_terminal (MDPMode.mdp_reset m0) = true →
     ∃ s',
       MDPMode._run_trial (S fuel) mdp agent s
       = Returned (MDPMode.timesteps (MDPMode.mdp_reset m0)) s' ∧
       MDPMode.calls s' = MDPMode.calls s ++
         [MDPMode.Reset; MDPMode.IsTerminal true] ∧
       MDPMode.agent_objs s' = MDPMode.agent_objs s).
Proof.
  split.
  - intros. by apply run_game_terminal_at_reset.
  - intros. by apply run_trial_terminal_at_reset.
Qed.

(** C5: when a run of either driver is over, every snapshot that [copy]
    returned during the run is an object other than the live environment
    and still holds the content it was made with, whatever resets,
    actions and steps were applied to the live environment after the
    copy. *)
Theorem snapshots_keep_their_content fuel :
  (∀ game agents time_allowed num_games (s s' : game_world),
     GameMode.calls s = [] →
     GameMode.run_games fuel game agents time_allowed num_games s
     = Returned tt s' →
     ∀ l v, GameMode.Copy l v ∈ GameMode.calls s' →
       l ≠ game ∧ GameMode.games s' !! l = Some v) ∧
  (∀ mdp agent num_trials (s s' : mdp_world),
     MDPMode.calls s = [] →
     MDPMode.run_mdp fuel mdp agent num_trials s = Returned tt s' →
     ∀ l m, MDPMode.Copy l m ∈ MDPMode.calls s' →
       l ≠ mdp ∧ MDPMode.mdps s' !! l = Some m).
Proof.
  split.
  - intros game agents time_allowed num_games s s' Hnone Hrun.
    eapply run_games_frozen; [exact Hrun|].
    intros l v. rewrite Hnone. by intros ?%elem_of_nil.
  - intros mdp agent num_trials s s' Hnone Hrun.
    eapply run_mdp_frozen; [exact Hrun|].
    intros l m. rewrite Hnone. by intros ?%elem_of_nil.
Qed.
End both_drivers.

(** ** Runs of the stubs *)

Section stub_runs.
Import Stub.

Local Existing Instance three_moves.
Local Existing Instance five_steps.
Local Existing Instance MDPMode.counted_MDP.

Lemma recorder_stable : GameMode.StableId (Agent0 := recorder_Agent).
Proof. by split. Qed.

(** Two agents whose [agent_id] is their position in the list. *)
Definition seated := game_world [Recorder 0 []; Recorder 1 []].

(** Two agents whose [agent_id]s are swapped against their positions. *)
Definition swapped := game_world [Recorder 1 []; Recorder 0 []].

Definition play (s : GameMode.world nat Z Z counting_game recorder) :=
  state_after (GameMode._run_game 10 0 [0; 1]%nat 5 s) s.

Lemma play_seated :
  GameMode._run_game 10 0 [0; 1]%nat 5 seated = Returned tt (play seated).
Proof. vm_compute. reflexivity. Qed.

Lemma seated_ids i agent :
  [0; 1]%nat !! i = Some agent →
  GameMode.id_of seated agent = Some (Z.of_nat i).
Proof. destruct i as [|[|i]]; intros [= <-]; reflexivity. Qed.

Lemma counting_seat (g : counting_game) :
  0 ≤ GameMode.current_agent_id g < 2.
Proof.
  change (0 ≤ Z.of_nat (moves g `mod` 2) < 2).
  pose proof (Nat.mod_upper_bound (moves g) 2). lia.
Qed.

Lemma two_seats : NoDup [0; 1]%nat.
Proof. apply NoDup_cons. split; [set_solver|apply NoDup_singleton]. Qed.

Lemma run_games_rejects_wrong_agent_count_witness :
  length [0%nat] ≠ GameMode.NUM_PLAYERS counting_game ∧
  GameMode.run_games 10 0 [0%nat] 5 1 seated
  = Raised (RuntimeError "Incorrect number of agents for game type.") seated.
Proof.
  split; [simpl; lia|].
  apply run_games_rejects_wrong_agent_count. simpl. lia.
Defined.

(** C2 as stated fails: with the two [agent_id]s swapped against the list
    positions, the agent that searched is notified with [False] and the
    other agent with [True], in every transition of a completed episode.
    Agent 0 searches in the first and third transition and agent 1 in the
    second, and the flags say the opposite. *)
Lemma own_flag_misses_acting_agent :
  GameMode._run_game 10 0 [0; 1]%nat 5 swapped = Returned tt (play swapped) ∧
  GameMode.searches (GameMode.calls (play swapped))
  = [(0, 0); (1, 1); (0, 2)]%nat ∧
  GameMode.notifications 0 (GameMode.calls (play swapped))
  = [(0%nat, false); (1%nat, true); (2%nat, false)] ∧
  GameMode.notifications 1 (GameMode.calls (play swapped))
  = [(0%nat, true); (1%nat, false); (2%nat, true)] ∧
  ¬ (∀ agent, agent ∈ [0; 1]%nat →
       GameMode.notifications agent (GameMode.calls (play swapped))
       = (λ search, (search.2, bool_decide (agent = search.1)))
           <$> GameMode.searches (GameMode.calls (play swapped))).
Proof.
  split_and!; try (vm_compute; reflexivity).
  intros Hall. specialize (Hall 0%nat ltac:(set_solver)).
  vm_compute in Hall. discriminate.
Qed.

Lemma own_flag_marks_acting_agent_witness :
  ∃ new, GameMode.calls (play seated) = GameMode.calls seated ++ new ∧
    (GameMode.searches new).*2 = GameMode.transitions new ∧
    Forall (λ search, search.1 ∈ [0; 1]%nat) (GameMode.searches new) ∧
    (∀ agent, agent ∈ [0; 1]%nat →
       length (GameMode.notifications agent new)
       = length (GameMode.transitions new)) ∧
    (∀ agent, agent ∈ [0; 1]%nat →
       GameMode.notifications agent new
       = (λ search, (search.2, bool_decide (agent = search.1)))
           <$> GameMode.searches new).
Proof.
  destruct (own_flag_marks_acting_agent 10 0 [0; 1]%nat 5 seated
    (play seated) two_seats play_seated)
    as (new & Hc & Hactions & Hlisted & Hcount & Hflags).
  exists new. split_and!; try done.
  apply Hflags.
  - exact recorder_stable.
  - exact seated_ids.
  - intros v _. apply counting_seat.
Defined.

(** Two agents of which the second has an [agent_id] that is not its
    position in the list. *)
Definition odd_ids := game_world [Recorder 0 []; Recorder 5 []].

Definition one_move_played :=
  state_after
    (GameMode._run_game (Game0 := one_move) 10 0 [0; 1]%nat 5 odd_ids) odd_ids.

Definition played_from_the_end :=
  state_after
    (GameMode._run_game (Game0 := from_the_end) 10 0 [0; 1]%nat 5 seated)
    seated.

(** C8 as stated fails in both directions.  In the episode of a game of
    one move, played by agents with the [agent_id]s 0 and 5, the agent that
    searched is notified with [True] in every transition, and yet not every
    [agent_id] is the position in the list: the second agent never moves.
    And in the episode of a game whose [current_agent_id] is [-1], played
    by agents whose [agent_id]s are their positions, [agents[-1]] is the
    second agent: it searches and is notified with [False]. *)
Lemma searcher_flag_not_iff_ids_by_position :
  (GameMode._run_game (Game0 := one_move) 10 0 [0; 1]%nat 5 odd_ids
   = Returned tt one_move_played ∧
   GameMode.searches (GameMode.calls one_move_played) = [(0, 0)]%nat ∧
   GameMode.notifications 0 (GameMode.calls one_move_played)
   = [(0%nat, true)] ∧
   GameMode.notifications 1 (GameMode.calls one_move_played)
   = [(0%nat, false)] ∧
   ¬ (∀ i agent, [0; 1]%nat !! i = Some agent →
        GameMode.id_of odd_ids agent = Some (Z.of_nat i))) ∧
  (GameMode._run_game (Game0 := from_the_end) 10 0 [0; 1]%nat 5 seated
   = Returned tt played_from_the_end ∧
   GameMode.searches (GameMode.calls played_from_the_end) = [(1, 0)]%nat ∧
   GameMode.notifications 1 (GameMode.calls played_from_the_end)
   = [(0%nat, false)] ∧
   GameMode.notifications 0 (GameMode.calls played_from_the_end)
   = [(0%nat, false)] ∧
   ∀ i agent, [0; 1]%nat !! i = Some agent →
     GameMode.id_of seated agent = Some (Z.of_nat i)).
Proof.
  split; split_and!; try (vm_compute; reflexivity).
  - intros Hids. specialize (Hids 1%nat 1%nat eq_refl). discriminate.
  - exact seated_ids.
Qed.

Lemma acting_by_position_flag_by_id_witness :
  ∃ v0 turns w,
    GameMode.games seated !! 0%nat = Some v0 ∧
    GameMode.plays (GameMode.game_reset v0) turns ∧
    GameMode.calls (play seated)
    = GameMode.calls seated ++ GameMode.episode_calls [0; 1]%nat 5 turns w ∧
    Forall (λ tn,
      getitem [0; 1]%nat (GameMode.current_agent_id (GameMode.before tn))
      = Some (GameMode.acting tn) ∧
      GameMode.flags tn
      = GameMode.own_flag (GameMode.id_of seated)
          (GameMode.current_agent_id (GameMode.before tn)) <$> [0; 1]%nat ∧
      ∀ own,
        GameMode.AgentTakeAction (GameMode.acting tn) (GameMode.action tn) own
          ∈ GameMode.turn_calls (WinId := Z) [0; 1]%nat 5 tn →
        (own = true ↔
         GameMode.id_of seated (GameMode.acting tn)
         = Some (GameMode.current_agent_id (GameMode.before tn))))
      turns ∧
    Forall (λ tn, ∀ own,
      GameMode.AgentTakeAction (GameMode.acting tn) (GameMode.action tn) own
        ∈ GameMode.turn_calls (WinId := Z) [0; 1]%nat 5 tn →
      own = true) turns.
Proof.
  destruct (acting_by_position_flag_by_id 10 0 [0; 1]%nat 5 seated
    (play seated) recorder_stable play_seated)
    as (v0 & turns & w & Hv0 & Hplays & Hc & Hturns & Hseated).
  exists v0, turns, w. split_and!; try done.
  apply Hseated; [exact seated_ids|].
  apply Forall_forall. intros tn _. apply counting_seat.
Defined.

Lemma three_move_game_run_witness :
  ∃ s' new vf turns,
    GameMode.run_games 10 0 [0; 1]%nat 5 1 seated = Returned tt s' ∧
    GameMode.calls s' = GameMode.calls seated ++ new ∧
    length (GameMode.transitions new) = 3%nat ∧
    length (GameMode.notifications 0 new) = 3%nat ∧
    length (GameMode.notifications 1 new) = 3%nat ∧
    GameMode.games s' !! 0%nat = Some vf ∧ GameMode.is_terminal vf = true ∧
    GameMode.winners (GameMode.outputs s')
    = GameMode.winners (GameMode.outputs seated)
      ++ [GameMode.get_winning_id vf] ∧
    GameMode.plays (GameMode.game_reset (CountingGame 7)) turns ∧
    length turns = 3%nat ∧
    GameMode.transitions new = GameMode.action <$> turns ∧
    GameMode.searches new
    = (λ tn, (GameMode.acting tn, GameMode.action tn)) <$> turns ∧
    (∀ agent, agent ∈ [0; 1]%nat →
       GameMode.notifications agent new
       = (λ tn, (GameMode.action tn,
                 GameMode.own_flag (GameMode.id_of seated)
                   (GameMode.current_agent_id (GameMode.before tn)) agent))
           <$> turns) ∧
    Forall (λ tn, GameMode.acting tn = 0%nat ∨ GameMode.acting tn = 1%nat)
      turns ∧
    (∀ agent, agent ∈ [0; 1]%nat →
       GameMode.notifications agent new
       = (λ tn, (GameMode.action tn, bool_decide (agent = GameMode.acting tn)))
           <$> turns).
Proof.
  destruct (three_move_game_run moves 10 0 0 1 5 seated (CountingGame 7))
    as (s' & new & vf & turns & Hrun & Hc & Hn & Hn0 & Hn1 & Hvf & Hend & Hw
        & Hplays & Hlen & Hactions & Hsearches & Hflags & Hpaired).
  - exact recorder_stable.
  - reflexivity.
  - reflexivity.
  - reflexivity.
  - reflexivity.
  - exact counting_seat.
  - lia.
  - reflexivity.
  - eexists. reflexivity.
  - eexists. reflexivity.
  - lia.
  - destruct Hpaired as [Hacting Hpairs]; [reflexivity..|].
    exists s', new, vf, turns. split_and!; done.
Defined.

Definition trial (s : MDPMode.world nat float nat (MDPMode.counted float nat) learner) :=
  state_after (MDPMode._run_trial 10 0 0 s) s.

Lemma trial_mdp_world :
  MDPMode._run_trial 10 0 0 mdp_world = Returned 5 (trial mdp_world).
Proof. vm_compute. reflexivity. Qed.

Lemma timesteps_counts_steps_witness :
  ∃ new mf,
    MDPMode.calls (trial mdp_world) = MDPMode.calls mdp_world ++ new ∧
    5 = Z.of_nat (length (MDPMode.steps new)) ∧
    MDPMode.mdps (trial mdp_world) !! 0%nat = Some mf ∧
    MDPMode.timesteps mf = 5 ∧
    MDPMode.updates new = MDPMode.steps new.
Proof.
  apply (timesteps_counts_steps 10 0 0 mdp_world 5 (trial mdp_world)).
  exact trial_mdp_world.
Defined.

Lemma update_sees_step_before_and_after_witness :
  ∃ new, MDPMode.calls (trial mdp_world) = MDPMode.calls mdp_world ++ new ∧
    ∀ learner prev seen_prev live seen_live r action t,
      MDPMode.Update learner prev seen_prev live seen_live r action t ∈ new →
      learner = 0%nat ∧ live = 0%nat ∧ prev ≠ 0%nat ∧
      MDPMode.step action seen_prev = (r, t, seen_live) ∧
      ∃ earlier later,
        new = earlier ++
          [MDPMode.Copy prev seen_prev; MDPMode.Step action r t;
           MDPMode.Update learner prev seen_prev live seen_live r action t]
          ++ later.
Proof.
  apply (update_sees_step_before_and_after 10 0 0 mdp_world 5
    (trial mdp_world)).
  exact trial_mdp_world.
Defined.

Lemma trial_copies_twice_per_step_witness :
  ∃ m0 its,
    MDPMode.mdps mdp_world !! 0%nat = Some m0 ∧
    MDPMode.runs 0 (MDPMode.mdp_reset m0) its ∧
    MDPMode.calls (trial mdp_world)
    = MDPMode.calls mdp_world ++ MDPMode.trial_calls 0 0 its ∧
    ∀ it, it ∈ its →
      MDPMode.mdps (trial mdp_world) !! MDPMode.first_copy it
      = Some (MDPMode.pre it) ∧
      MDPMode.mdps (trial mdp_world) !! MDPMode.second_copy it
      = Some (MDPMode.pre it).
Proof.
  apply (trial_copies_twice_per_step 10 0 0 mdp_world 5 (trial mdp_world)).
  - intros l m Hin. by apply elem_of_nil in Hin.
  - exact trial_mdp_world.
Defined.

Lemma five_step_trial_run_witness :
  ∃ s' new mf af,
    MDPMode.run_mdp 10 0 0 1 mdp_world = Returned tt s' ∧
    MDPMode.agent_objs s' !! 0%nat = Some af ∧
    MDPMode.calls s' = MDPMode.calls mdp_world ++ new ∧
    length (MDPMode.steps new) = 5%nat ∧
    MDPMode.mdps s' !! 0%nat = Some mf ∧
    MDPMode.timesteps mf = 5 ∧ MDPMode.total_reward mf = 5%float ∧
    MDPMode.outputs s' = MDPMode.outputs mdp_world ++
      [MDPMode.Log INFO "Trial {}/{}" [MDPMode.AInt 1; MDPMode.AInt 1];
       MDPMode.Log DEBUG "reward:{}; timesteps:{}"
         [MDPMode.AReward 5%float; MDPMode.AInt 5];
       MDPMode.Log DEBUG "Final agent weights: {}"
         [MDPMode.AWeights (MDPMode.weights af)];
       MDPMode.Log INFO "Trials complete." [];
       MDPMode.Input (newline +:+ "Press enter key to end.")].
Proof.
  apply (five_step_trial_run id 10 0 0 mdp_world
    (MDPMode.Counted 3%nat 7%float 9) (Learner [])).
  - reflexivity.
  - reflexivity.
  - reflexivity.
  - intros action t. split; reflexivity.
  - reflexivity.
  - reflexivity.
  - reflexivity.
  - lia.
Defined.

Definition ended := game_world [Recorder 0 []; Recorder 1 []].

Lemma terminal_after_reset_runs_nothing_witness :
  (∃ s',
     GameMode._run_game (Game0 := over_at_once) 1 0 [0; 1]%nat 5 ended
     = Returned tt s' ∧
     GameMode.calls s' = GameMode.calls ended ++
       [GameMode.GameReset] ++ (GameMode.AgentReset <$> [0; 1]%nat) ++
       [GameMode.IsTerminal true; GameMode.GetWinningId 1]) ∧
  (∃ s',
     MDPMode._run_trial
       (MDP0 := MDPMode.counted_MDP (Task0 := no_steps)) 1 0 0 mdp_world
     = Returned 0 s' ∧
     MDPMode.calls s' = MDPMode.calls mdp_world ++
       [MDPMode.Reset; MDPMode.IsTerminal true] ∧
     MDPMode.agent_objs s' = MDPMode.agent_objs mdp_world).
Proof.
  destruct (terminal_after_reset_runs_nothing
    (Game0 := over_at_once) (Agent0 := recorder_Agent)
    (MDP0 := MDPMode.counted_MDP (Task0 := no_steps))
    (Learner0 := learner_Agent) 0) as [Hgame Hmdp].
  split.
  - apply (Hgame 0%nat [0; 1]%nat 5 ended (CountingGame 7)).
    + reflexivity.
    + reflexivity.
    + intros agent Hagent. apply elem_of_dom. vm_compute. set_solver.
  - apply (Hmdp 0%nat 0%nat mdp_world (MDPMode.Counted 3%nat 7%float 9)).
    + reflexivity.
    + reflexivity.
Defined.

Definition games_played :=
  state_after (GameMode.run_games 10 0 [0; 1]%nat 5 2 seated) seated.
Definition trials_run :=
  state_after (MDPMode.run_mdp 10 0 0 2 mdp_world) mdp_world.

Lemma snapshots_keep_their_content_witness :
  (∀ l v, GameMode.Copy l v ∈ GameMode.calls games_played →
     l ≠ 0%nat ∧ GameMode.games games_played !! l = Some v) ∧
  (∀ l m, MDPMode.Copy l m ∈ MDPMode.calls trials_run →
     l ≠ 0%nat ∧ MDPMode.mdps trials_run !! l = Some m).
Proof.
  destruct (snapshots_keep_their_content
    (Game0 := three_moves) (Agent0 := recorder_Agent)
    (MDP0 := MDPMode.counted_MDP (Task0 := five_steps))
    (Learner0 := learner_Agent) 10) as [Hgame Hmdp].
  split.
  - apply (Hgame 0%nat [0; 1]%nat 5 2 seated games_played).
    + reflexivity.
    + vm_compute. reflexivity.
  - apply (Hmdp 0%nat 0%nat 2 mdp_world trials_run).
    + reflexivity.
    + vm_compute. reflexivity.
Defined.
End stub_runs.

(** * Further properties of the drivers *)

(** ** Game mode *)

Section game_more.
Import GameMode.
Context {Action Time WinId G A : Type}.
Context `{!Game Action WinId G, !Agent Action Time G A}.

Local Abbreviation world := (world Action Time WinId G A).
Local Abbreviation call := (GameMode.call Action Time WinId G).
Local Abbreviation output := (GameMode.output Action WinId G A).
Local Abbreviation turn := (GameMode.turn (Action := Action) (G := G)).
Local Abbreviation present :=
  (GameMode.present (Action := Action) (Time := Time) (WinId := WinId)
     (G := G) (A := A)).
Local Abbreviation quiet :=
  (GameMode.quiet (Action := Action) (Time := Time) (WinId := WinId)
     (G := G) (A := A)).
Local Abbreviation kept :=
  (GameMode.kept (Action := Action) (Time := Time) (WinId := WinId)
     (G := G) (A := A)).
Implicit Types (s : world) (game agent : loc) (agents : list loc).
Implicit Types (time_allowed : Time) (tn : turn) (turns : list turn).
Implicit Types (w : WinId) (eps : list (list turn * WinId)).

Ltac inv_game H :=
  cbv beta in H;
  lazymatch type of H with
  | bind _ _ _ = Returned _ _ =>
      let x := fresh "x" in
      let s := fresh "s" in
      let H1 := fresh "Hrun" in
      let H2 := fresh "Hrun" in
      apply bind_Returned in H as (x & s & H1 & H2);
      lazymatch type of x with unit => destruct x | _ => idtac end;
      inv_game H1; inv_game H2
  | ret _ _ = Returned _ _ => unfold ret in H; simplify_eq
  | log _ _ _ _ = Returned _ _ => apply log_Returned in H; subst
  | input _ _ = Returned _ _ =>
      apply input_Returned in H as [[? ?] ?]; subst
  | game_attr _ _ _ = Returned _ _ =>
      apply game_attr_Returned in H as (? & ? & ? & ?); subst
  | agent_attr _ _ _ = Returned _ _ =>
      apply agent_attr_Returned in H as (? & ? & ? & ?); subst
  | call_game_reset _ _ = Returned _ _ =>
      apply call_game_reset_Returned in H as (? & ? & ?); subst
  | call_is_terminal _ _ = Returned _ _ =>
      apply call_is_terminal_Returned in H as (? & ? & ? & ?); subst
  | call_copy _ _ = Returned _ _ =>
      apply call_copy_Returned in H as (? & ? & ? & ?); subst
  | call_game_take_action _ _ _ = Returned _ _ =>
      apply call_game_take_action_Returned in H as (? & ? & ?); subst
  | call_get_winning_id _ _ = Returned _ _ =>
      apply call_get_winning_id_Returned in H as (? & ? & ? & ?); subst
  | call_agent_reset _ _ = Returned _ _ =>
      apply call_agent_reset_Returned in H as (? & ? & ?); subst
  | call_search _ _ _ _ = Returned _ _ =>
      apply call_search_Returned in H as (? & ? & ? & ? & ? & ?); subst
  | call_agent_take_action _ _ _ _ = Returned _ _ =>
      apply call_agent_take_action_Returned in H as (? & ? & ?); subst
  | subscript _ _ _ = Returned _ _ =>
      apply subscript_Returned in H as (? & ?); subst
  | _ => idtac
  end.


(** X1: with the right number of agents and [num_games <= 0] no game is
    played: [range(num_games)] is empty, so [run_games] calls no method of
    the game or of an agent, needs no pass of a loop, and only logs
    "Games complete" and prompts for the enter key.  It returns when a
    line can be read and ends with [EOFError] at the end of the input. *)
Theorem run_games_without_games
    fuel game agents time_allowed num_games s :
  length agents = NUM_PLAYERS G → num_games ≤ 0 →
  run_games fuel game agents time_allowed num_games s
  = after_input (stdin s)
      (set_stdin (tail (stdin s))
         (add_output (Input (newline +:+ "Press enter key to end."))
            (add_output (Log INFO "Games complete" []) s))).
Proof.
  intros Hlen Hn. unfold run_games.
  rewrite bool_decide_false by (by intros ?).
  rewrite range_nonpositive by done.
  rewrite (bind_eval _ _ s tt s) by done.
  erewrite bind_eval by (by apply log_Returned).
  by rewrite enter_key.
Qed.

(** *** Where a run can end *)

Lemma game_loop_safe game agents time_allowed :
  (∀ v, is_terminal v = false → is_Some (getitem agents (current_agent_id v))) →
  ∀ fuel s, present game agents s →
  (∃ s', game_loop fuel game agents time_allowed s = Returned tt s') ∨
  game_loop fuel game agents time_allowed s = Unfinished.
Proof.
  intros Hseat. induction fuel as [|fuel IH]; intros s [[v Hv] Hin]; simpl;
    [by right|].
  erewrite bind_eval by (apply call_is_terminal_Returned; eauto).
  destruct (is_terminal v) eqn:Hterm; [left; by eexists|].
  destruct (Hseat v Hterm) as [p Hp].
  destruct (game_turn_progress game agents time_allowed
    (add_call (IsTerminal false) s) v p) as [s1 Hs1]; [done..|].
  erewrite bind_eval by exact Hs1. apply IH.
  apply game_turn_Returned in Hs1
    as (tn & _ & _ & _ & _ & _ & _ & Hg & _ & Hd & _ & _).
  split.
  - rewrite Hg, lookup_insert_eq. by eexists.
  - by eapply present_dom.
Qed.


Lemma run_game_safe fuel game agents time_allowed s :
  (∀ v, is_terminal v = false → is_Some (getitem agents (current_agent_id v))) →
  present game agents s →
  (∃ s', _run_game fuel game agents time_allowed s = Returned tt s') ∨
  _run_game fuel game agents time_allowed s = Unfinished.
Proof.
  intros Hseat [[v0 Hv0] Hin]. unfold _run_game.
  erewrite bind_eval by (apply call_game_reset_Returned; eauto).
  edestruct (reset_agents_progress (WinId := WinId) agents) as [s1 Hs1];
    last first.
  { erewrite bind_eval by exact Hs1.
    apply reset_agents_Returned in Hs1 as (Hg & _ & Hd & Hin1 & _ & _).
    simpl in Hg, Hd, Hin1.
    destruct (game_loop_safe game agents time_allowed Hseat fuel s1)
      as [[s2 Hs2]|Hun].
    { split; [|by eapply present_dom].
      rewrite Hg, lookup_insert_eq. by eexists. }
    - left. erewrite bind_eval by exact Hs2.
      apply game_loop_Returned in Hs2 as (v & turns & _ & _ & Hg2 & _).
      erewrite bind_eval by (apply call_get_winning_id_Returned; eauto).
      erewrite bind_eval by (by apply log_Returned).
      erewrite bind_eval by (apply game_attr_Returned; eauto).
      eexists. by apply log_Returned.
    - right. by apply bind_Unfinished. }
  simpl. exact Hin.
Qed.



(** X4: when the game, right after its reset, is not over and names a
    player index that is not a valid subscript of [agents] ([len(agents)]
    or more, or below [-len(agents)]), [_run_game] ends with the
    [IndexError] of [agents[game.current_agent_id]].  By then the game and
    every agent have been reset and [is_terminal] has been asked once; no
    snapshot has been made and no agent has searched. *)
Theorem run_game_seat_out_of_range
    fuel game agents time_allowed s v0 :
  games s !! game = Some v0 →
  (∀ agent, agent ∈ agents → is_Some (agent_objs s !! agent)) →
  is_terminal (game_reset v0) = false →
  Z.of_nat (length agents) ≤ current_agent_id (game_reset v0) ∨
  current_agent_id (game_reset v0) < - Z.of_nat (length agents) →
  ∃ s',
    _run_game (S fuel) game agents time_allowed s = Raised IndexError s' ∧
    calls s' = calls s ++
      [GameReset] ++ (AgentReset <$> agents) ++ [IsTerminal false] ∧
    games s' = <[game := game_reset v0]> (games s).
Proof.
  intros Hv0 Hin Hterm Hseat. unfold _run_game.
  erewrite bind_eval by (apply call_game_reset_Returned; eauto).
  edestruct (reset_agents_progress (WinId := WinId) agents) as [s1 Hs1];
    last first.
  { erewrite bind_eval by exact Hs1.
    apply reset_agents_Returned in Hs1 as (Hg & _ & _ & _ & Hc & _).
    simpl in Hg, Hc.
    assert (games s1 !! game = Some (game_reset v0)) as Hv1
      by (rewrite Hg; apply lookup_insert_eq).
    exists (add_call (IsTerminal false) s1). split_and!.
    - apply bind_Raised. left. simpl.
      erewrite bind_eval by (apply call_is_terminal_Returned; eauto).
      rewrite Hterm. apply bind_Raised. left. unfold game_turn.
      erewrite bind_eval by (apply game_attr_Returned; eauto).
      apply bind_Raised. left. unfold subscript.
      by rewrite (proj2 (getitem_None _ _) Hseat).
    - simpl. rewrite Hc. by rewrite <- !app_assoc.
    - done. }
  simpl. exact Hin.
Qed.


(** X6: the driver itself never ends a game: only [game.is_terminal()]
    does, and [time_allowed] is handed to [search] and not otherwise used.
    On a game that is never over, [_run_game] is still inside its loop
    after any number of tests of the loop condition. *)
Theorem run_game_without_end fuel game agents time_allowed s :
  (∀ v : G, is_terminal v = false) →
  (∀ v : G,
     - Z.of_nat (length agents) ≤ current_agent_id v
     < Z.of_nat (length agents)) →
  is_Some (games s !! game) →
  (∀ agent, agent ∈ agents → is_Some (agent_objs s !! agent)) →
  _run_game fuel game agents time_allowed s = Unfinished.
Proof.
  intros Hnever Hseat Hgame Hin.
  destruct (run_game_safe fuel game agents time_allowed s)
    as [[s' Hs']|Hun]; [|done| |done].
  - intros v _. by apply getitem_is_Some.
  - apply run_game_Returned in Hs' as (v0 & turns & _ & _ & _ & Hend & _).
    by rewrite Hnever in Hend.
Qed.

(** *** What a run shows at level INFO, and which agents it touches *)

Local Instance quiet_preorder : PreOrder quiet.
Proof.
  split; [by intros ?|]. unfold quiet. intros s1 s2 s3 H12 H23. congruence.
Qed.

Local Instance kept_preorder agents : PreOrder (kept agents).
Proof.
  split; [by intros ? ?|]. intros s1 s2 s3 H12 H23 a Ha.
  by rewrite H23, H12.
Qed.

Lemma shown_at_info_app (os1 os2 : list output) :
  shown_at_info (os1 ++ os2) = shown_at_info os1 ++ shown_at_info os2.
Proof. apply omap_app. Qed.

Lemma log_debug_quiet template args : keeps quiet (log DEBUG template args).
Proof.
  intros s [] s' ->%log_Returned. unfold quiet. simpl.
  rewrite shown_at_info_app. simpl. by rewrite app_nil_r.
Qed.

Ltac run_of_call H :=
  let x := fresh "x" in
  intros ? x ? H;
  try (lazymatch type of x with unit => destruct x end);
  inv_game H.

Ltac quiet_call := let H := fresh in run_of_call H; unfold quiet; done.

Lemma advance_by_action_quiet game agents action :
  keeps quiet (_advance_by_action game agents action).
Proof.
  unfold _advance_by_action.
  repeat first
    [ apply log_debug_quiet
    | apply keeps_bind; [apply _| |intros ?]
    | apply keeps_foreach; [apply _|intros ? _]
    | quiet_call ].
Qed.

Lemma game_turn_quiet game agents time_allowed :
  keeps quiet (game_turn game agents time_allowed).
Proof.
  unfold game_turn.
  repeat first
    [ apply advance_by_action_quiet
    | apply log_debug_quiet
    | apply keeps_bind; [apply _| |intros ?]
    | quiet_call ].
Qed.

Lemma game_loop_quiet fuel game agents time_allowed :
  keeps quiet (game_loop fuel game agents time_allowed).
Proof.
  induction fuel as [|fuel IH]; simpl; [done|].
  apply keeps_bind; [apply _|quiet_call|].
  intros [|]; [apply keeps_ret; apply _|].
  apply keeps_bind; [apply _|apply game_turn_quiet|by intros _].
Qed.

Lemma run_game_shown fuel game agents time_allowed s s' :
  _run_game fuel game agents time_allowed s = Returned tt s' →
  ∃ vf, games s' !! game = Some vf ∧
    shown_at_info (outputs s') = shown_at_info (outputs s) ++
      [Log INFO "Winning agent is {}" [AWinner (get_winning_id vf)]].
Proof.
  unfold _run_game. intros Hrun.
  apply bind_Returned in Hrun as ([] & s1 & H1 & Hrun).
  apply bind_Returned in Hrun as ([] & s2 & H2 & Hrun).
  apply bind_Returned in Hrun as ([] & s3 & H3 & Hrun).
  assert (quiet s s3) as Hquiet.
  { transitivity s1; [by inv_game H1|]. transitivity s2.
    - revert H2. apply keeps_foreach; [apply _|]. intros agent _.
      repeat first
        [ apply log_debug_quiet
        | apply keeps_bind; [apply _| |intros ?]
        | quiet_call ].
    - revert H3. apply game_loop_quiet. }
  inv_game Hrun.
  repeat match goal with
  | H : games _ !! _ = _ |- _ => progress simpl in H
  end.
  simplify_eq. eexists. split; [done|]. simpl.
  rewrite !shown_at_info_app, Hquiet. simpl. by rewrite app_nil_r.
Qed.

Ltac kept_call :=
  let H := fresh in
  run_of_call H; intros ? ?; simpl;
  first [done | apply lookup_insert_ne; by intros ->].

Lemma advance_by_action_kept game agents action :
  keeps (kept agents) (_advance_by_action game agents action).
Proof.
  unfold _advance_by_action.
  repeat first
    [ apply keeps_bind; [apply _| |intros ?]
    | apply keeps_foreach; [apply _|intros ? ?]
    | kept_call ].
Qed.

Lemma game_turn_kept game agents time_allowed :
  keeps (kept agents) (game_turn game agents time_allowed).
Proof.
  unfold game_turn.
  apply keeps_bind; [apply _|kept_call|intros c].
  apply (keeps_bind_with _ (λ agent, agent ∈ agents)).
  { intros s agent s1 [Hagent ->]%subscript_Returned.
    split; [by eapply getitem_elem_of|reflexivity]. }
  intros current_agent Hcurrent.
  repeat first
    [ apply advance_by_action_kept
    | apply keeps_bind; [apply _| |intros ?]
    | kept_call ].
Qed.

Lemma game_loop_kept fuel game agents time_allowed :
  keeps (kept agents) (game_loop fuel game agents time_allowed).
Proof.
  induction fuel as [|fuel IH]; simpl; [done|].
  apply keeps_bind; [apply _|kept_call|].
  intros [|]; [apply keeps_ret; apply _|].
  apply keeps_bind; [apply _|apply game_turn_kept|by intros _].
Qed.

Lemma run_game_kept fuel game agents time_allowed :
  keeps (kept agents) (_run_game fuel game agents time_allowed).
Proof.
  unfold _run_game.
  repeat first
    [ apply game_loop_kept
    | apply keeps_bind; [apply _| |intros ?]
    | apply keeps_foreach; [apply _|intros ? ?]
    | kept_call ].
Qed.

(** *** A run is a sequence of episodes *)

Lemma play_games_Returned fuel game agents time_allowed n (ixs : list Z) s s' :
  foreach (λ i,
    log INFO "Game {}/{}" [AInt (i + 1); AInt n] ;;;
    _run_game fuel game agents time_allowed) ixs s = Returned tt s' →
  ∃ eps, length eps = length ixs ∧
    (∀ v0, games s !! game = Some v0 → episodes v0 eps) ∧
    Forall (λ ep, Forall (turn_ok agents) ep.1) eps ∧
    calls s' = calls s ++
      flat_map (λ ep, episode_calls agents time_allowed ep.1 ep.2) eps ∧
    shown_at_info (outputs s') = shown_at_info (outputs s) ++
      flat_map (λ iw, game_lines n iw.1 iw.2) (zip ixs eps.*2).
Proof.
  revert s. induction ixs as [|i ixs IH]; simpl; intros s Hrun.
  - injection Hrun as <-. exists []. simpl. by rewrite !app_nil_r.
  - apply bind_Returned in Hrun as ([] & s1 & Hgame & Hrest).
    apply bind_Returned in Hgame as ([] & s0 & ->%log_Returned & Hgame).
    destruct (run_game_shown _ _ _ _ _ _ Hgame) as (vf & Hvf & Hshown).
    apply run_game_Returned in Hgame
      as (v0 & turns & Hv0 & Hplays & Hvf' & Hend & Hok & Hc & _).
    apply IH in Hrest as (eps & Hlen & Heps & Hoks & Hcs & Hshowns).
    simpl in Hv0, Hc, Hshown. rewrite shown_at_info_app in Hshown.
    simpl in Hshown. simplify_eq.
    exists ((turns, get_winning_id (outcome_of (game_reset v0) turns)) :: eps).
    simpl. split_and!.
    + by rewrite Hlen.
    + intros v Hv. simplify_eq. split_and!; try done. by apply Heps.
    + by constructor.
    + rewrite Hcs, Hc, <- app_assoc. reflexivity.
    + rewrite Hshowns, Hshown, <- !app_assoc. reflexivity.
Qed.

(** X7: a completed [run_games] is [num_games] episodes, one after the
    other on the same game object.  Every episode starts from
    [game.reset()] of whatever the episode before left (a reset of the
    game, then of every agent in list order), takes its turns (each
    [is_terminal],
    [copy], [search] by [agents[current_agent_id]], [game.take_action] and
    the notification of every agent in list order) until the game is over,
    and ends with [get_winning_id] on the final content. *)
Theorem run_games_plays_episodes
    fuel game agents time_allowed num_games s s' :
  run_games fuel game agents time_allowed num_games s = Returned tt s' →
  ∃ eps, length eps = Z.to_nat num_games ∧
    (∀ v0, games s !! game = Some v0 → episodes v0 eps) ∧
    Forall (λ ep, Forall (turn_ok agents) ep.1) eps ∧
    calls s' = calls s ++
      flat_map (λ ep, episode_calls agents time_allowed ep.1 ep.2) eps.
Proof.
  unfold run_games. case_bool_decide; [done|]. intros Hrun.
  apply bind_Returned in Hrun as ([] & s1 & Hgames & Hrun).
  inv_game Hrun.
  apply play_games_Returned in Hgames as (eps & Hlen & Heps & Hok & Hc & _).
  exists eps. by rewrite Hlen, range_length.
Qed.

(** X8: what a completed [run_games] shows when the logger is at level
    INFO: for the game numbered [i] of [num_games], counted from one, the
    line "Game i/num_games" and then the line "Winning agent is w", where
    [w] is [get_winning_id] of the content the game ended with; after the
    last game "Games complete" and the prompt of [input].  Every other
    message of the driver is at level DEBUG. *)
Theorem run_games_info_output
    fuel game agents time_allowed num_games s s' :
  run_games fuel game agents time_allowed num_games s = Returned tt s' →
  ∃ eps, length eps = Z.to_nat num_games ∧
    (∀ v0, games s !! game = Some v0 → episodes v0 eps) ∧
    shown_at_info (outputs s') = shown_at_info (outputs s) ++
      flat_map (λ iw, game_lines num_games iw.1 iw.2)
        (zip (range num_games) eps.*2) ++
      [Log INFO "Games complete" [];
       Input (newline +:+ "Press enter key to end.")].
Proof.
  unfold run_games. case_bool_decide; [done|]. intros Hrun.
  apply bind_Returned in Hrun as ([] & s1 & Hgames & Hrun).
  inv_game Hrun.
  apply play_games_Returned in Hgames as (eps & Hlen & Heps & _ & _ & Hshown).
  exists eps. split_and!; [by rewrite Hlen, range_length|done|].
  simpl. rewrite !shown_at_info_app, Hshown. simpl.
  by rewrite <- !app_assoc.
Qed.

Lemma episode_receivers agents time_allowed turns w c a :
  Forall (turn_ok agents) turns →
  c ∈ episode_calls agents time_allowed turns w →
  receiver c = Some a → a ∈ agents.
Proof.
  intros Hok Hin Hc. unfold episode_calls in Hin.
  apply elem_of_app in Hin as [Hin|Hin];
    [apply list_elem_of_singleton in Hin; by subst|].
  apply elem_of_app in Hin as [Hin|Hin].
  { apply list_elem_of_fmap in Hin as (agent & -> & Hagent).
    by injection Hc as <-. }
  apply elem_of_app in Hin as [Hin|Hin]; last first.
  { repeat (apply elem_of_cons in Hin as [->|Hin]; [done|]).
    by apply elem_of_nil in Hin. }
  apply list_elem_of_In, in_flat_map in Hin as (tn & Htn & Hin).
  apply list_elem_of_In in Htn, Hin.
  rewrite Forall_forall in Hok. destruct (Hok _ Htn) as [Hacting _].
  apply elem_of_cons in Hin as [->|Hin]; [done|].
  unfold turn_calls in Hin. apply elem_of_app in Hin as [Hin|Hin].
  - repeat (apply elem_of_cons in Hin as [->|Hin]; [simplify_eq|]);
      try by apply elem_of_nil in Hin.
    simpl in Hc. injection Hc as <-. by eapply getitem_elem_of.
  - apply elem_of_lookup_zip_with in Hin as (i & agent & own & -> & Hi & _).
    injection Hc as <-. by eapply list_elem_of_lookup_2.
Qed.

(** X9: [run_games] only ever calls the agents it was given.  In a
    completed run every [reset], [search] and [take_action] is made on an
    agent of the list, and no other agent object has changed. *)
Theorem run_games_touches_listed_agents_only
    fuel game agents time_allowed num_games s s' :
  run_games fuel game agents time_allowed num_games s = Returned tt s' →
  (∀ a, a ∉ agents → agent_objs s' !! a = agent_objs s !! a) ∧
  ∃ new, calls s' = calls s ++ new ∧
    ∀ c a, c ∈ new → receiver c = Some a → a ∈ agents.
Proof.
  unfold run_games. case_bool_decide; [done|]. intros Hrun.
  apply bind_Returned in Hrun as ([] & s1 & Hgames & Hrun).
  inv_game Hrun. split.
  - change (kept agents s s1). revert Hgames.
    apply keeps_foreach; [apply _|]. intros i _.
    apply keeps_bind; [apply _|kept_call|intros _]. apply run_game_kept.
  - apply play_games_Returned in Hgames as (eps & _ & _ & Hok & Hc & _).
    eexists. split; [exact Hc|]. intros c a Hin Hrec.
    apply list_elem_of_In, in_flat_map in Hin as (ep & Hep & Hin).
    apply list_elem_of_In in Hep, Hin.
    rewrite Forall_forall in Hok.
    by eapply episode_receivers; [apply (Hok _ Hep)|..].
Qed.

(** *** Notifications *)

Lemma notified_per_turn (action : Action) agent agents flags :
  length flags = length agents →
  length (notifications (Time := Time) (WinId := WinId) (G := G) agent
    (zip_with (λ agent' own, AgentTakeAction agent' action own) agents flags))
  = length (filter (.= agent) agents).
Proof.
  revert flags. induction agents as [|agent' agents IH];
    intros [|own flags] Hlen; try done.
  injection Hlen as Hlen. specialize (IH _ Hlen).
  rewrite filter_cons. unfold notifications in *. simpl.
  destruct (decide (agent' = agent)); simpl; [f_equal|]; exact IH.
Qed.

Lemma notified_per_episode agent agents time_allowed turns w :
  Forall (turn_ok agents) turns →
  length (notifications agent (episode_calls agents time_allowed turns w))
  = (length (filter (.= agent) agents) * length turns)%nat.
Proof.
  intros Hok. unfold episode_calls.
  rewrite !notifications_app, notifications_resets. simpl.
  rewrite length_app. simpl. rewrite Nat.add_0_r.
  induction Hok as [|tn turns [_ Hlen] _ IH]; simpl; [lia|].
  change (notifications agent
    (IsTerminal false :: turn_calls agents time_allowed tn ++
     flat_map (λ tn, IsTerminal false :: turn_calls agents time_allowed tn)
       turns))
    with (notifications agent
      (turn_calls agents time_allowed tn ++
       flat_map (λ tn, IsTerminal false :: turn_calls agents time_allowed tn)
         turns)).
  rewrite notifications_app, length_app, IH.
  change (notifications agent (turn_calls agents time_allowed tn))
    with (notifications agent
      (zip_with (λ agent' own,
         AgentTakeAction (Time := Time) (WinId := WinId) (G := G)
           agent' (action tn) own) agents (flags tn))).
  rewrite (notified_per_turn _ _ _ _ Hlen). lia.
Qed.

(** X10: how often an agent is notified does not depend on any
    [agent_id].  In a completed [run_games] the number of [take_action]
    notifications made on an agent object is the number of state
    transitions of the game times the number of positions the object has
    in [agents]: once per transition for an agent listed once, twice for
    an object listed twice, never for an object that is not listed. *)
Theorem notified_once_per_seat_and_transition
    fuel game agents time_allowed num_games s s' :
  run_games fuel game agents time_allowed num_games s = Returned tt s' →
  ∃ new, calls s' = calls s ++ new ∧
    ∀ agent,
      length (notifications agent new)
      = (length (filter (.= agent) agents) * length (transitions new))%nat.
Proof.
  unfold run_games. case_bool_decide; [done|]. intros Hrun.
  apply bind_Returned in Hrun as ([] & s1 & Hgames & Hrun).
  inv_game Hrun.
  apply play_games_Returned in Hgames as (eps & _ & _ & Hok & Hc & _).
  eexists. split; [exact Hc|]. intros agent. clear Hc.
  induction Hok as [|ep eps Hep _ IH]; [simpl; lia|]. cbn [flat_map].
  rewrite notifications_app, transitions_app, !length_app, IH.
  rewrite (notified_per_episode _ _ _ _ _ Hep), transitions_episode.
  rewrite length_fmap. lia.
Qed.

(** X11: [_advance_by_action] on its own.  It needs no valid player
    index: it does not subscript [agents], so it returns whenever the
    objects exist.  It logs the player index and the action, applies the
    action to the game once and then notifies every entry of [agents], in
    list order, with that action; the flag of an agent is the comparison
    of its [agent_id] with the [current_agent_id] the game had before the
    action was applied, also when applying the action has changed it. *)
Theorem advance_by_action_effect game agents action s v :
  StableId →
  games s !! game = Some v →
  (∀ agent, agent ∈ agents → is_Some (agent_objs s !! agent)) →
  ∃ s', _advance_by_action game agents action s = Returned tt s' ∧
    games s' = <[game := game_take_action action v]> (games s) ∧
    calls s' = calls s ++
      GameTakeAction action ::
      ((λ agent,
          AgentTakeAction agent action
            (own_flag (id_of s) (current_agent_id v) agent)) <$> agents) ∧
    outputs s' = outputs s ++
      [Log DEBUG "Agent {} action {}"
         [AInt (current_agent_id v); AAction action]].
Proof.
  intros Hstable Hv Hin. unfold _advance_by_action.
  erewrite bind_eval by (apply game_attr_Returned; eauto).
  erewrite bind_eval by (by apply log_Returned).
  erewrite bind_eval by (apply game_attr_Returned; eauto).
  erewrite bind_eval by (apply call_game_take_action_Returned; eauto).
  lazymatch goal with
  | |- ∃ s', foreach _ _ ?s0 = _ ∧ _ =>
      destruct (notify_progress action (current_agent_id v) agents s0)
        as [s' Hs']; [exact Hin|]
  end.
  exists s'. split; [exact Hs'|].
  apply notify_Returned in Hs' as (Hg & Ho & _ & _ & flags & _ & Hc & Hst).
  destruct (Hst Hstable) as [_ ->]. split_and!; [done| |done].
  rewrite Hc, zip_with_fmap_r, zip_with_diag. simpl.
  by rewrite <- app_assoc.
Qed.
End game_more.

(** ** MDP mode *)

Section mdp_more.
Import MDPMode.
Context {Action Reward Weights M A : Type}.
Context `{!MDP Action Reward M, !Agent Action Reward Weights M A}.

Local Abbreviation world := (world Action Reward Weights M A).
Local Abbreviation call := (MDPMode.call Action Reward M).
Local Abbreviation output := (MDPMode.output Reward Weights).
Local Abbreviation iteration :=
  (MDPMode.iteration (Action := Action) (Reward := Reward) (M := M)).
Local Abbreviation present :=
  (MDPMode.present (Action := Action) (Reward := Reward) (Weights := Weights)
     (M := M) (A := A)).
Implicit Types (s : world) (mdp agent : loc) (it : iteration)
  (its : list iteration) (tr : list (list iteration)).

(** X12: with [num_trials <= 0] no trial is run: [run_mdp] calls no
    method of the MDP or of the agent, needs no pass of a loop, and logs
    the weights of the agent as it was given, then "Trials complete.",
    and prompts for the enter key.  It returns when a line can be read and
    ends with [EOFError] at the end of the input. *)
Theorem run_mdp_without_trials fuel mdp agent num_trials s a :
  agent_objs s !! agent = Some a → num_trials ≤ 0 →
  run_mdp fuel mdp agent num_trials s
  = after_input (stdin s)
      (set_stdin (tail (stdin s))
         (add_output (Input (newline +:+ "Press enter key to end."))
            (add_output (Log INFO "Trials complete." [])
               (add_output
                  (Log DEBUG "Final agent weights: {}"
                     [AWeights (weights a)])
                  s)))).
Proof.
  intros Ha Hn. unfold run_mdp. rewrite range_nonpositive by done.
  rewrite (bind_eval _ _ s tt s) by done.
  erewrite bind_eval by (apply learner_attr_Returned; eauto).
  erewrite bind_eval by (by apply mdp_log_Returned).
  erewrite bind_eval by (by apply mdp_log_Returned).
  by rewrite mdp_enter_key.
Qed.

(** *** Where a run can end *)

Lemma trial_loop_safe mdp agent fuel s :
  present mdp agent s →
  (∃ s', trial_loop fuel mdp agent s = Returned tt s') ∨
  trial_loop fuel mdp agent s = Unfinished.
Proof.
  revert s. induction fuel as [|fuel IH]; intros s [[m Hm] Hagent]; simpl;
    [by right|].
  erewrite bind_eval by (apply mdp_is_terminal_Returned; eauto).
  destruct (is_terminal m) eqn:Hterm; [left; by eexists|].
  destruct (trial_step_progress mdp agent (add_call (IsTerminal false) s) m)
    as [s1 Hs1]; [done..|].
  erewrite bind_eval by exact Hs1. apply IH.
  apply trial_step_Returned in Hs1
    as (it & a & _ & _ & _ & _ & _ & _ & _ & _ & _ & _ & Hms & _ & Hobjs).
  split.
  - rewrite Hms, lookup_insert_eq. by eexists.
  - rewrite Hobjs, lookup_insert_eq. by eexists.
Qed.


Lemma run_trial_safe fuel mdp agent s :
  present mdp agent s →
  (∃ n s', _run_trial fuel mdp agent s = Returned n s') ∨
  _run_trial fuel mdp agent s = Unfinished.
Proof.
  intros [[m0 Hm0] Hagent]. unfold _run_trial.
  erewrite bind_eval by (apply call_reset_Returned; eauto).
  destruct (trial_loop_safe mdp agent fuel
    (add_call Reset (set_mdps (<[mdp := mdp_reset m0]> (mdps s)) s)))
    as [[s1 Hs1]|Hun].
  { split; [|done]. cbn [mdps add_call set_mdps].
    rewrite lookup_insert_eq. by eexists. }
  - left. erewrite bind_eval by exact Hs1.
    apply trial_loop_Returned in Hs1 as (m & its & _ & _ & Hend & _).
    eexists _, _. apply mdp_attr_Returned. eauto.
  - right. by apply bind_Unfinished.
Qed.


(** X15: the driver itself never ends a trial: only [mdp.is_terminal()]
    does; the terminal flag that [step] returns is handed to [update] and
    not otherwise used.  On an MDP that is never terminal, [_run_trial] is
    still inside its loop after any number of tests of the loop
    condition. *)
Theorem run_trial_without_end fuel mdp agent s :
  (∀ m : M, is_terminal m = false) →
  is_Some (mdps s !! mdp) → is_Some (agent_objs s !! agent) →
  _run_trial fuel mdp agent s = Unfinished.
Proof.
  intros Hnever Hmdp Hagent.
  destruct (run_trial_safe fuel mdp agent s) as [(n & s' & Hs')|Hun];
    [done| |done].
  apply run_trial_Returned in Hs' as (m0 & its & _ & _ & _ & Hend & _).
  by rewrite Hnever in Hend.
Qed.

(** *** What the agent learns *)

Lemma learn_app a its1 its2 :
  learn a (its1 ++ its2) = learn (learn a its1) its2.
Proof. apply foldl_app. Qed.

Lemma chooses_app a its1 its2 :
  chooses a (its1 ++ its2) ↔ chooses a its1 ∧ chooses (learn a its1) its2.
Proof.
  revert a. induction its1 as [|it its1 IH]; intros a; simpl; [naive_solver|].
  rewrite IH. naive_solver.
Qed.

Lemma trial_loop_learns fuel mdp agent s s' :
  trial_loop fuel mdp agent s = Returned tt s' →
  ∃ m its,
    mdps s !! mdp = Some m ∧
    runs mdp m its ∧
    mdps s' !! mdp = Some (end_of m its) ∧
    is_terminal (end_of m its) = true ∧
    calls s' = calls s ++
      flat_map (iteration_calls mdp agent) its ++ [IsTerminal true] ∧
    outputs s' = outputs s ∧
    ∀ a0, agent_objs s !! agent = Some a0 →
      chooses a0 its ∧
      agent_objs s' = <[agent := learn a0 its]> (agent_objs s).
Proof.
  revert s. induction fuel as [|fuel IH]; simpl; intros s Hrun; [done|].
  apply bind_Returned in Hrun as (t & s1 & H1 & Hrun).
  apply mdp_is_terminal_Returned in H1 as (m & Hm & -> & ->).
  destruct (is_terminal m) eqn:Hterm.
  - unfold ret in Hrun. injection Hrun as <-. exists m, [].
    split_and!; try done.
    intros a0 Ha0. split; [done|]. simpl. by rewrite insert_id.
  - apply bind_Returned in Hrun as ([] & s2 & Hstep & Hloop).
    apply trial_step_Returned in Hstep
      as (it & a & Hpre & Ha & Hstep & Hchosen & _ & _ & Hne12 & Hne1 & Hne2
          & Hc & Hms & Ho & Hobjs).
    apply IH in Hloop
      as (m' & its & Hm' & Hruns & Hend & Hfin & Hc' & Ho' & Hlearn).
    cbn [mdps agent_objs calls outputs add_call]
      in Hpre, Ha, Hc, Hms, Ho, Hobjs.
    rewrite Hms, lookup_insert_eq in Hm'. simplify_eq.
    exists (pre it), (it :: its). cbn [runs end_of foldl flat_map].
    split_and!; try done.
    + rewrite Hc', Hc. unfold iteration_calls. cbn [tail].
      by rewrite <- !app_assoc.
    + congruence.
    + intros a0 Ha0. assert (a0 = a) as -> by congruence.
      destruct (Hlearn (taught a it)) as [Hchooses Hobjs'].
      { rewrite Hobjs. apply lookup_insert_eq. }
      split; [done|].
      rewrite Hobjs', Hobjs. cbn [learn foldl]. apply insert_insert_eq.
Qed.

Lemma run_trial_learns fuel mdp agent s n s' :
  _run_trial fuel mdp agent s = Returned n s' →
  ∃ m0 its,
    mdps s !! mdp = Some m0 ∧
    runs mdp (mdp_reset m0) its ∧
    mdps s' !! mdp = Some (end_of (mdp_reset m0) its) ∧
    is_terminal (end_of (mdp_reset m0) its) = true ∧
    n = timesteps (end_of (mdp_reset m0) its) ∧
    calls s' = calls s ++ trial_calls mdp agent its ∧
    outputs s' = outputs s ∧
    ∀ a0, agent_objs s !! agent = Some a0 →
      chooses a0 its ∧
      agent_objs s' = <[agent := learn a0 its]> (agent_objs s).
Proof.
  unfold _run_trial. intros Hrun.
  apply bind_Returned in Hrun as ([] & s1 & H1 & Hrun).
  apply call_reset_Returned in H1 as (m0 & Hm0 & ->).
  apply bind_Returned in Hrun as ([] & s2 & Hloop & Hrun).
  apply mdp_attr_Returned in Hrun as (mf & Hmf & -> & ->).
  apply trial_loop_learns in Hloop
    as (m & its & Hm & Hruns & Hend & Hfin & Hc & Ho & Hlearn).
  cbn [mdps agent_objs calls outputs add_call set_mdps] in Hm, Hc, Ho, Hlearn.
  rewrite lookup_insert_eq in Hm. simplify_eq.
  exists m0, its. split_and!; try done.
  rewrite Hc. unfold trial_calls. by rewrite <- !app_assoc.
Qed.

(** *** A run is a sequence of trials *)

Lemma run_trials_Returned fuel mdp agent n (ixs : list Z) s s' :
  foreach (λ i,
    log INFO "Trial {}/{}" [AInt (i + 1); AInt n] ;;;
    num_steps <- _run_trial fuel mdp agent ;;
    r <- mdp_attr mdp total_reward ;;
    t <- mdp_attr mdp timesteps ;;
    log DEBUG "reward:{}; timesteps:{}" [AReward r; AInt t]) ixs s
  = Returned tt s' →
  ∃ tr, length tr = length ixs ∧
    calls s' = calls s ++ flat_map (trial_calls mdp agent) tr ∧
    (∃ new, outputs s' = outputs s ++ new) ∧
    (∀ m0, mdps s !! mdp = Some m0 →
       trials mdp m0 tr ∧
       outputs s' = outputs s ++
         flat_map (λ im, trial_lines n im.1 im.2) (zip ixs (ends m0 tr))) ∧
    (∀ a0, agent_objs s !! agent = Some a0 →
       chooses a0 (concat tr) ∧
       agent_objs s' = <[agent := learn a0 (concat tr)]> (agent_objs s)).
Proof.
  revert s. induction ixs as [|i ixs IH]; simpl; intros s Hrun.
  - injection Hrun as <-. exists []. simpl. rewrite !app_nil_r.
    split_and!; try done; [exists []; by rewrite app_nil_r|].
    intros a0 Ha0. by rewrite insert_id.
  - apply bind_Returned in Hrun as ([] & s1 & Htrial & Hrest).
    apply bind_Returned in Htrial as ([] & s0 & ->%mdp_log_Returned & Htrial).
    apply bind_Returned in Htrial as (k & s2 & Htrial & Hlog).
    apply bind_Returned in Hlog
      as (r & s3 & (mf & Hmf & -> & ->)%mdp_attr_Returned & Hlog).
    apply bind_Returned in Hlog
      as (t & s3 & (mf' & Hmf' & -> & ->)%mdp_attr_Returned & Hlog).
    apply mdp_log_Returned in Hlog as ->.
    apply run_trial_learns in Htrial
      as (m0 & its & Hm0 & Hruns & Hend & Hfin & _ & Hc & Ho & Hlearn).
    apply IH in Hrest as (tr & Hlen & Hcs & [new Hnew] & Htrials & Hlearns).
    cbn [mdps agent_objs calls outputs add_output] in *. simplify_eq.
    exists (its :: tr). cbn [length concat flat_map]. split_and!.
    + by rewrite Hlen.
    + rewrite Hcs, Hc, <- app_assoc. reflexivity.
    + eexists. rewrite Hnew, Ho, <- !app_assoc. reflexivity.
    + intros m Hm. simplify_eq.
      destruct (Htrials _ Hend) as [Htr Hout]. split; [done|].
      rewrite Hout, Ho, <- !app_assoc. reflexivity.
    + intros a0 Ha0. destruct (Hlearn _ Ha0) as [Hchooses Hobjs].
      destruct (Hlearns (learn a0 its)) as [Hchooses' Hobjs'].
      { rewrite Hobjs. apply lookup_insert_eq. }
      split; [by apply chooses_app|].
      rewrite Hobjs', Hobjs, learn_app. apply insert_insert_eq.
Qed.

(** X16: a completed [run_mdp] is [num_trials] trials, one after the other
    on the same MDP object.  Every trial starts from [mdp.reset()] of
    whatever the trial before left and steps the MDP until it is terminal.
    The log has, for the trial numbered [i] of [num_trials], counted from
    one, the line "Trial i/num_trials" and then the [total_reward] and
    [timesteps] the MDP holds when that trial is over; after the last
    trial the weights of the agent as it is then, "Trials complete." and
    the prompt of [input]. *)
Theorem run_mdp_runs_trials fuel mdp agent num_trials s s' m0 :
  mdps s !! mdp = Some m0 →
  run_mdp fuel mdp agent num_trials s = Returned tt s' →
  ∃ tr af, length tr = Z.to_nat num_trials ∧
    trials mdp m0 tr ∧
    calls s' = calls s ++ flat_map (trial_calls mdp agent) tr ∧
    agent_objs s' !! agent = Some af ∧
    outputs s' = outputs s ++
      flat_map (λ im, trial_lines num_trials im.1 im.2)
        (zip (range num_trials) (ends m0 tr)) ++
      [Log DEBUG "Final agent weights: {}" [AWeights (weights af)];
       Log INFO "Trials complete." [];
       Input (newline +:+ "Press enter key to end.")].
Proof.
  unfold run_mdp. intros Hm0 Hrun.
  apply bind_Returned in Hrun as ([] & s1 & Htrials & Hrun).
  apply bind_Returned in Hrun
    as (w & s2 & (af & Haf & -> & ->)%learner_attr_Returned & Hrun).
  apply bind_Returned in Hrun as ([] & s2 & ->%mdp_log_Returned & Hrun).
  apply bind_Returned in Hrun as ([] & s2 & ->%mdp_log_Returned & Hrun).
  apply bind_Returned in Hrun
    as (line & s2 & [_ ->]%mdp_input_Returned & [= <-]).
  apply run_trials_Returned in Htrials as (tr & Hlen & Hc & _ & Htr & _).
  destruct (Htr _ Hm0) as [Htrials Hout].
  exists tr, af. rewrite Hlen, range_length. split_and!; try done.
  cbn [outputs add_output set_stdin]. rewrite Hout, <- !app_assoc.
  reflexivity.
Qed.

(** X17: [run_mdp] trains one agent across all its trials and never
    resets it.  In a completed run every action given to [step] is the
    answer of [get_next_action] of the agent as all the iterations before,
    of this and of the earlier trials, have left it; the agent object ends
    as the result of all the [get_next_action] and [update] calls in
    order; the weights in the log are those of that final agent; and no
    other agent object has changed. *)
Theorem run_mdp_trains_one_agent fuel mdp agent num_trials s s' a0 :
  agent_objs s !! agent = Some a0 →
  run_mdp fuel mdp agent num_trials s = Returned tt s' →
  ∃ tr earlier, length tr = Z.to_nat num_trials ∧
    calls s' = calls s ++ flat_map (trial_calls mdp agent) tr ∧
    chooses a0 (concat tr) ∧
    agent_objs s' = <[agent := learn a0 (concat tr)]> (agent_objs s) ∧
    outputs s' = outputs s ++ earlier ++
      [Log DEBUG "Final agent weights: {}"
         [AWeights (weights (learn a0 (concat tr)))];
       Log INFO "Trials complete." [];
       Input (newline +:+ "Press enter key to end.")].
Proof.
  unfold run_mdp. intros Ha0 Hrun.
  apply bind_Returned in Hrun as ([] & s1 & Htrials & Hrun).
  apply bind_Returned in Hrun
    as (w & s2 & (af & Haf & -> & ->)%learner_attr_Returned & Hrun).
  apply bind_Returned in Hrun as ([] & s2 & ->%mdp_log_Returned & Hrun).
  apply bind_Returned in Hrun as ([] & s2 & ->%mdp_log_Returned & Hrun).
  apply bind_Returned in Hrun
    as (line & s2 & [_ ->]%mdp_input_Returned & [= <-]).
  apply run_trials_Returned in Htrials
    as (tr & Hlen & Hc & [earlier Hout] & _ & Hlearn).
  destruct (Hlearn _ Ha0) as [Hchooses Hobjs].
  rewrite Hobjs, lookup_insert_eq in Haf. injection Haf as <-.
  exists tr, earlier. rewrite Hlen, range_length. split_and!; try done.
  cbn [outputs add_output set_stdin]. rewrite Hout, <- !app_assoc.
  reflexivity.
Qed.
End mdp_more.

(** ** More runs of the stubs *)

Section more_stub_runs.
Import Stub.

Local Existing Instance three_moves.
Local Existing Instance five_steps.
Local Existing Instance MDPMode.counted_MDP.

Lemma seated_present agent :
  agent ∈ [0; 1]%nat → is_Some (GameMode.agent_objs seated !! agent).
Proof.
  intros Hagent. apply elem_of_dom. vm_compute. set_solver.
Qed.

(** The stub world with the standard input at its end. *)
Definition seated_at_eof := GameMode.set_stdin [] seated.

Lemma run_games_without_games_witness :
  GameMode.run_games 10 0 [0; 1]%nat 5 0 seated
  = Returned tt
      (GameMode.set_stdin []
         (GameMode.add_output
            (GameMode.Input (newline +:+ "Press enter key to end."))
            (GameMode.add_output (GameMode.Log INFO "Games complete" [])
               seated))) ∧
  GameMode.run_games 10 0 [0; 1]%nat 5 0 seated_at_eof
  = Raised EOFError
      (GameMode.add_output
         (GameMode.Input (newline +:+ "Press enter key to end."))
         (GameMode.add_output (GameMode.Log INFO "Games complete" [])
            seated_at_eof)).
Proof.
  split.
  - apply (run_games_without_games 10 0 [0; 1]%nat 5 0 seated);
      [reflexivity|lia].
  - apply (run_games_without_games 10 0 [0; 1]%nat 5 0 seated_at_eof);
      [reflexivity|lia].
Defined.



(** [_run_game] itself does not compare [len(agents)] with
    [NUM_PLAYERS]: given no agent at all, the first turn of the game for
    two players fails at the subscript. *)
Lemma run_game_seat_out_of_range_witness :
  ∃ s', GameMode._run_game 10 0 [] 5 seated = Raised IndexError s' ∧
    GameMode.calls s' = GameMode.calls seated ++
      [GameMode.GameReset] ++ (GameMode.AgentReset <$> []) ++
      [GameMode.IsTerminal false] ∧
    GameMode.games s'
    = <[0%nat := GameMode.game_reset (CountingGame 7)]> (GameMode.games seated).
Proof.
  apply (run_game_seat_out_of_range 9 0 [] 5 seated (CountingGame 7)).
  - reflexivity.
  - by intros agent ?%elem_of_nil.
  - reflexivity.
  - left. simpl. lia.
Defined.


Lemma run_game_without_end_witness :
  GameMode._run_game (Game0 := endless) 10 0 [0; 1]%nat 5 seated = Unfinished.
Proof.
  apply (run_game_without_end (Game0 := endless)).
  - reflexivity.
  - intros v. change (-2 ≤ Z.of_nat (moves v `mod` 2) < 2).
    pose proof (Nat.mod_upper_bound (moves v) 2). lia.
  - eexists. reflexivity.
  - exact seated_present.
Defined.

Lemma games_played_run :
  GameMode.run_games 10 0 [0; 1]%nat 5 2 seated = Returned tt games_played.
Proof. vm_compute. reflexivity. Qed.

Lemma run_games_plays_episodes_witness :
  ∃ eps, length eps = Z.to_nat 2 ∧
    (∀ v0, GameMode.games seated !! 0%nat = Some v0 →
       GameMode.episodes v0 eps) ∧
    Forall (λ ep, Forall (GameMode.turn_ok [0; 1]%nat) ep.1) eps ∧
    GameMode.calls games_played = GameMode.calls seated ++
      flat_map (λ ep, GameMode.episode_calls [0; 1]%nat 5 ep.1 ep.2) eps.
Proof.
  apply (run_games_plays_episodes 10 0 [0; 1]%nat 5 2 seated games_played).
  exact games_played_run.
Defined.

Lemma run_games_info_output_witness :
  ∃ eps, length eps = Z.to_nat 2 ∧
    (∀ v0, GameMode.games seated !! 0%nat = Some v0 →
       GameMode.episodes v0 eps) ∧
    GameMode.shown_at_info (GameMode.outputs games_played)
    = GameMode.shown_at_info (GameMode.outputs seated) ++
      flat_map (λ iw, GameMode.game_lines 2 iw.1 iw.2)
        (zip (range 2) eps.*2) ++
      [GameMode.Log INFO "Games complete" [];
       GameMode.Input (newline +:+ "Press enter key to end.")].
Proof.
  apply (run_games_info_output 10 0 [0; 1]%nat 5 2 seated games_played).
  exact games_played_run.
Defined.

(** Three agent objects, of which the first two play. *)
Definition watched :=
  game_world [Recorder 0 []; Recorder 1 []; Recorder 2 [(9%nat, true)]].

Definition watched_played :=
  state_after (GameMode.run_games 10 0 [0; 1]%nat 5 2 watched) watched.

Lemma run_games_touches_listed_agents_only_witness :
  (∀ a, a ∉ [0; 1]%nat →
     GameMode.agent_objs watched_played !! a
     = GameMode.agent_objs watched !! a) ∧
  ∃ new, GameMode.calls watched_played = GameMode.calls watched ++ new ∧
    ∀ c a, c ∈ new → GameMode.receiver c = Some a → a ∈ [0; 1]%nat.
Proof.
  apply (run_games_touches_listed_agents_only 10 0 [0; 1]%nat 5 2 watched
    watched_played).
  vm_compute. reflexivity.
Defined.

(** One agent object on both seats. *)
Definition both_seats_played :=
  state_after (GameMode.run_games 10 0 [0; 0]%nat 5 1 seated) seated.

Lemma notified_once_per_seat_and_transition_witness :
  ∃ new, GameMode.calls both_seats_played = GameMode.calls seated ++ new ∧
    ∀ agent,
      length (GameMode.notifications agent new)
      = (length (filter (.= agent) [0; 0]%nat) *
         length (GameMode.transitions new))%nat.
Proof.
  apply (notified_once_per_seat_and_transition 10 0 [0; 0]%nat 5 1 seated
    both_seats_played).
  vm_compute. reflexivity.
Defined.

Lemma advance_by_action_effect_witness :
  ∃ s',
    GameMode._advance_by_action 0 [0; 1]%nat 4%nat seated = Returned tt s' ∧
    GameMode.games s'
    = <[0%nat := GameMode.game_take_action 4%nat (CountingGame 7)]>
        (GameMode.games seated) ∧
    GameMode.calls s' = GameMode.calls seated ++
      GameMode.GameTakeAction 4%nat ::
      ((λ agent,
          GameMode.AgentTakeAction agent 4%nat
            (GameMode.own_flag (GameMode.id_of seated)
               (GameMode.current_agent_id (CountingGame 7)) agent))
         <$> [0; 1]%nat) ∧
    GameMode.outputs s' = GameMode.outputs seated ++
      [GameMode.Log DEBUG "Agent {} action {}"
         [GameMode.AInt (GameMode.current_agent_id (CountingGame 7));
          GameMode.AAction 4%nat]].
Proof.
  apply (advance_by_action_effect 0 [0; 1]%nat 4%nat seated (CountingGame 7)).
  - exact recorder_stable.
  - reflexivity.
  - exact seated_present.
Defined.

(** The stub world with the standard input at its end. *)
Definition mdp_world_at_eof := MDPMode.set_stdin [] mdp_world.

Lemma run_mdp_without_trials_witness :
  MDPMode.run_mdp 10 0 0 0 mdp_world
  = Returned tt
      (MDPMode.set_stdin []
         (MDPMode.add_output
            (MDPMode.Input (newline +:+ "Press enter key to end."))
            (MDPMode.add_output (MDPMode.Log INFO "Trials complete." [])
               (MDPMode.add_output
                  (MDPMode.Log DEBUG "Final agent weights: {}"
                     [MDPMode.AWeights (MDPMode.weights (Learner []))])
                  mdp_world)))) ∧
  MDPMode.run_mdp 10 0 0 0 mdp_world_at_eof
  = Raised EOFError
      (MDPMode.add_output
         (MDPMode.Input (newline +:+ "Press enter key to end."))
         (MDPMode.add_output (MDPMode.Log INFO "Trials complete." [])
            (MDPMode.add_output
               (MDPMode.Log DEBUG "Final agent weights: {}"
                  [MDPMode.AWeights (MDPMode.weights (Learner []))])
               mdp_world_at_eof))).
Proof.
  split.
  - apply (run_mdp_without_trials 10 0 0 0 mdp_world (Learner []));
      [reflexivity|lia].
  - apply (run_mdp_without_trials 10 0 0 0 mdp_world_at_eof (Learner []));
      [reflexivity|lia].
Defined.


Lemma run_trial_without_end_witness :
  MDPMode._run_trial
    (MDP0 := MDPMode.counted_MDP (Task0 := endless_Task)) 10 0 0 mdp_world
  = Unfinished.
Proof.
  apply (run_trial_without_end
    (MDP0 := MDPMode.counted_MDP (Task0 := endless_Task)));
    [reflexivity|eexists; reflexivity..].
Defined.

Lemma trials_run_run :
  MDPMode.run_mdp 10 0 0 2 mdp_world = Returned tt trials_run.
Proof. vm_compute. reflexivity. Qed.

Lemma run_mdp_runs_trials_witness :
  ∃ tr af, length tr = Z.to_nat 2 ∧
    MDPMode.trials 0 (MDPMode.Counted 3%nat 7%float 9) tr ∧
    MDPMode.calls trials_run = MDPMode.calls mdp_world ++
      flat_map (MDPMode.trial_calls 0 0) tr ∧
    MDPMode.agent_objs trials_run !! 0%nat = Some af ∧
    MDPMode.outputs trials_run = MDPMode.outputs mdp_world ++
      flat_map (λ im, MDPMode.trial_lines 2 im.1 im.2)
        (zip (range 2) (MDPMode.ends (MDPMode.Counted 3%nat 7%float 9) tr)) ++
      [MDPMode.Log DEBUG "Final agent weights: {}"
         [MDPMode.AWeights (MDPMode.weights af)];
       MDPMode.Log INFO "Trials complete." [];
       MDPMode.Input (newline +:+ "Press enter key to end.")].
Proof.
  apply (run_mdp_runs_trials 10 0 0 2 mdp_world trials_run).
  - reflexivity.
  - exact trials_run_run.
Defined.

Lemma run_mdp_trains_one_agent_witness :
  ∃ tr earlier, length tr = Z.to_nat 2 ∧
    MDPMode.calls trials_run = MDPMode.calls mdp_world ++
      flat_map (MDPMode.trial_calls 0 0) tr ∧
    MDPMode.chooses (Learner []) (concat tr) ∧
    MDPMode.agent_objs trials_run
    = <[0%nat := MDPMode.learn (Learner []) (concat tr)]>
        (MDPMode.agent_objs mdp_world) ∧
    MDPMode.outputs trials_run = MDPMode.outputs mdp_world ++ earlier ++
      [MDPMode.Log DEBUG "Final agent weights: {}"
         [MDPMode.AWeights
            (MDPMode.weights (MDPMode.learn (Learner []) (concat tr)))];
       MDPMode.Log INFO "Trials complete." [];
       MDPMode.Input (newline +:+ "Press enter key to end.")].
Proof.
  apply (run_mdp_trains_one_agent 10 0 0 2 mdp_world trials_run).
  - reflexivity.
  - exact trials_run_run.
Defined.
End more_stub_runs.
